(** * Tic-tac-toe game core: a shallow embedding of the Python models and services

    The embedding follows the modules of [src/tic_tac_toe]:
    [models/value_objects.py], [models/player.py], [models/game_status.py],
    [models/move.py], [models/game_board.py], [models/board_validator.py],
    [models/win_checker.py], [models/game_state.py],
    [services/move_executor.py] and [services/game_service_core.py];
    further down, [services/status_message_generator.py],
    [services/game_analytics_service.py], [ui/renderer.py],
    [ui/input_handler.py] and [controllers/game_controller.py].

    Python integers are unbounded, so they are [Z].  A Python list is a Rocq
    list indexed the way Python indexes it: a negative index counts from the
    end and an index out of range raises [IndexError].  Exceptions are values
    of [result]; the methods of the mutable [GameState] object live in a
    state-and-exception monad that keeps the mutations made before a raise. *)

From stdpp Require Import base numbers list strings finite gmap.

Open Scope Z_scope.

(** ** Exceptions *)

Inductive exn : Type :=
| ValueError (msg : string)
| IndexError.

Inductive result (A : Type) : Type :=
| Ok (a : A)
| Raise (e : exn).

Arguments Ok {A} a.
Arguments Raise {A} e.

#[global] Instance result_ret : MRet result := fun A a => Ok a.

#[global] Instance result_bind : MBind result := fun A B k r =>
  match r with
  | Ok a => k a
  | Raise e => Raise e
  end.

Definition is_ok {A} (r : result A) : bool :=
  match r with
  | Ok _ => true
  | Raise _ => false
  end.

(** ** Python lists *)

(** [range(n)]: the integers [0, 1, ..., n-1]; empty when [n <= 0]. *)
Definition range (n : Z) : list Z :=
  map Z.of_nat (seq 0 (Z.to_nat n)).

(** The position a Python index denotes in a list of length [len]. *)
Definition py_position (len : nat) (i : Z) : option nat :=
  let j := if i <? 0 then i + Z.of_nat len else i in
  if (0 <=? j) && (j <? Z.of_nat len) then Some (Z.to_nat j) else None.

(** [l[i]] *)
Definition py_getitem {A} (l : list A) (i : Z) : result A :=
  match py_position (length l) i with
  | Some j =>
      match l !! j with
      | Some x => Ok x
      | None => Raise IndexError
      end
  | None => Raise IndexError
  end.

(** [l[i] = x] *)
Definition py_setitem {A} (l : list A) (i : Z) (x : A) : result (list A) :=
  match py_position (length l) i with
  | Some j => Ok (<[j:=x]> l)
  | None => Raise IndexError
  end.

(** [for x in xs: if cond(x): return value(x)] followed by [return None];
    both [cond] and [value] may raise. *)
Fixpoint for_return {A B} (xs : list A) (cond : A -> result bool)
    (value : A -> result B) : result (option B) :=
  match xs with
  | [] => Ok None
  | x :: rest =>
      c ← cond x;
      if c : bool then v ← value x; Ok (Some v)
      else for_return rest cond value
  end.

(** ** models/player.py and models/game_status.py *)

Inductive Player : Type := NONE | X | O.

Inductive GameStatus : Type := IN_PROGRESS | X_WINS | O_WINS | TIE.

#[global] Instance Player_eq_dec : EqDecision Player.
Proof. solve_decision. Defined.

#[global] Instance GameStatus_eq_dec : EqDecision GameStatus.
Proof. solve_decision. Defined.

(** [Player.name] *)
Definition Player_name (p : Player) : string :=
  match p with
  | NONE => "NONE"
  | X => "X"
  | O => "O"
  end.

(** ** models/value_objects.py *)

Module GridCoordinate.

Record t : Type := mk { row : Z; col : Z }.

Definition _validate_coordinate_values (row col : Z) : result unit :=
  if (row <? 0) || (col <? 0)
  then Raise (ValueError "Grid coordinates must be non-negative")
  else Ok tt.

Definition __init__ (row col : Z) : result t :=
  _validate_coordinate_values row col;;
  Ok (mk row col).

Definition to_tuple (self : t) : Z * Z := (row self, col self).

Definition is_valid_for_grid (self : t) (grid_size : Z) : bool :=
  ((0 <=? row self) && (row self <? grid_size))
  && ((0 <=? col self) && (col self <? grid_size)).

End GridCoordinate.

Module ScreenPosition.

Record t : Type := mk { x : Z; y : Z }.

Definition _validate_position_values (x y : Z) : result unit :=
  if (x <? 0) || (y <? 0)
  then Raise (ValueError "Screen position coordinates must be non-negative")
  else Ok tt.

Definition __init__ (x y : Z) : result t :=
  _validate_position_values x y;;
  Ok (mk x y).

End ScreenPosition.

Module Dimensions.

Record t : Type := mk { width : Z; height : Z }.

Definition _validate_dimension_values (width height : Z) : result unit :=
  if (width <=? 0) || (height <=? 0)
  then Raise (ValueError "Dimensions must be positive")
  else Ok tt.

Definition __init__ (width height : Z) : result t :=
  _validate_dimension_values width height;;
  Ok (mk width height).

(** [ScreenPosition(self.width // 2, self.height // 2)]; [//] is floor
    division, as [Z.div] is for a positive divisor. *)
Definition get_center_point (self : t) : result ScreenPosition.t :=
  ScreenPosition.__init__ (width self / 2) (height self / 2).

End Dimensions.

Module GridSize.

Record t : Type := mk { size : Z }.

Definition _validate_grid_size (size : Z) : result unit :=
  if size <=? 0 then Raise (ValueError "Grid size must be positive")
  else if size >? 10 then Raise (ValueError "Grid size too large (maximum 10)")
  else Ok tt.

Definition __init__ (size : Z) : result t :=
  _validate_grid_size size;;
  Ok (mk size).

(** [GridSize()]: the default argument is [size = 3]. *)
Definition default : result t := __init__ 3.

Definition get_total_cells (self : t) : Z := size self * size self.

Definition is_valid_coordinate (self : t) (coordinate : GridCoordinate.t) : bool :=
  GridCoordinate.is_valid_for_grid coordinate (size self).

(** [grid_size or GridSize()]: a [GridSize] object defines neither
    [__bool__] nor [__len__], so it is truthy and only [None] falls through
    to the default. *)
Definition or_default (grid_size : option t) : result t :=
  match grid_size with
  | Some g => Ok g
  | None => default
  end.

End GridSize.

(** ** models/move.py *)

Module Move.

Record t : Type := mk { coordinate : GridCoordinate.t; player : Player }.

Definition row (self : t) : Z := GridCoordinate.row (coordinate self).
Definition col (self : t) : Z := GridCoordinate.col (coordinate self).

End Move.

(** The board matrix: [List[List[Player]]], row-major. *)
Abbreviation matrix := (list (list Player)).

(** [board[row][col]] *)
Definition cell_at (board : matrix) (row col : Z) : result Player :=
  r ← py_getitem board row;
  py_getitem r col.

(** ** models/game_board.py *)

Module GameBoard.

Record t : Type := mk { grid_size : GridSize.t; board : matrix }.

Definition _create_empty_board (g : GridSize.t) : matrix :=
  map (fun _ => map (fun _ => NONE) (range (GridSize.size g)))
      (range (GridSize.size g)).

Definition __init__ (grid_size : option GridSize.t) : result t :=
  g ← GridSize.or_default grid_size;
  Ok (mk g (_create_empty_board g)).

Definition reset_board (self : t) : t :=
  mk (grid_size self) (_create_empty_board (grid_size self)).

(** [self.board[coordinate.row][coordinate.col] = player]: the row list is
    fetched first, then updated in place. *)
Definition place_move (self : t) (coordinate : GridCoordinate.t)
    (player : Player) : result t :=
  r ← py_getitem (board self) (GridCoordinate.row coordinate);
  r' ← py_setitem r (GridCoordinate.col coordinate) player;
  b' ← py_setitem (board self) (GridCoordinate.row coordinate) r';
  Ok (mk (grid_size self) b').

Definition _is_position_valid (self : t) (coordinate : GridCoordinate.t) : bool :=
  GridSize.is_valid_coordinate (grid_size self) coordinate.

Definition get_cell_player (self : t) (coordinate : GridCoordinate.t)
    : result Player :=
  if _is_position_valid self coordinate
  then cell_at (board self) (GridCoordinate.row coordinate)
                            (GridCoordinate.col coordinate)
  else Ok NONE.

Definition get_board_copy (self : t) : matrix := board self.

End GameBoard.

(** ** models/board_validator.py *)

Module BoardValidator.

Record t : Type := mk { grid_size : GridSize.t }.

Definition __init__ (grid_size : option GridSize.t) : result t :=
  g ← GridSize.or_default grid_size;
  Ok (mk g).

Definition is_valid_position (self : t) (coordinate : GridCoordinate.t) : bool :=
  GridSize.is_valid_coordinate (grid_size self) coordinate.

Definition is_cell_empty (self : t) (board : matrix)
    (coordinate : GridCoordinate.t) : result bool :=
  if negb (is_valid_position self coordinate) then Ok false
  else
    p ← cell_at board (GridCoordinate.row coordinate)
                      (GridCoordinate.col coordinate);
    Ok (bool_decide (p = NONE)).

Definition _has_empty_cell_in_row (self : t) (board : matrix) (row : Z)
    : result bool :=
  found ← for_return (range (GridSize.size (grid_size self)))
            (fun col => p ← cell_at board row col; Ok (bool_decide (p = NONE)))
            (fun _ => Ok true);
  Ok (default false found).

Definition is_board_full (self : t) (board : matrix) : result bool :=
  found ← for_return (range (GridSize.size (grid_size self)))
            (fun row => _has_empty_cell_in_row self board row)
            (fun _ => Ok false);
  Ok (default true found).

End BoardValidator.

(** ** models/win_checker.py *)

Module WinChecker.

Record t : Type := mk { grid_size : GridSize.t }.

Definition __init__ (grid_size : option GridSize.t) : result t :=
  g ← GridSize.or_default grid_size;
  Ok (mk g).

(** [cell1 == cell2 == cell3 != Player.NONE] *)
Definition _is_winning_line (cell1 cell2 cell3 : Player) : bool :=
  bool_decide (cell1 = cell2) && bool_decide (cell2 = cell3)
  && bool_decide (cell3 <> NONE).

(** The call [self._is_winning_line(a, b, c)] with its three argument
    expressions evaluated left to right. *)
Definition winning_cells (a b c : result Player) : result bool :=
  x ← a; y ← b; z ← c; Ok (_is_winning_line x y z).

Definition _check_rows_for_winner (self : t) (board : matrix)
    : result (option Player) :=
  for_return (range (GridSize.size (grid_size self)))
    (fun row => winning_cells (cell_at board row 0) (cell_at board row 1)
                              (cell_at board row 2))
    (fun row => cell_at board row 0).

Definition _check_columns_for_winner (self : t) (board : matrix)
    : result (option Player) :=
  for_return (range (GridSize.size (grid_size self)))
    (fun col => winning_cells (cell_at board 0 col) (cell_at board 1 col)
                              (cell_at board 2 col))
    (fun col => cell_at board 0 col).

Definition _check_diagonals_for_winner (self : t) (board : matrix)
    : result (option Player) :=
  d1 ← winning_cells (cell_at board 0 0) (cell_at board 1 1) (cell_at board 2 2);
  if d1 : bool then p ← cell_at board 0 0; Ok (Some p)
  else
    d2 ← winning_cells (cell_at board 0 2) (cell_at board 1 1) (cell_at board 2 0);
    if d2 : bool then p ← cell_at board 0 2; Ok (Some p)
    else Ok None.

(** [if winner:] tests an [Optional[Player]]: members of a plain [Enum] are
    all truthy, so the test fails exactly on [None]. *)
Definition check_for_winner (self : t) (board : matrix)
    : result (option Player) :=
  winner ← _check_rows_for_winner self board;
  match winner with
  | Some p => Ok (Some p)
  | None =>
      winner ← _check_columns_for_winner self board;
      match winner with
      | Some p => Ok (Some p)
      | None => _check_diagonals_for_winner self board
      end
  end.

End WinChecker.

(** ** models/game_state.py *)

Module GameState.

Record t : Type := mk {
  grid_size : GridSize.t;
  board : GameBoard.t;
  validator : BoardValidator.t;
  win_checker : WinChecker.t;
  current_player : Player;
  status : GameStatus;
  winner : option Player;
  move_history : list Move.t
}.

(** A method of the object: it returns a value or raises, and in both cases
    leaves the object in the state its assignments produced so far. *)
Definition M (A : Type) : Type := t -> result A * t.

#[global] Instance M_ret : MRet M := fun A a s => (Ok a, s).

#[global] Instance M_bind : MBind M := fun A B k m s =>
  match m s with
  | (Ok a, s') => k a s'
  | (Raise e, s') => (Raise e, s')
  end.

(** Read the object. *)
Definition gets {A} (f : t -> A) : M A := fun s => (Ok (f s), s).

(** Evaluate an expression that may raise and does not assign. *)
Definition eval {A} (f : t -> result A) : M A := fun s => (f s, s).

(** Assign to attributes. *)
Definition modify (f : t -> t) : M unit := fun s => (Ok tt, f s).

Definition set_board (b : GameBoard.t) (s : t) : t :=
  mk (grid_size s) b (validator s) (win_checker s) (current_player s)
     (status s) (winner s) (move_history s).

Definition set_current_player (p : Player) (s : t) : t :=
  mk (grid_size s) (board s) (validator s) (win_checker s) p
     (status s) (winner s) (move_history s).

Definition set_status (st : GameStatus) (s : t) : t :=
  mk (grid_size s) (board s) (validator s) (win_checker s) (current_player s)
     st (winner s) (move_history s).

Definition set_winner (w : option Player) (s : t) : t :=
  mk (grid_size s) (board s) (validator s) (win_checker s) (current_player s)
     (status s) w (move_history s).

Definition set_move_history (h : list Move.t) (s : t) : t :=
  mk (grid_size s) (board s) (validator s) (win_checker s) (current_player s)
     (status s) (winner s) h.

Definition _initialize_game_state : M unit :=
  modify (set_current_player X);;
  modify (set_status IN_PROGRESS);;
  modify (set_winner None);;
  modify (set_move_history []).

(** [__init__]: [_initialize_game_components] builds the three helper
    objects around the one [GridSize], then [_initialize_game_state] sets the
    remaining attributes. *)
Definition __init__ (grid_size : option GridSize.t) : result t :=
  g ← GridSize.or_default grid_size;
  b ← GameBoard.__init__ (Some g);
  v ← BoardValidator.__init__ (Some g);
  w ← WinChecker.__init__ (Some g);
  Ok (mk g b v w X IN_PROGRESS None []).

Definition reset_to_initial_state : M unit :=
  _initialize_game_state;;
  modify (fun s => set_board (GameBoard.reset_board (board s)) s).

Definition _is_game_in_progress : M bool :=
  gets (fun s => bool_decide (status s = IN_PROGRESS)).

Definition is_valid_move (coordinate : GridCoordinate.t) : M bool :=
  in_progress ← _is_game_in_progress;
  if in_progress : bool
  then eval (fun s => BoardValidator.is_cell_empty (validator s)
                        (GameBoard.board (board s)) coordinate)
  else mret false.

Definition get_cell (coordinate : GridCoordinate.t) : M Player :=
  eval (fun s => GameBoard.get_cell_player (board s) coordinate).

Definition _place_current_player_move (coordinate : GridCoordinate.t) : M unit :=
  p ← gets current_player;
  let move := Move.mk coordinate p in
  b ← eval (fun s => GameBoard.place_move (board s) coordinate p);
  modify (set_board b);;
  modify (fun s => set_move_history (move_history s ++ [move]) s).

Definition _set_winner_and_end_game (w : Player) : M unit :=
  modify (set_winner (Some w));;
  modify (set_status (if bool_decide (w = X) then X_WINS else O_WINS)).

Definition _set_tie_game : M unit :=
  modify (set_status TIE).

(** [if winner:] holds exactly when the checker returned a player, see
    [WinChecker.check_for_winner]. *)
Definition _check_for_game_completion : M unit :=
  w ← eval (fun s => WinChecker.check_for_winner (win_checker s)
                       (GameBoard.board (board s)));
  match w with
  | Some p => _set_winner_and_end_game p
  | None =>
      full ← eval (fun s => BoardValidator.is_board_full (validator s)
                              (GameBoard.board (board s)));
      if full : bool then _set_tie_game else mret tt
  end.

Definition _switch_current_player : M unit :=
  modify (fun s => set_current_player
                     (if bool_decide (current_player s = X) then O else X) s).

Definition _switch_to_next_player_if_game_continues : M unit :=
  in_progress ← _is_game_in_progress;
  if in_progress : bool then _switch_current_player else mret tt.

Definition execute_move (coordinate : GridCoordinate.t) : M bool :=
  valid ← is_valid_move coordinate;
  if negb valid then mret false
  else
    _place_current_player_move coordinate;;
    _check_for_game_completion;;
    _switch_to_next_player_if_game_continues;;
    mret true.

End GameState.

(** ** services/move_executor.py

    A [MoveExecutor] keeps a reference to the [GameState] it was built with,
    so its methods act on that object. *)

Module MoveExecutor.

Import GameState.

Definition _is_game_already_finished : M bool :=
  gets (fun s => bool_decide (status s <> IN_PROGRESS)).

Definition _is_move_valid (coordinate : GridCoordinate.t) : M bool :=
  is_valid_move coordinate.

Definition _create_success_message : M string :=
  st ← gets status;
  if bool_decide (st = IN_PROGRESS)
  then p ← gets current_player; mret ("Move successful: " +:+ Player_name p)
  else mret "Move successful: Game ended".

Definition _execute_valid_move (coordinate : GridCoordinate.t)
    : M (bool * string) :=
  success ← execute_move coordinate;
  if success : bool
  then msg ← _create_success_message; mret (true, msg)
  else mret (false, "Failed to make move").

Definition attempt_move (coordinate : GridCoordinate.t) : M (bool * string) :=
  finished ← _is_game_already_finished;
  if finished : bool then mret (false, "Game is already finished")
  else
    valid ← _is_move_valid coordinate;
    if negb valid
    then mret (false, "Invalid move: cell is occupied or out of bounds")
    else _execute_valid_move coordinate.

End MoveExecutor.

(** ** services/game_service_core.py

    The service owns one [GameState], built with the default grid size, and
    hands the same object to its [MoveExecutor]. *)

Module GameService.

Import GameState.

Definition __init__ : result GameState.t := GameState.__init__ None.

Definition start_new_game : M GameState.t :=
  reset_to_initial_state;;
  gets id.

Definition make_move (coordinate : GridCoordinate.t) : M (bool * string) :=
  MoveExecutor.attempt_move coordinate.

Definition get_game_state : M GameState.t := gets id.

Definition get_current_player : M Player := gets current_player.

Definition get_game_status : M GameStatus := gets status.

Definition get_winner : M (option Player) := gets winner.

Definition is_game_over : M bool :=
  gets (fun s => bool_decide (status s <> IN_PROGRESS)).

Definition get_move_history : M (list Move.t) := gets move_history.

Definition can_restart : M bool := is_game_over.

End GameService.

(** * Vocabulary of the specification *)

(** ** Games, operations and reachable states *)

(** [GameState(GridSize(n))] *)
Definition new_game (n : Z) : result GameState.t :=
  g ← GridSize.__init__ n;
  GameState.__init__ (Some g).

(** The side of the board of a game. *)
Definition size_of (s : GameState.t) : Z :=
  GridSize.size (GameState.grid_size s).

Definition matrix_of (s : GameState.t) : matrix :=
  GameBoard.board (GameState.board s).

(** What a caller can do with a game: the two ways of moving, the two ways
    of resetting, and the queries. *)
Inductive op : Type :=
| op_execute_move (c : GridCoordinate.t)
| op_attempt_move (c : GridCoordinate.t)
| op_reset_to_initial_state
| op_start_new_game
| op_is_valid_move (c : GridCoordinate.t)
| op_get_cell (c : GridCoordinate.t)
| op_can_restart.

(** The object after an operation, whether it returned or raised. *)
Definition perform (o : op) (s : GameState.t) : GameState.t :=
  match o with
  | op_execute_move c => (GameState.execute_move c s).2
  | op_attempt_move c => (MoveExecutor.attempt_move c s).2
  | op_reset_to_initial_state => (GameState.reset_to_initial_state s).2
  | op_start_new_game => (GameService.start_new_game s).2
  | op_is_valid_move c => (GameState.is_valid_move c s).2
  | op_get_cell c => (GameState.get_cell c s).2
  | op_can_restart => (GameService.can_restart s).2
  end.

Definition run (ops : list op) (s : GameState.t) : GameState.t :=
  foldl (fun s o => perform o s) s ops.

Inductive reachable : GameState.t -> Prop :=
| reachable_new n s : new_game n = Ok s -> reachable s
| reachable_perform o s : reachable s -> reachable (perform o s).

Definition is_reset (o : op) : bool :=
  match o with
  | op_reset_to_initial_state | op_start_new_game => true
  | _ => false
  end.

(** An operation is an accepted move when it is a move and reports
    success. *)
Definition accepted (o : op) (s : GameState.t) : bool :=
  match o with
  | op_execute_move c =>
      match (GameState.execute_move c s).1 with
      | Ok b => b
      | Raise _ => false
      end
  | op_attempt_move c =>
      match (MoveExecutor.attempt_move c s).1 with
      | Ok (b, _) => b
      | Raise _ => false
      end
  | _ => false
  end.

(** The players who made the accepted moves of [ops], in order, since the
    last reset; [acc] holds those made before [ops]. *)
Fixpoint movers (ops : list op) (s : GameState.t) (acc : list Player)
    : list Player :=
  match ops with
  | [] => acc
  | o :: rest =>
      movers rest (perform o s)
        (if is_reset o then []
         else if accepted o s then acc ++ [GameState.current_player s]
         else acc)
  end.

(** The player [_switch_current_player] hands the turn to. *)
Definition other (p : Player) : Player :=
  if bool_decide (p = X) then O else X.

(** [X, O, X, ...] *)
Definition alternates_from_X (l : list Player) : Prop :=
  forall (i : nat) p, l !! i = Some p -> p = if Nat.even i then X else O.

(** ** Boards *)

(** An [n] by [n] matrix. *)
Definition is_square (n : Z) (b : matrix) : Prop :=
  length b = Z.to_nat n /\ Forall (fun r => length r = Z.to_nat n) b.

Definition in_bounds (n : Z) (c : GridCoordinate.t) : Prop :=
  (0 <= GridCoordinate.row c < n) /\ (0 <= GridCoordinate.col c < n).

(** The number of cells that hold a player. *)
Definition occupied (b : matrix) : nat :=
  sum_list (map (fun r => length (filter (fun p => p <> NONE) r)) b).

Definition no_empty_cell (b : matrix) : Prop :=
  Forall (Forall (fun p => p <> NONE)) b.

Definition all_empty (b : matrix) : Prop :=
  Forall (Forall (fun p => p = NONE)) b.

(** ** Lines *)

Definition row_line (n r : Z) : list (Z * Z) := map (fun c => (r, c)) (range n).

Definition column_line (n c : Z) : list (Z * Z) := map (fun r => (r, c)) (range n).

Definition main_diagonal (n : Z) : list (Z * Z) := map (fun i => (i, i)) (range n).

Definition anti_diagonal (n : Z) : list (Z * Z) :=
  map (fun i => (i, n - 1 - i)) (range n).

(** The rows, the columns and the two main diagonals of an [n] by [n]
    board, each with its [n] cells. *)
Definition lines (n : Z) : list (list (Z * Z)) :=
  map (row_line n) (range n) ++ map (column_line n) (range n)
  ++ [main_diagonal n; anti_diagonal n].

Definition owns (b : matrix) (p : Player) (l : list (Z * Z)) : Prop :=
  Forall (fun rc => cell_at b rc.1 rc.2 = Ok p) l.

(** Some row, column or main diagonal has all of its [n] cells equal to [p],
    and [p] is a player. *)
Definition complete_line (n : Z) (b : matrix) (p : Player) : Prop :=
  p <> NONE /\ Exists (owns b p) (lines n).

Definition wins_status (p : Player) : GameStatus :=
  match p with
  | X => X_WINS
  | _ => O_WINS
  end.

#[global] Instance exn_eq_dec : EqDecision exn.
Proof. solve_decision. Defined.

#[global] Instance result_eq_dec `{EqDecision A} : EqDecision (result A).
Proof. solve_decision. Defined.

#[global] Instance owns_dec b p l : Decision (owns b p l).
Proof. unfold owns. apply _. Defined.

#[global] Instance complete_line_dec n b p : Decision (complete_line n b p).
Proof. unfold complete_line. apply _. Defined.

#[global] Instance is_square_dec n b : Decision (is_square n b).
Proof. unfold is_square. apply _. Defined.

(** ** Concrete games used as examples *)

Definition at_ (r c : Z) : GridCoordinate.t := GridCoordinate.mk r c.

(** The state [GameState(GridSize(n))] starts in. *)
Definition fresh (n : Z) : GameState.t :=
  let g := GridSize.mk n in
  GameState.mk g (GameBoard.mk g (GameBoard._create_empty_board g))
    (BoardValidator.mk g) (WinChecker.mk g) X IN_PROGRESS None [].

(** ** Invariants of a game *)

(** The three helper objects share the grid size of the game, which is one
    the constructor accepts, and the board is a square of that side. *)
Definition coherent (s : GameState.t) : Prop :=
  GameBoard.grid_size (GameState.board s) = GameState.grid_size s /\
  BoardValidator.grid_size (GameState.validator s) = GameState.grid_size s /\
  WinChecker.grid_size (GameState.win_checker s) = GameState.grid_size s /\
  1 <= size_of s <= 10 /\
  is_square (size_of s) (matrix_of s).

Definition invariant (s : GameState.t) : Prop :=
  coherent s /\
  GameState.current_player s <> NONE /\
  length (GameState.move_history s) = occupied (matrix_of s) /\
  (GameState.status s = TIE ->
     no_empty_cell (matrix_of s) /\
     WinChecker.check_for_winner (GameState.win_checker s) (matrix_of s)
     = Ok None) /\
  (GameState.status s = IN_PROGRESS ->
     forall p, WinChecker.check_for_winner (GameState.win_checker s)
                 (matrix_of s) <> Ok (Some p)).

(** The object after [_place_current_player_move] put the mark on board [b]. *)
Definition placed (c : GridCoordinate.t) (b : GameBoard.t) (s : GameState.t)
    : GameState.t :=
  GameState.set_move_history
    (GameState.move_history s ++ [Move.mk c (GameState.current_player s)])
    (GameState.set_board b s).

(** The object after [reset_to_initial_state]. *)
Definition reset_state (s : GameState.t) : GameState.t :=
  GameState.mk (GameState.grid_size s)
    (GameBoard.reset_board (GameState.board s)) (GameState.validator s)
    (GameState.win_checker s) X IN_PROGRESS None [].

(** ** The three by three board *)

#[global] Instance Player_finite : Finite Player.
Proof.
  refine {| enum := [NONE; X; O] |}.
  - apply NoDup_ListNoDup. repeat constructor; simpl; intuition congruence.
  - intros []; repeat constructor.
Defined.

Definition board3 (a b c d e f g h i : Player) : matrix :=
  [[a; b; c]; [d; e; f]; [g; h; i]].

Definition checker3 : WinChecker.t := WinChecker.mk (GridSize.mk 3).

(** What the checker answers on a board agrees with the lines of the board. *)
Definition sound3 (b : matrix) : Prop :=
  match WinChecker.check_for_winner checker3 b with
  | Ok (Some p) => complete_line 3 b p
  | Ok None => forall p, ~ complete_line 3 b p
  | Raise _ => False
  end.

#[global] Instance sound3_dec b : Decision (sound3 b).
Proof. unfold sound3. repeat case_match; apply _. Defined.

(** The player, if any, who holds every cell of a line. *)
Definition line_owner (b : matrix) (l : list (Z * Z)) : option Player :=
  if decide (owns b X l) then Some X
  else if decide (owns b O l) then Some O
  else None.

(** The owner of the first line of the list that has one. *)
Fixpoint first_owner (b : matrix) (ls : list (list (Z * Z))) : option Player :=
  match ls with
  | [] => None
  | l :: ls =>
      match line_owner b l with
      | Some p => Some p
      | None => first_owner b ls
      end
  end.

(** The checker answers with the owner of the first complete line, in the
    order of [lines 3]: the rows from the top, the columns from the left,
    the main diagonal, the anti-diagonal. *)
Definition scan3 (b : matrix) : Prop :=
  WinChecker.check_for_winner checker3 b = Ok (first_owner b (lines 3)).

#[global] Instance scan3_dec b : Decision (scan3 b).
Proof. unfold scan3. apply _. Defined.

Ltac unfold_monad :=
  unfold mbind, mret, GameState.M_bind, GameState.M_ret, result_bind,
    result_ret, GameState.gets, GameState.eval, GameState.modify in *.

(** ** Example games *)

(** Three moves on the top row, as in scenario A, seen on a four by four
    board. *)
Definition board4 : matrix :=
  [[X; X; X; NONE]; [O; O; NONE; NONE]; [NONE; NONE; NONE; NONE];
   [NONE; NONE; NONE; NONE]].

Definition checker4 : WinChecker.t := WinChecker.mk (GridSize.mk 4).

(** Scenario A of the specification: [X] takes the top row. *)
Definition scenario_A : list op :=
  map op_execute_move [at_ 0 0; at_ 1 0; at_ 0 1; at_ 1 1; at_ 0 2].

(** Scenario B of the specification: nine moves and a tie. *)
Definition scenario_B : list op :=
  map op_execute_move
    [at_ 0 0; at_ 0 1; at_ 0 2; at_ 1 0; at_ 1 2; at_ 1 1; at_ 2 0; at_ 2 2;
     at_ 2 1].

(** Eight moves that leave [(2, 2)] empty, no line complete, and [X] to move
    with the main diagonal open. *)
Definition eight_moves : list op :=
  map op_execute_move
    [at_ 0 0; at_ 0 1; at_ 0 2; at_ 1 0; at_ 1 1; at_ 2 0; at_ 1 2; at_ 2 1].

(** Fifteen moves on a four by four board that leave [(3, 0)] empty, with
    [O] to move and holding the other three cells of the anti-diagonal. *)
Definition fifteen_moves : list op :=
  map op_execute_move
    [at_ 0 1; at_ 0 0; at_ 0 2; at_ 0 3; at_ 1 0; at_ 1 1; at_ 1 3; at_ 1 2;
     at_ 2 0; at_ 2 1; at_ 2 2; at_ 2 3; at_ 3 1; at_ 3 2; at_ 3 3].

(** Settle a decidable proposition about concrete data by evaluating its
    decision procedure. *)
Ltac by_decision := apply (bool_decide_unpack _); vm_compute; exact I.

(** * The rest of the game core *)

(** ** What a move does *)

(** The move at [c] is valid in [s]. *)
Definition valid_move (c : GridCoordinate.t) (s : GameState.t) : Prop :=
  GameState.status s = IN_PROGRESS /\ in_bounds (size_of s) c /\
  cell_at (matrix_of s) (GridCoordinate.row c) (GridCoordinate.col c) = Ok NONE.

(** [execute_move c] seen from outside: the result it returns and the state
    it leaves, by the path taken through the method. *)
Inductive move_result (c : GridCoordinate.t) (s : GameState.t)
    : result bool -> GameState.t -> Prop :=
| move_rejected :
    ~ valid_move c s -> move_result c s (Ok false) s
| move_raised b e :
    valid_move c s ->
    GameBoard.place_move (GameState.board s) c (GameState.current_player s) = Ok b ->
    WinChecker.check_for_winner (GameState.win_checker s) (GameBoard.board b)
    = Raise e ->
    move_result c s (Raise e) (placed c b s)
| move_won b p :
    valid_move c s ->
    GameBoard.place_move (GameState.board s) c (GameState.current_player s) = Ok b ->
    WinChecker.check_for_winner (GameState.win_checker s) (GameBoard.board b)
    = Ok (Some p) ->
    move_result c s (Ok true)
      (GameState.set_status (if bool_decide (p = X) then X_WINS else O_WINS)
         (GameState.set_winner (Some p) (placed c b s)))
| move_tied b :
    valid_move c s ->
    GameBoard.place_move (GameState.board s) c (GameState.current_player s) = Ok b ->
    WinChecker.check_for_winner (GameState.win_checker s) (GameBoard.board b)
    = Ok None ->
    no_empty_cell (GameBoard.board b) ->
    move_result c s (Ok true) (GameState.set_status TIE (placed c b s))
| move_continued b :
    valid_move c s ->
    GameBoard.place_move (GameState.board s) c (GameState.current_player s) = Ok b ->
    WinChecker.check_for_winner (GameState.win_checker s) (GameBoard.board b)
    = Ok None ->
    ~ no_empty_cell (GameBoard.board b) ->
    move_result c s (Ok true)
      (GameState.set_current_player (other (GameState.current_player s))
         (placed c b s)).

(** ** Counting marks *)

(** The number of cells of the board that hold [p]. *)
Definition marks (p : Player) (b : matrix) : nat :=
  sum_list (map (fun r => length (filter (fun q => q = p) r)) b).

(** The number of logged moves made by [p]. *)
Definition logged (p : Player) (h : list Move.t) : nat :=
  length (filter (fun m => Move.player m = p) h).

(** ** Replaying the log *)

(** The board obtained by placing the logged moves, oldest first, on an
    empty board. *)
Definition replay (g : GridSize.t) (h : list Move.t) : result GameBoard.t :=
  foldl (fun rb m => b ← rb; GameBoard.place_move b (Move.coordinate m) (Move.player m))
    (GameBoard.__init__ (Some g)) h.

(** ** More invariants *)

(** The winner attribute follows the status. *)
Definition winner_of_status (st : GameStatus) : option Player :=
  match st with
  | X_WINS => Some X
  | O_WINS => Some O
  | IN_PROGRESS | TIE => None
  end.

Definition invariant_log (s : GameState.t) : Prop :=
  GameState.winner s = winner_of_status (GameState.status s) /\
  replay (GameState.grid_size s) (GameState.move_history s) = Ok (GameState.board s) /\
  (forall p, p <> NONE ->
     logged p (GameState.move_history s) = marks p (matrix_of s)) /\
  logged NONE (GameState.move_history s) = 0%nat /\
  (forall p, GameState.winner s = Some p ->
     WinChecker.check_for_winner (GameState.win_checker s) (matrix_of s)
     = Ok (Some p)).

(** What holds in addition on boards of side three or more, where no move
    raises. *)
Definition invariant_turns (s : GameState.t) : Prop :=
  alternates_from_X (map Move.player (GameState.move_history s)) /\
  (GameState.status s = IN_PROGRESS ->
     GameState.current_player s
     = (if Nat.even (length (GameState.move_history s)) then X else O) /\
     ~ no_empty_cell (matrix_of s)) /\
  (GameState.status s <> IN_PROGRESS ->
     exists m, last (GameState.move_history s) = Some m /\
               Move.player m = GameState.current_player s).

(** The cells the checker reads: three per row, three per column, and two
    diagonals of three, all at the indices 0, 1 and 2. *)
Definition scanned_lines (n : Z) : list (list (Z * Z)) :=
  map (fun r => [(r, 0); (r, 1); (r, 2)]) (range n)
  ++ map (fun c => [(0, c); (1, c); (2, c)]) (range n)
  ++ [[(0, 0); (1, 1); (2, 2)]; [(0, 2); (1, 1); (2, 0)]].

(** ** services/status_message_generator.py *)

Module StatusMessageGenerator.

Definition _is_game_in_progress (status : GameStatus) : bool :=
  bool_decide (status = IN_PROGRESS).

Definition _get_player_display_name (player : Player) : string :=
  if bool_decide (player = X) then "X" else "O".

Definition _create_current_player_message (current_player : Player) : string :=
  "Current player: " +:+ _get_player_display_name current_player.

(** The final [else] answers for a status outside the three terminal ones;
    it is reached with [IN_PROGRESS] only when the method is called
    directly. *)
Definition _create_game_ended_message (status : GameStatus) : string :=
  if bool_decide (status = X_WINS) then "X Wins!"
  else if bool_decide (status = O_WINS) then "O Wins!"
  else if bool_decide (status = TIE) then "It's a Tie!"
  else "Unknown game state".

Definition create_status_message (status : GameStatus) (current_player : Player)
    : string :=
  if _is_game_in_progress status
  then _create_current_player_message current_player
  else _create_game_ended_message status.

End StatusMessageGenerator.

(** [GameService.get_status_message] and [GameService.get_game_status],
    the queries of services/game_service_core.py that read the status. *)
Module GameServiceStatus.

Definition get_status_message : GameState.M string :=
  st ← GameState.gets GameState.status;
  p ← GameState.gets GameState.current_player;
  mret (StatusMessageGenerator.create_status_message st p).

End GameServiceStatus.

(** * The user interface and the controller *)

(** ** Exceptions of the outer layers

    The renderer divides and the controller looks keys up in dictionaries,
    so besides the exceptions of the core two more can be raised. *)

Inductive error : Type :=
| Core (e : exn)
| ZeroDivisionError
| KeyError (key : string)
| AttributeError (name : string).

Inductive outcome (A : Type) : Type :=
| Returns (a : A)
| Throws (e : error).

Arguments Returns {A} a.
Arguments Throws {A} e.

#[global] Instance outcome_ret : MRet outcome := fun A a => Returns a.

#[global] Instance outcome_bind : MBind outcome := fun A B k r =>
  match r with
  | Returns a => k a
  | Throws e => Throws e
  end.

(** A computation of the core, seen from the outer layers. *)
Definition lift {A} (r : result A) : outcome A :=
  match r with
  | Ok a => Returns a
  | Raise e => Throws (Core e)
  end.

(** [a // b] on integers: floor division, as [Z.div] is.  Where the
    divisor is a literal the quotient is written with [Z.div] directly. *)
Definition floordiv (a b : Z) : outcome Z :=
  if bool_decide (b = 0) then Throws ZeroDivisionError else Returns (a / b).

(** [d[key]] *)
Definition dict_getitem {V} (d : gmap string V) (key : string) : outcome V :=
  match d !! key with
  | Some v => Returns v
  | None => Throws (KeyError key)
  end.

(** ** ui/renderer.py

    The screen is the list of the drawing calls made on it, oldest first. *)

Inductive drawing : Type :=
| Fill (color : Z * Z * Z)
| Line (color : Z * Z * Z) (start_pos end_pos : Z * Z) (width : Z)
| Rect (color : Z * Z * Z) (left top w h : Z) (width : Z)
| Circle (color : Z * Z * Z) (center : Z * Z) (radius : Z) (width : Z)
| Text (font_size : Z) (message : string) (color : Z * Z * Z) (center : Z * Z).

Module GameRenderer.

Record t : Type := mk {
  dimensions : Dimensions.t;
  grid_size : GridSize.t;
  cell_size : Z;
  grid_offset_x : Z;
  grid_offset_y : Z
}.

Definition BLACK : Z * Z * Z := (0, 0, 0).
Definition WHITE : Z * Z * Z := (255, 255, 255).
Definition RED : Z * Z * Z := (255, 0, 0).
Definition GREEN : Z * Z * Z := (0, 255, 0).
Definition BLUE : Z * Z * Z := (0, 0, 255).
Definition GRAY : Z * Z * Z := (128, 128, 128).

(** [_calculate_grid_layout] computes the three layout attributes from the
    dimensions and the grid size. *)
Definition _calculate_grid_layout (d : Dimensions.t) (g : GridSize.t)
    : outcome (Z * Z * Z) :=
  let min_dimension := Z.min (Dimensions.width d) (Dimensions.height d) in
  cell ← floordiv min_dimension (GridSize.size g);
  Returns (cell,
           (Dimensions.width d - GridSize.size g * cell) / 2,
           (Dimensions.height d - GridSize.size g * cell) / 2).

(** [dimensions or Dimensions(600, 600)]: a [Dimensions] object is truthy.
    The grid is always [GridSize()]; the fonts are left to pygame. *)
Definition __init__ (dimensions : option Dimensions.t) : outcome t :=
  d ← match dimensions with
      | Some d => Returns d
      | None => lift (Dimensions.__init__ 600 600)
      end;
  g ← lift GridSize.default;
  layout ← _calculate_grid_layout d g;
  Returns (mk d g layout.1.1 layout.1.2 layout.2).

Definition clear_screen (self : t) (screen : list drawing) : list drawing :=
  screen ++ [Fill BLACK].

(** [range(1, n)] *)
Definition range_from_1 (n : Z) : list Z := map (fun i => i + 1) (range (n - 1)).

Definition draw_grid (self : t) (screen : list drawing) : list drawing :=
  let n := GridSize.size (grid_size self) in
  screen
  ++ map (fun i =>
            let x := grid_offset_x self + i * cell_size self in
            Line WHITE (x, grid_offset_y self)
              (x, grid_offset_y self + n * cell_size self) 3)
       (range_from_1 n)
  ++ map (fun i =>
            let y := grid_offset_y self + i * cell_size self in
            Line WHITE (grid_offset_x self, y)
              (grid_offset_x self + n * cell_size self, y) 3)
       (range_from_1 n)
  ++ [Rect WHITE (grid_offset_x self) (grid_offset_y self)
        (n * cell_size self) (n * cell_size self) 3].

Definition draw_x (self : t) (screen : list drawing)
    (coordinate : GridCoordinate.t) : list drawing :=
  let x := grid_offset_x self + GridCoordinate.col coordinate * cell_size self in
  let y := grid_offset_y self + GridCoordinate.row coordinate * cell_size self in
  let margin := cell_size self / 6 in
  screen
  ++ [Line RED (x + margin, y + margin)
        (x + cell_size self - margin, y + cell_size self - margin) 5;
      Line RED (x + cell_size self - margin, y + margin)
        (x + margin, y + cell_size self - margin) 5].

Definition draw_o (self : t) (screen : list drawing)
    (coordinate : GridCoordinate.t) : list drawing :=
  let x := grid_offset_x self + GridCoordinate.col coordinate * cell_size self in
  let y := grid_offset_y self + GridCoordinate.row coordinate * cell_size self in
  let center_x := x + cell_size self / 2 in
  let center_y := y + cell_size self / 2 in
  let radius := cell_size self / 3 in
  screen ++ [Circle BLUE (center_x, center_y) radius 5].

Definition draw_symbol (self : t) (screen : list drawing)
    (coordinate : GridCoordinate.t) (player : Player) : list drawing :=
  if bool_decide (player = X) then draw_x self screen coordinate
  else if bool_decide (player = O) then draw_o self screen coordinate
  else screen.

(** [color] is [None] when the caller leaves it out. *)
Definition draw_status_message (self : t) (screen : list drawing)
    (message : string) (color : option (Z * Z * Z)) : list drawing :=
  let color := match color with Some c => c | None => GREEN end in
  screen ++ [Text 36 message color (Dimensions.width (dimensions self) / 2, 50)].

Definition draw_instructions (self : t) (screen : list drawing)
    (instructions : string) : list drawing :=
  screen ++ [Text 24 instructions WHITE
               (Dimensions.width (dimensions self) / 2,
                Dimensions.height (dimensions self) - 30)].

Definition screen_to_grid_coordinates (self : t) (position : ScreenPosition.t)
    : outcome GridCoordinate.t :=
  grid_col ← floordiv (ScreenPosition.x position - grid_offset_x self) (cell_size self);
  grid_row ← floordiv (ScreenPosition.y position - grid_offset_y self) (cell_size self);
  lift (GridCoordinate.__init__ grid_row grid_col).

Definition is_click_in_grid (self : t) (position : ScreenPosition.t)
    : outcome bool :=
  coordinate ← screen_to_grid_coordinates self position;
  Returns (GridSize.is_valid_coordinate (grid_size self) coordinate).

End GameRenderer.

(** ** ui/input_handler.py: the events handed to the controller *)

Inductive InputEvent : Type := QUIT | RESTART | MOUSE_CLICK | UNKNOWN.

#[global] Instance InputEvent_eq_dec : EqDecision InputEvent.
Proof. solve_decision. Defined.

Module InputData.

(** The only values the handler stores in [data] are positions. *)
Record t : Type := mk {
  event_type : InputEvent;
  data : gmap string ScreenPosition.t
}.

(** [data or {}]: an empty dictionary is falsy and is replaced by an empty
    dictionary. *)
Definition __init__ (event_type : InputEvent)
    (data : option (gmap string ScreenPosition.t)) : t :=
  mk event_type (default ∅ data).

End InputData.

(** What pygame hands over: the events of its queue, by type, with the
    attributes the handler reads.  Of the keys only escape and R are told
    apart. *)
Inductive pygame_key : Type := K_ESCAPE | K_r | K_other (code : Z).

Inductive pygame_event : Type :=
| PG_QUIT
| KEYDOWN (key : pygame_key)
| MOUSEBUTTONDOWN (button : Z) (pos : Z * Z)
| PG_OTHER.

Module InputHandler.

(** [process_events], on the events [pygame.event.get()] returned. *)
Definition process_events (queue : list pygame_event) : result (list InputData.t) :=
  foldl (fun acc event =>
     input_events ← acc;
     match event with
     | PG_QUIT => Ok (input_events ++ [InputData.__init__ QUIT None])
     | KEYDOWN key =>
         match key with
         | K_ESCAPE => Ok (input_events ++ [InputData.__init__ QUIT None])
         | K_r => Ok (input_events ++ [InputData.__init__ RESTART None])
         | K_other _ => Ok input_events
         end
     | MOUSEBUTTONDOWN button pos =>
         if bool_decide (button = 1)
         then
           position ← ScreenPosition.__init__ pos.1 pos.2;
           Ok (input_events
               ++ [InputData.__init__ MOUSE_CLICK (Some {["position" := position]})])
         else Ok input_events
     | PG_OTHER => Ok input_events
     end)
    (Ok []) queue.

End InputHandler.

(** ** services/game_analytics_service.py

    The service reads the game state it was built with.  The two methods
    that compute floating-point ratios are left out. *)

Module GameAnalyticsService.

Definition _create_base_metrics (s : GameState.t) : gmap string Z :=
  <["o_moves" := 0]> (<["x_moves" := 0]>
    (<["total_moves" := Z.of_nat (length (GameState.move_history s))]> ∅)).

(** [metrics[key] += 1] *)
Definition increment (metrics : gmap string Z) (key : string)
    : outcome (gmap string Z) :=
  v ← dict_getitem metrics key;
  Returns (<[key := v + 1]> metrics).

Definition _add_move_metrics (s : GameState.t) (metrics : gmap string Z)
    : outcome (gmap string Z) :=
  foldl (fun acc move =>
           metrics ← acc;
           if bool_decide (Move.player move = X)
           then increment metrics "x_moves"
           else increment metrics "o_moves")
        (Returns metrics) (GameState.move_history s).

Definition _add_player_metrics (s : GameState.t) (metrics : gmap string Z)
    : outcome (gmap string Z) :=
  let metrics :=
    <["game_duration" := Z.of_nat (length (GameState.move_history s))]> metrics in
  total ← dict_getitem metrics "total_moves";
  Returns (<["empty_squares" := 9 - total]> metrics).

Definition calculate_game_metrics (s : GameState.t) : outcome (gmap string Z) :=
  let metrics := _create_base_metrics s in
  metrics ← _add_move_metrics s metrics;
  _add_player_metrics s metrics.

Definition _determine_winning_pattern : string :=
  "Three in a line (row, column, or diagonal)".

Definition analyze_winning_pattern (s : GameState.t) : string :=
  if bool_decide (GameState.status s = X_WINS) then _determine_winning_pattern
  else if bool_decide (GameState.status s = O_WINS) then _determine_winning_pattern
  else "No winning pattern (game not won)".

(** [record_game_result] is [pass]. *)
Definition record_game_result (status : GameStatus) : unit := tt.

End GameAnalyticsService.

(** ** controllers/game_controller.py

    The controller owns the service, whose game state is the one object the
    analytics service and the move executor also hold, a renderer and the
    [running] flag.  The window, the clock and the event queue are
    pygame's. *)

Module GameController.

Record t : Type := mk {
  running : bool;
  renderer : GameRenderer.t;
  game_state : GameState.t
}.

Definition M (A : Type) : Type := t -> outcome A * t.

#[global] Instance M_ret : MRet M := fun A a s => (Returns a, s).

#[global] Instance M_bind : MBind M := fun A B k m s =>
  match m s with
  | (Returns a, s') => k a s'
  | (Throws e, s') => (Throws e, s')
  end.

(** [__init__] builds the service, whose game is on the default grid, and
    the renderer, and starts the first game. *)
Definition __init__ (dimensions : option Dimensions.t) : outcome t :=
  d ← match dimensions with
      | Some d => Returns d
      | None => lift (Dimensions.__init__ 600 600)
      end;
  g ← lift GameService.__init__;
  r ← GameRenderer.__init__ (Some d);
  g ← lift (GameService.start_new_game g).1;
  Returns (mk true r g).

(** A method of the service, called on the game state of the controller. *)
Definition service {A} (m : GameState.M A) : M A := fun s =>
  let '(r, g) := m (game_state s) in
  (lift r, mk (running s) (renderer s) g).

(** A method of the renderer that does not draw. *)
Definition ask {A} (f : GameRenderer.t -> outcome A) : M A := fun s =>
  (f (renderer s), s).

Definition set_running (b : bool) : M unit := fun s =>
  (Returns tt, mk b (renderer s) (game_state s)).

Definition _handle_restart : M unit :=
  can ← service GameService.can_restart;
  if can : bool then service GameService.start_new_game;; mret tt
  else mret tt.

Definition _handle_mouse_click (position : ScreenPosition.t) : M unit :=
  in_grid ← ask (fun r => GameRenderer.is_click_in_grid r position);
  if negb in_grid then mret tt
  else
    coordinate ← ask (fun r => GameRenderer.screen_to_grid_coordinates r position);
    result ← service (GameService.make_move coordinate);
    if result.1 : bool
    then
      over ← service GameService.is_game_over;
      if over : bool
      then
        status ← service GameService.get_game_status;
        mret (GameAnalyticsService.record_game_result status)
      else mret tt
    else mret tt.

Definition _handle_event (input_event : InputData.t) : M unit :=
  if bool_decide (InputData.event_type input_event = QUIT) then set_running false
  else if bool_decide (InputData.event_type input_event = RESTART)
  then _handle_restart
  else if bool_decide (InputData.event_type input_event = MOUSE_CLICK)
  then
    position ← (fun s => (dict_getitem (InputData.data input_event) "position", s));
    _handle_mouse_click position
  else mret tt.

(** [_handle_input], given the events the input handler collected. *)
Fixpoint _handle_events (input_events : list InputData.t) : M unit :=
  match input_events with
  | [] => mret tt
  | input_event :: rest => _handle_event input_event;; _handle_events rest
  end.

Definition _get_status_color : M (Z * Z * Z) :=
  status ← service GameService.get_game_status;
  if bool_decide (status = X_WINS) then mret GameRenderer.RED
  else if bool_decide (status = O_WINS) then mret GameRenderer.BLUE
  else if bool_decide (status = TIE) then mret GameRenderer.WHITE
  else mret GameRenderer.GREEN.

(** The two loops of [_render] that draw the symbols of the board. *)
Definition _render_symbols (r : GameRenderer.t) (g : GameState.t)
    (screen : list drawing) : outcome (list drawing) :=
  foldl (fun acc row =>
     foldl (fun acc col =>
        screen ← acc;
        coordinate ← lift (GridCoordinate.__init__ row col);
        player ← lift (GameState.get_cell coordinate g).1;
        if bool_decide (player <> NONE)
        then Returns (GameRenderer.draw_symbol r screen coordinate player)
        else Returns screen)
       acc (range (GridSize.size (GameState.grid_size g))))
    (Returns screen) (range (GridSize.size (GameState.grid_size g))).

Definition _render (screen : list drawing) : M (list drawing) :=
  r ← ask Returns;
  let screen := GameRenderer.clear_screen r screen in
  let screen := GameRenderer.draw_grid r screen in
  screen ← (fun s => (_render_symbols r (game_state s) screen, s));
  status_message ← service GameServiceStatus.get_status_message;
  message_color ← _get_status_color;
  let screen := GameRenderer.draw_status_message r screen status_message
                  (Some message_color) in
  over ← service GameService.is_game_over;
  let instructions :=
    if over : bool then "Press R to restart or ESC to exit"
    else "Click to place symbol - Press ESC to exit" in
  mret (GameRenderer.draw_instructions r screen instructions).

Definition _handle_input (queue : list pygame_event) : M unit :=
  input_events ← (fun s => (lift (InputHandler.process_events queue), s));
  _handle_events input_events.

(** [_update] is [pass]. *)
Definition _update : M unit := mret tt.

(** [_cleanup] starts by calling [get_statistics] on the analytics
    service, a method the class does not have. *)
Definition _cleanup : M unit := fun s =>
  (Throws (AttributeError "get_statistics"), s).

(** [run], given the events of the queue at each turn of the loop.  When
    the list is used up with the flag still set, the loop is still waiting
    for input and the screen so far is returned. *)
Fixpoint run (frames : list (list pygame_event)) (screen : list drawing)
    : M (list drawing) := fun s =>
  if running s
  then
    match frames with
    | [] => (Returns screen, s)
    | queue :: frames =>
        (_handle_input queue;;
         _update;;
         screen ← _render screen;
         run frames screen) s
    end
  else (_cleanup;; mret screen) s.

End GameController.

(** What the handlers of the controller read and write besides the
    [running] flag. *)
Definition view (ctl : GameController.t) : GameRenderer.t * GameState.t :=
  (GameController.renderer ctl, GameController.game_state ctl).

Definition respects_view {A} (m : GameController.M A) : Prop :=
  forall c1 c2, view c1 = view c2 ->
    (m c1).1 = (m c2).1 /\ view (m c1).2 = view (m c2).2.

Definition keeps_running {A} (m : GameController.M A) : Prop :=
  forall ctl, GameController.running (m ctl).2 = GameController.running ctl.

Definition is_quit (e : InputData.t) : bool :=
  bool_decide (InputData.event_type e = QUIT).

(** The renderer of the 600 by 600 window. *)
Definition renderer600 : GameRenderer.t :=
  GameRenderer.mk (Dimensions.mk 600 600) (GridSize.mk 3) 200 0 0.

Definition click (x y : Z) : InputData.t :=
  InputData.__init__ MOUSE_CLICK (Some {["position" := ScreenPosition.mk x y]}).

(** An event as the input handler builds it: a click carries the position of
    the mouse, which lies at or beyond the origin of the grid of [r]. *)
Definition well_formed (r : GameRenderer.t) (e : InputData.t) : Prop :=
  InputData.event_type e = MOUSE_CLICK ->
  exists p, InputData.data e !! "position" = Some p /\
            GameRenderer.grid_offset_x r <= ScreenPosition.x p /\
            GameRenderer.grid_offset_y r <= ScreenPosition.y p.

(** The drawings of the marks of a board, row by row and cell by cell. *)
Definition board_symbols (r : GameRenderer.t) (b : matrix) : list drawing :=
  concat (imap (fun i row =>
    concat (imap (fun j p =>
      GameRenderer.draw_symbol r [] (GridCoordinate.mk (Z.of_nat i) (Z.of_nat j)) p)
      row)) b).

(** The pygame events that the handler turns into a QUIT event. *)
Definition quits (event : pygame_event) : bool :=
  match event with
  | PG_QUIT | KEYDOWN K_ESCAPE => true
  | _ => false
  end.

(** A left click is reported at a position of the window that is not left
    of or above the grid of [r]. *)
Definition click_in_window (r : GameRenderer.t) (event : pygame_event) : Prop :=
  match event with
  | MOUSEBUTTONDOWN 1 (x, y) =>
      0 <= x /\ 0 <= y /\
      GameRenderer.grid_offset_x r <= x /\ GameRenderer.grid_offset_y r <= y
  | _ => True
  end.

(** ** Where a drawing lies *)

(** The end points of a stroke, and the bounding square of a circle, lie in
    the rectangle from [(left, top)] to [(right, bottom)]. *)
Definition lies_within (left top right bottom : Z) (d : drawing) : Prop :=
  match d with
  | Line _ (x1, y1) (x2, y2) _ =>
      left <= x1 <= right /\ top <= y1 <= bottom /\
      left <= x2 <= right /\ top <= y2 <= bottom
  | Circle _ (x, y) radius _ =>
      0 <= radius /\
      left <= x - radius /\ x + radius <= right /\
      top <= y - radius /\ y + radius <= bottom
  | _ => True
  end.

(** * Lemmas *)

(** ** Python lists *)

Section python_lists.
Context {A : Type}.
Implicit Types (l : list A) (i : Z).

Lemma py_position_nonneg (len : nat) i :
  0 <= i < Z.of_nat len -> py_position len i = Some (Z.to_nat i).
Proof.
  intros Hi. unfold py_position.
  destruct (Z.ltb_spec i 0); [lia|].
  destruct (Z.leb_spec 0 i); [|lia].
  destruct (Z.ltb_spec i (Z.of_nat len)); [done|lia].
Qed.

Lemma py_position_beyond (len : nat) i :
  Z.of_nat len <= i -> py_position len i = None.
Proof.
  intros Hi. unfold py_position.
  destruct (Z.ltb_spec i 0); [lia|].
  destruct (Z.ltb_spec i (Z.of_nat len)); [lia|].
  by rewrite andb_false_r.
Qed.

Lemma py_getitem_nonneg l i :
  0 <= i ->
  py_getitem l i = from_option Ok (Raise IndexError) (l !! Z.to_nat i).
Proof.
  intros Hi. unfold py_getitem.
  destruct (Z.lt_ge_cases i (Z.of_nat (length l))) as [Hlt|Hge].
  - rewrite py_position_nonneg by lia. by destruct (l !! Z.to_nat i).
  - rewrite py_position_beyond by done.
    rewrite (lookup_ge_None_2 l) by lia. done.
Qed.

Lemma py_setitem_in_range l i x :
  0 <= i < Z.of_nat (length l) ->
  py_setitem l i x = Ok (<[Z.to_nat i := x]> l).
Proof. intros Hi. unfold py_setitem. by rewrite py_position_nonneg. Qed.

Lemma py_setitem_beyond l i x :
  Z.of_nat (length l) <= i -> py_setitem l i x = Raise IndexError.
Proof. intros Hi. unfold py_setitem. by rewrite py_position_beyond. Qed.

End python_lists.

Lemma elem_of_range n i : i ∈ range n <-> 0 <= i < n.
Proof.
  unfold range. rewrite list_elem_of_fmap. split.
  - intros (k & -> & Hk). apply elem_of_seq in Hk. lia.
  - intros Hi. exists (Z.to_nat i). split; [lia|]. apply elem_of_seq. lia.
Qed.

Lemma length_range n : length (range n) = Z.to_nat n.
Proof. unfold range. by rewrite length_map, length_seq. Qed.

Lemma cell_at_nonneg b r c :
  0 <= r -> 0 <= c ->
  cell_at b r c =
    from_option Ok (Raise IndexError) (b !! Z.to_nat r ≫= (.!! Z.to_nat c)).
Proof.
  intros Hr Hc. unfold cell_at. rewrite py_getitem_nonneg by done.
  unfold_monad. destruct (b !! Z.to_nat r) as [l|]; simpl; [|done].
  by rewrite py_getitem_nonneg.
Qed.

(** Square boards *)

Lemma is_square_lookup n b r c :
  is_square n b -> 0 <= r < n -> 0 <= c < n ->
  exists l p, b !! Z.to_nat r = Some l /\ l !! Z.to_nat c = Some p
              /\ length l = Z.to_nat n.
Proof.
  intros [Hlen Hrows] Hr Hc.
  destruct (lookup_lt_is_Some_2 b (Z.to_nat r)) as [l Hl]; [lia|].
  pose proof (Forall_lookup_1 _ _ _ _ Hrows Hl) as Hll. simpl in Hll.
  destruct (lookup_lt_is_Some_2 l (Z.to_nat c)) as [p Hp]; [lia|].
  by exists l, p.
Qed.

Lemma cell_at_square n b r c :
  is_square n b -> 0 <= r < n -> 0 <= c < n -> exists p, cell_at b r c = Ok p.
Proof.
  intros Hsq Hr Hc.
  destruct (is_square_lookup n b r c) as (l & p & Hl & Hp & _); [done..|].
  exists p. rewrite cell_at_nonneg by lia. by rewrite Hl; simpl; rewrite Hp.
Qed.

Lemma is_square_empty g :
  is_square (GridSize.size g) (GameBoard._create_empty_board g).
Proof.
  unfold is_square, GameBoard._create_empty_board. split.
  - by rewrite length_map, length_range.
  - apply Forall_fmap, Forall_forall. intros ? _. simpl.
    by rewrite length_map, length_range.
Qed.

Lemma all_empty_empty g : all_empty (GameBoard._create_empty_board g).
Proof.
  unfold all_empty, GameBoard._create_empty_board.
  apply Forall_fmap, Forall_forall. intros ? _. simpl.
  apply Forall_fmap, Forall_forall. by intros ? _.
Qed.

Lemma occupied_all_empty b : all_empty b -> occupied b = 0%nat.
Proof.
  unfold all_empty, occupied. induction 1 as [|l b Hl _ IH]; [done|].
  simpl. rewrite IH.
  assert (filter (fun p => p <> NONE) l = []) as ->; [|done].
  induction Hl as [|p l -> _ IHl]; [done|].
  rewrite filter_cons_False by (intros ?; done). done.
Qed.

(** Placing a mark *)

Lemma occupied_insert_row (l : list Player) j p :
  l !! j = Some NONE -> p <> NONE ->
  length (filter (fun q => q <> NONE) (<[j:=p]> l))
  = S (length (filter (fun q => q <> NONE) l)).
Proof.
  revert j. induction l as [|q l IH]; intros [|j] Hj Hp; simplify_eq/=.
  - rewrite filter_cons_True by done.
    rewrite (filter_cons_False _ NONE) by (intros ?; done). done.
  - destruct (decide (q <> NONE)).
    + rewrite !filter_cons_True by done. simpl. by rewrite IH.
    + rewrite !filter_cons_False by done. by rewrite IH.
Qed.

Lemma occupied_insert (b : matrix) i l l' :
  b !! i = Some l ->
  length (filter (fun q => q <> NONE) l')
  = S (length (filter (fun q => q <> NONE) l)) ->
  occupied (<[i:=l']> b) = S (occupied b).
Proof.
  unfold occupied. revert i. induction b as [|k b IH]; intros [|i] Hi Hl; simplify_eq/=.
  - lia.
  - rewrite (IH i) by done. lia.
Qed.

Lemma is_square_insert n (b : matrix) i l j p :
  is_square n b -> b !! i = Some l -> is_square n (<[i:=<[j:=p]> l]> b).
Proof.
  intros [Hlen Hrows] Hl. split.
  - by rewrite length_insert.
  - apply Forall_insert; [done|]. rewrite length_insert.
    by apply (Forall_lookup_1 _ _ _ _ Hrows Hl).
Qed.

Lemma place_move_square n g b c p :
  is_square n b -> in_bounds n c ->
  exists l,
    b !! Z.to_nat (GridCoordinate.row c) = Some l /\
    GameBoard.place_move (GameBoard.mk g b) c p
    = Ok (GameBoard.mk g
            (<[Z.to_nat (GridCoordinate.row c) :=
                 <[Z.to_nat (GridCoordinate.col c) := p]> l]> b)).
Proof.
  intros Hsq [Hr Hc].
  destruct (is_square_lookup n b _ _ Hsq Hr Hc) as (l & q & Hl & Hq & Hlen).
  exists l. split; [done|]. unfold GameBoard.place_move. simpl.
  rewrite py_getitem_nonneg by lia. rewrite Hl. unfold_monad. simpl.
  rewrite py_setitem_in_range by lia.
  rewrite py_setitem_in_range by (destruct Hsq; lia). done.
Qed.

Lemma cell_at_insert (b : matrix) i j l p r c :
  b !! i = Some l -> (j < length l)%nat -> 0 <= r -> 0 <= c ->
  cell_at (<[i:=<[j:=p]> l]> b) r c =
    if decide (Z.to_nat r = i /\ Z.to_nat c = j) then Ok p else cell_at b r c.
Proof.
  intros Hl Hj Hr Hc. rewrite !cell_at_nonneg by done.
  destruct (decide (Z.to_nat r = i)) as [->|Hne].
  - rewrite list_lookup_insert_eq by (by eapply lookup_lt_Some). rewrite Hl. simpl.
    destruct (decide (Z.to_nat c = j)) as [->|Hne].
    + rewrite list_lookup_insert_eq by done. by rewrite decide_True.
    + rewrite list_lookup_insert_ne by done. rewrite decide_False by tauto. done.
  - rewrite list_lookup_insert_ne by done. rewrite decide_False by tauto. done.
Qed.

(** Loops *)

Section loops.
Context {A B : Type}.
Implicit Types (xs : list A) (cond : A -> result bool) (value : A -> result B).

Lemma for_return_pure xs cond value (f : A -> bool) (v : B) :
  (forall x, x ∈ xs -> cond x = Ok (f x)) ->
  (forall x, x ∈ xs -> value x = Ok v) ->
  for_return xs cond value = Ok (if existsb f xs then Some v else None).
Proof.
  induction xs as [|x xs IH]; intros Hc Hv; [done|]. simpl.
  rewrite (Hc x) by left. unfold_monad. destruct (f x); simpl.
  - by rewrite (Hv x) by left.
  - apply IH; intros; [apply Hc|apply Hv]; by right.
Qed.

Lemma for_return_ok xs cond value :
  (forall x, x ∈ xs -> is_ok (cond x)) ->
  (forall x, x ∈ xs -> is_ok (value x)) ->
  is_ok (for_return xs cond value).
Proof.
  induction xs as [|x xs IH]; intros Hc Hv; [done|]. simpl.
  pose proof (Hc x ltac:(left)) as Hcx. pose proof (Hv x ltac:(left)) as Hvx.
  unfold_monad. destruct (cond x) as [[]|]; try done.
  - by destruct (value x).
  - apply IH; intros; [apply Hc|apply Hv]; by right.
Qed.

Lemma for_return_None xs cond value :
  for_return xs cond value = Ok None ->
  forall x, x ∈ xs -> cond x = Ok false.
Proof.
  induction xs as [|x xs IH]; intros Hf y Hy; [by apply elem_of_nil in Hy|].
  simpl in Hf. unfold_monad.
  destruct (cond x) as [[]|] eqn:Hx; try done.
  - by destruct (value x).
  - apply elem_of_cons in Hy as [->|Hy]; [done|by apply IH].
Qed.

Lemma for_return_Some xs cond value v :
  for_return xs cond value = Ok (Some v) ->
  exists x, x ∈ xs /\ cond x = Ok true /\ value x = Ok v.
Proof.
  induction xs as [|x xs IH]; intros Hf; [done|].
  simpl in Hf. unfold_monad.
  destruct (cond x) as [[]|] eqn:Hx; try done.
  - destruct (value x) eqn:Hv; simplify_eq. exists x. split; [left|done].
  - destruct (IH Hf) as (y & Hy & ?). exists y. split; [by right|done].
Qed.

End loops.

Lemma is_ok_Ok {A} (r : result A) : is_ok r -> exists a, r = Ok a.
Proof. destruct r; [eauto|done]. Qed.

(** The validator *)

Lemma has_empty_cell_in_row_square v b row :
  is_square (GridSize.size (BoardValidator.grid_size v)) b ->
  row ∈ range (GridSize.size (BoardValidator.grid_size v)) ->
  BoardValidator._has_empty_cell_in_row v b row
  = Ok (existsb (fun col => bool_decide (cell_at b row col = Ok NONE))
          (range (GridSize.size (BoardValidator.grid_size v)))).
Proof.
  intros Hsq Hrow%elem_of_range. unfold BoardValidator._has_empty_cell_in_row.
  erewrite for_return_pure with (v := true)
    (f := fun col => bool_decide (cell_at b row col = Ok NONE)); [| |done].
  - unfold_monad. by destruct (existsb _ _).
  - intros col Hcol%elem_of_range. simpl.
    destruct (cell_at_square _ _ row col Hsq) as [p Hp]; [done..|].
    rewrite Hp. unfold_monad. f_equal. apply bool_decide_ext.
    split; [by intros ->|by intros [= ->]].
Qed.

Lemma is_board_full_square v b :
  is_square (GridSize.size (BoardValidator.grid_size v)) b ->
  BoardValidator.is_board_full v b = Ok (bool_decide (no_empty_cell b)).
Proof.
  intros Hsq. unfold BoardValidator.is_board_full.
  set (n := GridSize.size (BoardValidator.grid_size v)) in *.
  erewrite for_return_pure with (v := false)
    (f := fun row => existsb (fun col => bool_decide (cell_at b row col = Ok NONE)) (range n));
    [| |done].
  2:{ intros row Hrow. by apply has_empty_cell_in_row_square. }
  unfold_monad. f_equal.
  destruct (existsb _ _) eqn:Hex; simpl; symmetry.
  - apply bool_decide_eq_false. intros Hfull.
    apply existsb_exists in Hex as (row & Hrow & Hex).
    apply existsb_exists in Hex as (col & Hcol & Hex).
    apply bool_decide_eq_true in Hex.
    apply list_elem_of_In, elem_of_range in Hrow, Hcol.
    destruct (is_square_lookup n b row col) as (l & p & Hl & Hp & _); [done..|].
    rewrite cell_at_nonneg in Hex by lia. rewrite Hl in Hex; simpl in Hex.
    rewrite Hp in Hex. simplify_eq/=.
    pose proof (Forall_lookup_1 _ _ _ _ Hfull Hl) as Hrowfull.
    by pose proof (Forall_lookup_1 _ _ _ _ Hrowfull Hp).
  - apply bool_decide_eq_true. apply Forall_lookup_2. intros i l Hl.
    apply Forall_lookup_2. intros j p Hp Hnone. subst p.
    destruct Hsq as [Hlen Hrows].
    pose proof (Forall_lookup_1 _ _ _ _ Hrows Hl) as Hll. simpl in Hll.
    apply lookup_lt_Some in Hl as Hi. apply lookup_lt_Some in Hp as Hj.
    apply not_true_iff_false in Hex. apply Hex.
    apply existsb_exists. exists (Z.of_nat i). split.
    { apply list_elem_of_In, elem_of_range. lia. }
    apply existsb_exists. exists (Z.of_nat j). split.
    { apply list_elem_of_In, elem_of_range. lia. }
    apply bool_decide_eq_true. rewrite cell_at_nonneg by lia.
    rewrite !Nat2Z.id, Hl. simpl. by rewrite Hp.
Qed.

Lemma is_cell_empty_square v b c :
  is_square (GridSize.size (BoardValidator.grid_size v)) b ->
  BoardValidator.is_cell_empty v b c
  = Ok (bool_decide (in_bounds (GridSize.size (BoardValidator.grid_size v)) c
                     /\ cell_at b (GridCoordinate.row c) (GridCoordinate.col c) = Ok NONE)).
Proof.
  intros Hsq. unfold BoardValidator.is_cell_empty, BoardValidator.is_valid_position,
    GridSize.is_valid_coordinate, GridCoordinate.is_valid_for_grid, in_bounds.
  set (n := GridSize.size _) in *.
  destruct (Z.leb_spec 0 (GridCoordinate.row c)); simpl;
    [|rewrite bool_decide_false by lia; done].
  destruct (Z.ltb_spec (GridCoordinate.row c) n); simpl;
    [|rewrite bool_decide_false by lia; done].
  destruct (Z.leb_spec 0 (GridCoordinate.col c)); simpl;
    [|rewrite bool_decide_false by lia; done].
  destruct (Z.ltb_spec (GridCoordinate.col c) n); simpl;
    [|rewrite bool_decide_false by lia; done].
  destruct (cell_at_square n b (GridCoordinate.row c) (GridCoordinate.col c))
    as [p Hp]; [done|lia|lia|].
  rewrite Hp. unfold_monad. f_equal. apply bool_decide_ext.
  split; [intros ->; repeat split; (lia || done)|by intros [_ [= ->]]].
Qed.

(** ** The game state *)

Import GameState.


Lemma is_valid_move_unfold c s :
  is_valid_move c s =
    (if bool_decide (status s = IN_PROGRESS)
     then BoardValidator.is_cell_empty (validator s) (matrix_of s) c
     else Ok false, s).
Proof.
  unfold is_valid_move, _is_game_in_progress. unfold_monad.
  by destruct (bool_decide _).
Qed.

Lemma execute_move_unfold c s :
  execute_move c s =
    match (is_valid_move c s).1 with
    | Raise e => (Raise e, s)
    | Ok false => (Ok false, s)
    | Ok true =>
        match GameBoard.place_move (board s) c (current_player s) with
        | Raise e => (Raise e, s)
        | Ok b =>
            let s1 := placed c b s in
            match WinChecker.check_for_winner (win_checker s) (GameBoard.board b) with
            | Raise e => (Raise e, s1)
            | Ok (Some p) =>
                (Ok true, set_status (if bool_decide (p = X) then X_WINS else O_WINS)
                            (set_winner (Some p) s1))
            | Ok None =>
                match BoardValidator.is_board_full (validator s) (GameBoard.board b) with
                | Raise e => (Raise e, s1)
                | Ok true => (Ok true, set_status TIE s1)
                | Ok false =>
                    (Ok true,
                     set_current_player
                       (if bool_decide (current_player s = X) then O else X) s1)
                end
            end
        end
    end.
Proof.
  unfold execute_move.
  unfold _place_current_player_move, _check_for_game_completion,
    _switch_to_next_player_if_game_continues, _set_winner_and_end_game,
    _set_tie_game, _switch_current_player, _is_game_in_progress.
  unfold_monad. rewrite is_valid_move_unfold. simpl.
  destruct (bool_decide (status s = IN_PROGRESS)) eqn:Hst; simpl; [|done].
  destruct (BoardValidator.is_cell_empty _ _ _) as [[]|]; simpl; try done.
  destruct (GameBoard.place_move _ _ _) as [b|]; simpl; [|done].
  destruct (WinChecker.check_for_winner _ _) as [[p|]|]; simpl; try done.
  - by destruct p.
  - destruct (BoardValidator.is_board_full _ _) as [[]|]; simpl; try done.
    by rewrite Hst.
Qed.

Lemma new_game_fresh n s : new_game n = Ok s <-> 1 <= n <= 10 /\ s = fresh n.
Proof.
  unfold new_game, GridSize.__init__, GridSize._validate_grid_size.
  destruct (Z.leb_spec n 0); [unfold_monad; split; [done|lia]|].
  destruct (Z.gtb_spec n 10); [unfold_monad; split; [done|lia]|].
  unfold_monad. simpl. unfold fresh. split.
  - intros [= <-]. split; [lia|done].
  - by intros [_ ->].
Qed.

Lemma default_game_fresh : GameState.__init__ None = Ok (fresh 3).
Proof. done. Qed.

Lemma reset_to_initial_state_unfold s :
  reset_to_initial_state s = (Ok tt, reset_state s).
Proof. done. Qed.

Lemma start_new_game_unfold s :
  GameService.start_new_game s = (Ok (reset_state s), reset_state s).
Proof. done. Qed.

Lemma get_cell_state c s : (get_cell c s).2 = s.
Proof. done. Qed.

Lemma can_restart_unfold s :
  GameService.can_restart s = (Ok (bool_decide (status s <> IN_PROGRESS)), s).
Proof. done. Qed.

Lemma is_valid_move_coherent c s :
  coherent s ->
  is_valid_move c s =
    (Ok (bool_decide (status s = IN_PROGRESS /\ in_bounds (size_of s) c /\
           cell_at (matrix_of s) (GridCoordinate.row c) (GridCoordinate.col c)
           = Ok NONE)), s).
Proof.
  intros (_ & Hv & _ & _ & Hsq). rewrite is_valid_move_unfold. f_equal.
  unfold size_of in *. rewrite <- Hv in *.
  case_bool_decide as Hst.
  - rewrite is_cell_empty_square by done. f_equal. apply bool_decide_ext. tauto.
  - rewrite bool_decide_false by tauto. done.
Qed.

Lemma attempt_move_unfold c s :
  MoveExecutor.attempt_move c s =
    if bool_decide (status s <> IN_PROGRESS)
    then (Ok (false, "Game is already finished"), s)
    else
      match (is_valid_move c s).1 with
      | Raise e => (Raise e, s)
      | Ok false => (Ok (false, "Invalid move: cell is occupied or out of bounds"), s)
      | Ok true =>
          match execute_move c s with
          | (Raise e, s') => (Raise e, s')
          | (Ok false, s') => (Ok (false, "Failed to make move"), s')
          | (Ok true, s') =>
              (Ok (true,
                   if bool_decide (status s' = IN_PROGRESS)
                   then "Move successful: " +:+ Player_name (current_player s')
                   else "Move successful: Game ended"), s')
          end
      end.
Proof.
  unfold MoveExecutor.attempt_move, MoveExecutor._is_game_already_finished,
    MoveExecutor._is_move_valid, MoveExecutor._execute_valid_move,
    MoveExecutor._create_success_message.
  unfold_monad. simpl.
  destruct (bool_decide (status s <> IN_PROGRESS)); [done|].
  rewrite is_valid_move_unfold. simpl.
  destruct (if bool_decide (status s = IN_PROGRESS) then _ else _) as [[]|];
    simpl; try done.
  destruct (execute_move c s) as [[[]|] s']; simpl; try done.
  by destruct (bool_decide (status s' = IN_PROGRESS)).
Qed.

Lemma attempt_move_state c s :
  (MoveExecutor.attempt_move c s).2 = (execute_move c s).2.
Proof.
  rewrite attempt_move_unfold, (execute_move_unfold c s).
  rewrite is_valid_move_unfold. simpl.
  case_bool_decide as Hst.
  - rewrite bool_decide_false by done. done.
  - destruct (bool_decide (status s = IN_PROGRESS)); [|done].
    destruct (BoardValidator.is_cell_empty _ _ _) as [[]|]; try done.
    by repeat case_match.
Qed.

Lemma attempt_move_accepted c s :
  accepted (op_attempt_move c) s = accepted (op_execute_move c) s.
Proof.
  simpl. rewrite attempt_move_unfold, (execute_move_unfold c s).
  rewrite is_valid_move_unfold. simpl.
  case_bool_decide as Hst.
  - rewrite bool_decide_false by done. done.
  - destruct (bool_decide (status s = IN_PROGRESS)); [|done].
    destruct (BoardValidator.is_cell_empty _ _ _) as [[]|]; try done.
    destruct (GameBoard.place_move _ _ _); simpl; [|done].
    destruct (WinChecker.check_for_winner _ _) as [[]|]; simpl; try done.
    by destruct (BoardValidator.is_board_full _ _) as [[]|].
Qed.

Lemma place_move_spec n (gb : GameBoard.t) c p :
  is_square n (GameBoard.board gb) -> in_bounds n c ->
  cell_at (GameBoard.board gb) (GridCoordinate.row c) (GridCoordinate.col c) = Ok NONE ->
  exists b',
    GameBoard.place_move gb c p = Ok (GameBoard.mk (GameBoard.grid_size gb) b') /\
    is_square n b' /\
    cell_at b' (GridCoordinate.row c) (GridCoordinate.col c) = Ok p /\
    (forall r' c', 0 <= r' -> 0 <= c' ->
       (r', c') <> (GridCoordinate.row c, GridCoordinate.col c) ->
       cell_at b' r' c' = cell_at (GameBoard.board gb) r' c') /\
    (p <> NONE -> occupied b' = S (occupied (GameBoard.board gb))).
Proof.
  destruct gb as [g b]. simpl. intros Hsq Hin Hnone.
  destruct (place_move_square n g b c p Hsq Hin) as (l & Hl & Hplace).
  destruct Hin as [Hr Hc].
  destruct (is_square_lookup n b _ _ Hsq Hr Hc) as (l' & q & Hl' & Hq & Hlen).
  assert (l' = l) as -> by congruence.
  assert (q = NONE) as ->.
  { rewrite cell_at_nonneg in Hnone by lia. rewrite Hl in Hnone; simpl in Hnone.
    rewrite Hq in Hnone. by simplify_eq/=. }
  eexists. split; [exact Hplace|]. split; [by apply is_square_insert|].
  split; [|split].
  - rewrite cell_at_insert by (done || lia). by rewrite decide_True.
  - intros r' c' Hr' Hc' Hne. rewrite cell_at_insert by (done || lia).
    rewrite decide_False; [done|]. intros [? ?]. apply Hne. f_equal; lia.
  - intros Hp. eapply occupied_insert; [done|]. by apply occupied_insert_row.
Qed.

Lemma check_for_winner_empty n p :
  1 <= n <= 10 ->
  WinChecker.check_for_winner (WinChecker.mk (GridSize.mk n))
    (GameBoard._create_empty_board (GridSize.mk n)) <> Ok (Some p).
Proof.
  intros Hn.
  assert (n = 1 \/ n = 2 \/ n = 3 \/ n = 4 \/ n = 5 \/ n = 6 \/ n = 7 \/ n = 8
          \/ n = 9 \/ n = 10) as Hcases by lia.
  destruct_or!; subst n; by vm_compute.
Qed.

Lemma invariant_fresh n : 1 <= n <= 10 -> invariant (fresh n).
Proof.
  intros Hn. split; [|split; [|split; [|split]]]; simpl; try done.
  - split_and!; try done; try (unfold size_of; simpl; lia).
    apply (is_square_empty (GridSize.mk n)).
  - unfold matrix_of; simpl. by rewrite occupied_all_empty by apply all_empty_empty.
  - intros _ p. by apply check_for_winner_empty.
Qed.

Lemma invariant_reset s : invariant s -> invariant (reset_state s).
Proof.
  intros ((Hb & Hv & Hw & Hn & Hsq) & _).
  split; [|split; [|split; [|split]]]; simpl; try done.
  - split_and!; try done; try (unfold size_of in *; simpl; lia).
    unfold size_of, matrix_of; simpl.
    rewrite <- Hb. apply is_square_empty.
  - unfold matrix_of; simpl. by rewrite occupied_all_empty by apply all_empty_empty.
  - intros _ p. unfold matrix_of; simpl. rewrite Hb.
    destruct (win_checker s) as [g]; simpl in *; subst g.
    unfold size_of in Hn. destruct (grid_size s) as [n].
    by apply check_for_winner_empty.
Qed.

Lemma invariant_execute_move c s :
  invariant s -> invariant (execute_move c s).2.
Proof.
  intros Hinv. pose proof Hinv as (Hcoh & Hcur & Hlog & Htie & Hprog).
  rewrite execute_move_unfold, is_valid_move_coherent by done. simpl.
  case_bool_decide as Hvalid; [|done].
  destruct Hvalid as (Hst & Hin & Hnone).
  pose proof Hcoh as (Hb & Hv & Hw & Hn & Hsq).
  destruct (place_move_spec (size_of s) (board s) c (current_player s))
    as (b' & -> & Hsq' & Hcell & Hframe & Hocc); [done..|].
  simpl.
  assert (invariant (placed c (GameBoard.mk (GameBoard.grid_size (board s)) b') s)
          \/ exists p, WinChecker.check_for_winner (win_checker s) b' = Ok (Some p))
    as Hplaced.
  { destruct (WinChecker.check_for_winner (win_checker s) b') as [[p|]|] eqn:Hchk;
      [right; eauto|left..].
    all: split; [|split; [|split; [|split]]]; simpl; try done.
    all: unfold matrix_of in *; simpl.
    all: try (rewrite length_app; simpl; rewrite Hocc by done; lia).
    all: try (intros Hst'; congruence).
    all: intros _ p; congruence. }
  destruct (WinChecker.check_for_winner (win_checker s) b') as [[p|]|] eqn:Hchk.
  - split; [|split; [|split; [|split]]]; simpl; try done.
    + unfold matrix_of in *. rewrite length_app; simpl. rewrite Hocc by done. lia.
    + by destruct (bool_decide (p = X)).
    + by destruct (bool_decide (p = X)).
  - destruct Hplaced as [Hplaced|[? ?]]; [|done].
    rewrite is_board_full_square by (rewrite Hv; done).
    destruct Hplaced as (Hcoh' & Hcur' & Hlog' & _ & Hprog').
    case_bool_decide as Hfull.
    + split; [|split; [|split; [|split]]]; simpl; try done.
    + split; [|split; [|split; [|split]]]; simpl; try done.
      * by destruct (bool_decide (current_player s = X)).
      * intros Hst'. congruence.
  - by destruct Hplaced as [Hplaced|[? ?]].
Qed.

Lemma invariant_perform o s : invariant s -> invariant (perform o s).
Proof.
  intros Hinv. destruct o; unfold perform.
  - by apply invariant_execute_move.
  - rewrite attempt_move_state. by apply invariant_execute_move.
  - rewrite reset_to_initial_state_unfold. by apply invariant_reset.
  - rewrite start_new_game_unfold. by apply invariant_reset.
  - by rewrite is_valid_move_unfold.
  - done.
  - done.
Qed.

Lemma reachable_invariant s : reachable s -> invariant s.
Proof.
  induction 1 as [n s Hnew|o s _ IH].
  - apply new_game_fresh in Hnew as [Hn ->]. by apply invariant_fresh.
  - by apply invariant_perform.
Qed.

(** ** Reachable states *)

Lemma reachable_fresh n : 1 <= n <= 10 -> reachable (fresh n).
Proof. intros Hn. apply (reachable_new n). by apply new_game_fresh. Qed.

Lemma reachable_run ops s : reachable s -> reachable (run ops s).
Proof.
  revert s. induction ops as [|o ops IH]; intros s Hs; [done|].
  simpl. by apply IH, reachable_perform.
Qed.

(** ** Turns *)

Lemma execute_move_turn c s :
  match execute_move c s with
  | (Ok true, s') =>
      status s = IN_PROGRESS /\
      (status s' = IN_PROGRESS -> current_player s' = other (current_player s)) /\
      (status s' <> IN_PROGRESS -> current_player s' = current_player s)
  | (Ok false, s') => s' = s
  | (Raise _, s') =>
      status s' = status s /\ current_player s' = current_player s
  end.
Proof.
  rewrite execute_move_unfold, is_valid_move_unfold. simpl.
  case_bool_decide as Hst; [|done].
  destruct (BoardValidator.is_cell_empty _ _ _) as [[]|]; try done.
  destruct (GameBoard.place_move _ _ _) as [b|]; [|done].
  destruct (WinChecker.check_for_winner _ _) as [[p|]|]; [| |done].
  - split; [done|]. simpl. split; [|done].
    by destruct (bool_decide (p = X)).
  - by destruct (BoardValidator.is_board_full _ _) as [[]|].
Qed.

Lemma perform_terminal o s :
  status s <> IN_PROGRESS -> is_reset o = false -> perform o s = s.
Proof.
  intros Hst Ho. destruct o; try done; unfold perform.
  - rewrite execute_move_unfold, is_valid_move_unfold.
    by rewrite bool_decide_false.
  - rewrite attempt_move_state, execute_move_unfold, is_valid_move_unfold.
    by rewrite bool_decide_false.
  - by rewrite is_valid_move_unfold.
Qed.

Lemma run_terminal ops s :
  status s <> IN_PROGRESS -> forallb (fun o => negb (is_reset o)) ops = true ->
  run ops s = s.
Proof.
  intros Hst. induction ops as [|o ops IH]; [done|]. simpl.
  intros [Ho Hops]%andb_prop. apply negb_true_iff in Ho.
  rewrite perform_terminal by done. by apply IH.
Qed.

Lemma alternates_from_X_snoc l p :
  alternates_from_X l -> p = (if Nat.even (length l) then X else O) ->
  alternates_from_X (l ++ [p]).
Proof.
  intros Hl Hp i q Hi.
  destruct (decide (i < length l)%nat) as [Hlt|Hge].
  - rewrite lookup_app_l in Hi by done. by apply Hl.
  - rewrite lookup_app_r in Hi by lia.
    destruct (i - length l)%nat as [|k] eqn:Hk; [|done].
    simpl in Hi. assert (i = length l) as -> by lia. congruence.
Qed.

Lemma movers_step_execute c s acc :
  alternates_from_X acc ->
  (status s = IN_PROGRESS ->
   current_player s = if Nat.even (length acc) then X else O) ->
  let acc' := if accepted (op_execute_move c) s
              then acc ++ [current_player s] else acc in
  alternates_from_X acc' /\
  (status (execute_move c s).2 = IN_PROGRESS ->
   current_player (execute_move c s).2 = if Nat.even (length acc') then X else O).
Proof.
  intros Hacc Hcur. pose proof (execute_move_turn c s) as Hturn. simpl.
  destruct (execute_move c s) as [[[]|e] s']; simpl.
  - destruct Hturn as (Hst & Hnext & _). specialize (Hcur Hst). split.
    + by apply alternates_from_X_snoc.
    + intros Hst'. rewrite (Hnext Hst'), Hcur, length_app, Nat.add_1_r.
      rewrite Nat.even_succ, <- Nat.negb_even.
      by destruct (Nat.even (length acc)).
  - by subst s'.
  - destruct Hturn as [Hst' Hcur']. by rewrite Hst', Hcur'.
Qed.

Lemma movers_step o s acc :
  is_reset o = false ->
  alternates_from_X acc ->
  (status s = IN_PROGRESS ->
   current_player s = if Nat.even (length acc) then X else O) ->
  let acc' := if accepted o s then acc ++ [current_player s] else acc in
  alternates_from_X acc' /\
  (status (perform o s) = IN_PROGRESS ->
   current_player (perform o s) = if Nat.even (length acc') then X else O).
Proof.
  intros Ho Hacc Hcur. destruct o; try done.
  - by apply movers_step_execute.
  - rewrite attempt_move_accepted. unfold perform. rewrite attempt_move_state.
    by apply movers_step_execute.
  - simpl. by rewrite is_valid_move_unfold.
Qed.

Lemma movers_alternate ops s acc :
  alternates_from_X acc ->
  (status s = IN_PROGRESS ->
   current_player s = if Nat.even (length acc) then X else O) ->
  alternates_from_X (movers ops s acc).
Proof.
  revert s acc. induction ops as [|o ops IH]; intros s acc Hacc Hcur; [done|].
  simpl. destruct (is_reset o) eqn:Hreset.
  - apply IH; [by intros i p Hi|]. by destruct o.
  - destruct (movers_step o s acc Hreset Hacc Hcur) as [Hacc' Hcur'].
    by apply IH.
Qed.

(** ** The win checker *)

Lemma is_square_3_shape b :
  is_square 3 b -> exists a1 a2 a3 b1 b2 b3 c1 c2 c3,
    b = board3 a1 a2 a3 b1 b2 b3 c1 c2 c3.
Proof.
  intros [Hlen Hrows].
  destruct b as [|[|a1 [|a2 [|a3 [|]]]] [|[|b1 [|b2 [|b3 [|]]]] [|[|c1 [|c2 [|c3 [|]]]] [|]]]];
    try done; repeat (apply Forall_cons in Hrows as [? Hrows]); try done.
  by exists a1, a2, a3, b1, b2, b3, c1, c2, c3.
Qed.

(** All 19683 boards are checked by evaluation. *)
Lemma sound3_all a1 a2 a3 b1 b2 b3 c1 c2 c3 :
  sound3 (board3 a1 a2 a3 b1 b2 b3 c1 c2 c3).
Proof.
  revert a1 a2 a3 b1 b2 b3 c1 c2 c3.
  apply (bool_decide_unpack _). vm_compute. done.
Qed.

Lemma check_for_winner_sound3 w b :
  GridSize.size (WinChecker.grid_size w) = 3 -> is_square 3 b ->
  exists r,
    WinChecker.check_for_winner w b = Ok r /\
    (forall p, r = Some p -> complete_line 3 b p) /\
    (r = None -> forall p, ~ complete_line 3 b p).
Proof.
  intros Hw Hsq. destruct w as [[n]]. simpl in Hw. subst n.
  destruct (is_square_3_shape b Hsq)
    as (a1 & a2 & a3 & b1 & b2 & b3 & c1 & c2 & c3 & ->).
  pose proof (sound3_all a1 a2 a3 b1 b2 b3 c1 c2 c3) as Hsound.
  unfold sound3, checker3 in Hsound.
  destruct (WinChecker.check_for_winner _ _) as [[p|]|]; [| |done].
  - exists (Some p). split; [done|]. split; [by intros ? [= <-]|done].
  - exists None. by split.
Qed.

(** The order of the scan *)

Lemma lines_3_scan_order :
  lines 3 = [[(0, 0); (0, 1); (0, 2)]; [(1, 0); (1, 1); (1, 2)];
             [(2, 0); (2, 1); (2, 2)];
             [(0, 0); (1, 0); (2, 0)]; [(0, 1); (1, 1); (2, 1)];
             [(0, 2); (1, 2); (2, 2)];
             [(0, 0); (1, 1); (2, 2)]; [(0, 2); (1, 1); (2, 0)]].
Proof. reflexivity. Qed.

Lemma owns_unique b p q l : l <> [] -> owns b p l -> owns b q l -> p = q.
Proof.
  destruct l as [|rc l]; [done|]. intros _ Hp Hq.
  apply Forall_inv in Hp, Hq. congruence.
Qed.

Lemma line_owner_Some b l p :
  l <> [] -> line_owner b l = Some p <-> p <> NONE /\ owns b p l.
Proof.
  intros Hl. unfold line_owner. split.
  - repeat case_decide; intros [= <-]; done.
  - intros [Hp Hown]. destruct p; [done| |].
    + by rewrite decide_True.
    + rewrite decide_False, decide_True; [done..|].
      intros HX. by pose proof (owns_unique _ _ _ _ Hl HX Hown).
Qed.

Lemma line_owner_None b l :
  line_owner b l = None <-> forall q, q <> NONE -> ~ owns b q l.
Proof.
  unfold line_owner. split.
  - repeat case_decide; [done..|]. intros _ [] Hq; done.
  - intros Hno. rewrite !decide_False; [done|by apply Hno..].
Qed.

Lemma first_owner_Some b ls p :
  Forall (fun l => l <> []) ls ->
  first_owner b ls = Some p <->
  exists (i : nat) l,
    ls !! i = Some l /\ p <> NONE /\ owns b p l /\
    forall (j : nat) l' q,
      (j < i)%nat -> ls !! j = Some l' -> q <> NONE -> ~ owns b q l'.
Proof.
  induction 1 as [|l ls Hl Hls IH]; simpl.
  { split; [done|]. by intros (i & l & Hi & _). }
  destruct (line_owner b l) as [q|] eqn:Howner.
  - apply line_owner_Some in Howner as [Hq Hown]; [|done]. split.
    + intros [= <-]. exists 0%nat, l. split_and!; [done..|]. intros j ? ? Hj. lia.
    + intros ([|i] & l' & Hi & Hp & Hown' & Hfirst); simplify_eq/=.
      * f_equal. by eapply owns_unique.
      * by destruct (Hfirst 0%nat l q ltac:(lia) eq_refl Hq).
  - rewrite IH. pose proof (proj1 (line_owner_None b l) Howner) as Hno. split.
    + intros (i & l' & Hi & Hp & Hown & Hfirst). exists (S i), l'.
      split_and!; [done..|]. intros [|j] l'' q Hj Hl'' Hq; simplify_eq/=.
      * by apply Hno.
      * apply (Hfirst j); [lia|done..].
    + intros ([|i] & l' & Hi & Hp & Hown & Hfirst); simplify_eq/=.
      * by destruct (Hno p Hp).
      * exists i, l'. split_and!; [done..|]. intros j l'' q Hj Hl'' Hq.
        apply (Hfirst (S j)); [lia|done..].
Qed.

(** All 19683 boards are checked by evaluation. *)
Lemma scan3_all a1 a2 a3 b1 b2 b3 c1 c2 c3 :
  scan3 (board3 a1 a2 a3 b1 b2 b3 c1 c2 c3).
Proof.
  revert a1 a2 a3 b1 b2 b3 c1 c2 c3.
  apply (bool_decide_unpack _). vm_compute. done.
Qed.

Lemma check_for_winner_scan3 w b :
  GridSize.size (WinChecker.grid_size w) = 3 -> is_square 3 b ->
  WinChecker.check_for_winner w b = Ok (first_owner b (lines 3)).
Proof.
  intros Hw Hsq. destruct w as [[n]]. simpl in Hw. subst n.
  destruct (is_square_3_shape b Hsq)
    as (a1 & a2 & a3 & b1 & b2 & b3 & c1 & c2 & c3 & ->).
  apply scan3_all.
Qed.

Lemma elem_of_lines n l r c :
  l ∈ lines n -> (r, c) ∈ l -> 0 <= r < n /\ 0 <= c < n.
Proof.
  unfold lines. rewrite !elem_of_app, !list_elem_of_fmap.
  intros [(i & -> & Hi)|[(i & -> & Hi)|Hd]].
  - unfold row_line. rewrite list_elem_of_fmap. intros (j & [= -> ->] & Hj).
    apply elem_of_range in Hi, Hj. done.
  - unfold column_line. rewrite list_elem_of_fmap. intros (j & [= -> ->] & Hj).
    apply elem_of_range in Hi, Hj. done.
  - apply elem_of_cons in Hd as [->|Hd]; [|apply list_elem_of_singleton in Hd as ->].
    + unfold main_diagonal. rewrite list_elem_of_fmap. intros (j & [= -> ->] & Hj).
      apply elem_of_range in Hj. done.
    + unfold anti_diagonal. rewrite list_elem_of_fmap. intros (j & [= -> ->] & Hj).
      apply elem_of_range in Hj. lia.
Qed.

(** A line completed by a move on a board without a complete line runs
    through the cell of the move, so it belongs to the mover. *)
Lemma complete_line_after_move n b b' r c p q :
  (forall q', ~ complete_line n b q') ->
  cell_at b' r c = Ok p ->
  (forall r' c', 0 <= r' -> 0 <= c' -> (r', c') <> (r, c) ->
     cell_at b' r' c' = cell_at b r' c') ->
  complete_line n b' q -> q = p.
Proof.
  intros Hnone Hcell Hframe [Hq Hline].
  apply Exists_exists in Hline as (l & Hl & Hown).
  destruct (decide ((r, c) ∈ l)) as [Hin|Hout].
  - unfold owns in Hown. rewrite Forall_forall in Hown.
    specialize (Hown _ Hin). simpl in Hown. congruence.
  - destruct (Hnone q). split; [done|]. apply Exists_exists. exists l.
    split; [done|]. unfold owns in *. rewrite Forall_forall in *.
    intros [r' c'] Hrc. specialize (Hown _ Hrc). simpl in *.
    destruct (elem_of_lines n l r' c' Hl Hrc) as [Hr' Hc'].
    rewrite <- Hframe; [done|lia|lia|]. by intros [= -> ->].
Qed.

Lemma winning_cells_ok (a b c : result Player) :
  is_ok a -> is_ok b -> is_ok c -> is_ok (WinChecker.winning_cells a b c).
Proof. by destruct a, b, c. Qed.

(** On a square board of side three or more the hard-coded indices 0, 1
    and 2 are in range, so the checker returns. *)
Lemma check_for_winner_ok w b :
  3 <= GridSize.size (WinChecker.grid_size w) ->
  is_square (GridSize.size (WinChecker.grid_size w)) b ->
  is_ok (WinChecker.check_for_winner w b).
Proof.
  intros Hn Hsq. set (n := GridSize.size (WinChecker.grid_size w)) in *.
  assert (forall r c, 0 <= r < n -> 0 <= c < n -> is_ok (cell_at b r c)) as Hcell.
  { intros r c Hr Hc. by destruct (cell_at_square n b r c) as [p ->]. }
  assert (is_ok (WinChecker._check_rows_for_winner w b)) as Hrows.
  { apply for_return_ok; intros r Hr%elem_of_range.
    - apply winning_cells_ok; apply Hcell; lia.
    - apply Hcell; lia. }
  assert (is_ok (WinChecker._check_columns_for_winner w b)) as Hcols.
  { apply for_return_ok; intros c Hc%elem_of_range.
    - apply winning_cells_ok; apply Hcell; lia.
    - apply Hcell; lia. }
  assert (is_ok (WinChecker._check_diagonals_for_winner w b)) as Hdiag.
  { unfold WinChecker._check_diagonals_for_winner.
    pose proof (winning_cells_ok (cell_at b 0 0) (cell_at b 1 1) (cell_at b 2 2)) as H1.
    pose proof (winning_cells_ok (cell_at b 0 2) (cell_at b 1 1) (cell_at b 2 0)) as H2.
    pose proof (Hcell 0 0) as H00. pose proof (Hcell 0 2) as H02.
    unfold_monad.
    destruct (WinChecker.winning_cells (cell_at b 0 0) _ _) as [[]|];
      [| |apply H1; apply Hcell; lia].
    - destruct (cell_at b 0 0); [done|apply H00; lia].
    - destruct (WinChecker.winning_cells (cell_at b 0 2) _ _) as [[]|];
        [| |apply H2; apply Hcell; lia]; [|done].
      destruct (cell_at b 0 2); [done|apply H02; lia]. }
  unfold WinChecker.check_for_winner. unfold_monad.
  destruct (WinChecker._check_rows_for_winner w b) as [[]|]; try done.
  destruct (WinChecker._check_columns_for_winner w b) as [[]|]; done.
Qed.

(** On every grid size a tie is declared only on a full board on which the
    checker found no winner. *)
Lemma tie_means_checker_found_no_winner s :
  reachable s -> status s = TIE ->
  no_empty_cell (matrix_of s) /\
  WinChecker.check_for_winner (win_checker s) (matrix_of s) = Ok None.
Proof.
  intros Hs Hst. apply reachable_invariant in Hs as (_ & _ & _ & Htie & _).
  by apply Htie.
Qed.

(** * Scenarios of the specification *)

(** Scenario A: five moves, [X] wins on the top row. *)
Example scenario_A_result :
  status (run scenario_A (fresh 3)) = X_WINS /\
  winner (run scenario_A (fresh 3)) = Some X /\
  length (move_history (run scenario_A (fresh 3))) = 5%nat.
Proof. vm_compute. done. Qed.

(** Scenario B: nine moves, a tie on a full board. *)
Example scenario_B_result :
  status (run scenario_B (fresh 3)) = TIE /\
  winner (run scenario_B (fresh 3)) = None /\
  length (move_history (run scenario_B (fresh 3))) = 9%nat /\
  matrix_of (run scenario_B (fresh 3)) = board3 X O X O O X X X O.
Proof. vm_compute. done. Qed.

(** Scenario C: after scenario A a further move is refused as the game is
    finished, and nothing changes. *)
Example scenario_C_result :
  MoveExecutor.attempt_move (at_ 2 2) (run scenario_A (fresh 3))
  = (Ok (false, "Game is already finished"), run scenario_A (fresh 3)).
Proof. vm_compute. done. Qed.

(** Scenario D: the first move at the centre passes the turn to [O], the
    second one is refused. *)
Example scenario_D_result :
  (MoveExecutor.attempt_move (at_ 1 1) (fresh 3)).1
  = Ok (true, "Move successful: O") /\
  MoveExecutor.attempt_move (at_ 1 1) (run [op_attempt_move (at_ 1 1)] (fresh 3))
  = (Ok (false, "Invalid move: cell is occupied or out of bounds"),
     run [op_attempt_move (at_ 1 1)] (fresh 3)).
Proof. vm_compute. done. Qed.

(** * The claims *)

(** ** Construction of value objects *)

(** C9. A [GridCoordinate] with a negative row or column is refused with a
    [ValueError] at construction, and so is a [GridSize] that is not
    positive or exceeds 10; [GridSize(10)] is built; and a constructor that
    succeeds stores exactly the values it was given (also for
    [ScreenPosition] and [Dimensions]): nothing is clamped into range. *)
Theorem constructors_reject_without_clamping :
  (forall r c, r < 0 \/ c < 0 ->
     exists msg, GridCoordinate.__init__ r c = Raise (ValueError msg)) /\
  (forall n, n <= 0 \/ 10 < n ->
     exists msg, GridSize.__init__ n = Raise (ValueError msg)) /\
  GridSize.__init__ 10 = Ok (GridSize.mk 10) /\
  (forall r c v, GridCoordinate.__init__ r c = Ok v ->
     0 <= r /\ 0 <= c /\ v = GridCoordinate.mk r c) /\
  (forall n v, GridSize.__init__ n = Ok v ->
     1 <= n <= 10 /\ v = GridSize.mk n) /\
  (forall x y v, ScreenPosition.__init__ x y = Ok v ->
     0 <= x /\ 0 <= y /\ v = ScreenPosition.mk x y) /\
  (forall w h v, Dimensions.__init__ w h = Ok v ->
     0 < w /\ 0 < h /\ v = Dimensions.mk w h).
Proof.
  split_and!.
  - intros r c Hneg. unfold GridCoordinate.__init__,
      GridCoordinate._validate_coordinate_values.
    destruct (Z.ltb_spec r 0); simpl; [by eexists|].
    destruct (Z.ltb_spec c 0); simpl; [by eexists|lia].
  - intros n Hn. unfold GridSize.__init__, GridSize._validate_grid_size.
    destruct (Z.leb_spec n 0); simpl; [by eexists|].
    destruct (Z.gtb_spec n 10); simpl; [by eexists|lia].
  - done.
  - intros r c v. unfold GridCoordinate.__init__,
      GridCoordinate._validate_coordinate_values.
    destruct (Z.ltb_spec r 0); simpl; [done|].
    destruct (Z.ltb_spec c 0); simpl; [done|]. by intros [= <-].
  - intros n v. unfold GridSize.__init__, GridSize._validate_grid_size.
    destruct (Z.leb_spec n 0); simpl; [done|].
    destruct (Z.gtb_spec n 10); simpl; [done|]. intros [= <-]. split; [lia|done].
  - intros x y v. unfold ScreenPosition.__init__,
      ScreenPosition._validate_position_values.
    destruct (Z.ltb_spec x 0); simpl; [done|].
    destruct (Z.ltb_spec y 0); simpl; [done|]. by intros [= <-].
  - intros w h v. unfold Dimensions.__init__,
      Dimensions._validate_dimension_values.
    destruct (Z.leb_spec w 0); simpl; [done|].
    destruct (Z.leb_spec h 0); simpl; [done|]. by intros [= <-].
Qed.

(** Scenario E: a coordinate with row -1, a grid of size 11 and a grid of
    size 0 are refused. *)
Lemma constructors_reject_without_clamping_witness :
  (exists msg, GridCoordinate.__init__ (-1) 0 = Raise (ValueError msg)) /\
  (exists msg, GridSize.__init__ 11 = Raise (ValueError msg)) /\
  (exists msg, GridSize.__init__ 0 = Raise (ValueError msg)) /\
  GridSize.__init__ 10 = Ok (GridSize.mk 10).
Proof.
  destruct constructors_reject_without_clamping as (Hc & Hs & H10 & _).
  split_and!.
  - apply Hc. lia.
  - apply Hs. lia.
  - apply Hs. lia.
  - exact H10.
Defined.

(** ** Reset *)

(** C7. From every reachable state, terminal or not,
    [reset_to_initial_state] returns normally and leaves a board of the same
    side with every cell [NONE], an empty move log, [X] to move, status
    [IN_PROGRESS] and no winner; [GameService.start_new_game] does the same
    and returns that state. *)
Theorem full_reset_law s :
  reachable s ->
  exists s',
    reset_to_initial_state s = (Ok tt, s') /\
    GameService.start_new_game s = (Ok s', s') /\
    size_of s' = size_of s /\
    is_square (size_of s) (matrix_of s') /\
    all_empty (matrix_of s') /\
    move_history s' = [] /\
    current_player s' = X /\
    status s' = IN_PROGRESS /\
    winner s' = None.
Proof.
  intros Hs. apply reachable_invariant in Hs as ((Hb & _) & _).
  exists (reset_state s). split_and!; try done.
  - unfold matrix_of, size_of; simpl. rewrite <- Hb. apply is_square_empty.
  - apply all_empty_empty.
Qed.

(** The reset law after scenario A, where [X] has won. *)
Lemma full_reset_law_witness :
  reachable (run scenario_A (fresh 3)) /\
  status (run scenario_A (fresh 3)) = X_WINS /\
  exists s',
    reset_to_initial_state (run scenario_A (fresh 3)) = (Ok tt, s') /\
    all_empty (matrix_of s') /\ move_history s' = [] /\
    current_player s' = X /\ status s' = IN_PROGRESS /\ winner s' = None.
Proof.
  assert (reachable (run scenario_A (fresh 3))) as Hreach.
  { apply reachable_run, reachable_fresh. lia. }
  split; [exact Hreach|]. split; [reflexivity|].
  destruct (full_reset_law _ Hreach)
    as (s' & Hreset & _ & _ & _ & Hempty & Hlog & Hcur & Hst & Hwin).
  exists s'. by split_and!.
Defined.

(** ** The move log *)

(** C8. In every reachable state, whatever operations led to it, the move
    log has as many entries as the board has cells that are not [NONE]. *)
Theorem log_cardinality s :
  reachable s -> length (move_history s) = occupied (matrix_of s).
Proof. intros Hs. by apply reachable_invariant in Hs as (_ & _ & Hlog & _). Qed.

(** Scenario A followed by a rejected move: five entries, five marks. *)
Lemma log_cardinality_witness :
  reachable (run (scenario_A ++ [op_attempt_move (at_ 2 2)]) (fresh 3)) /\
  length (move_history (run (scenario_A ++ [op_attempt_move (at_ 2 2)]) (fresh 3)))
  = occupied (matrix_of (run (scenario_A ++ [op_attempt_move (at_ 2 2)]) (fresh 3))).
Proof.
  assert (reachable (run (scenario_A ++ [op_attempt_move (at_ 2 2)]) (fresh 3)))
    as Hreach.
  { apply reachable_run, reachable_fresh. lia. }
  split; [exact Hreach|]. exact (log_cardinality _ Hreach).
Defined.

(** ** Move validation *)

(** C6. In every reachable state [is_valid_move] returns, without changing
    the state, and it returns true exactly when the status is
    [IN_PROGRESS], the coordinate lies within the grid and the cell there is
    [NONE]. *)
Theorem is_valid_move_contract s c :
  reachable s ->
  exists b,
    is_valid_move c s = (Ok b, s) /\
    (b = true <->
       status s = IN_PROGRESS /\ in_bounds (size_of s) c /\
       cell_at (matrix_of s) (GridCoordinate.row c) (GridCoordinate.col c)
       = Ok NONE).
Proof.
  intros Hs. apply reachable_invariant in Hs as (Hcoh & _).
  eexists. split; [by apply is_valid_move_coherent|].
  apply bool_decide_eq_true.
Qed.

(** After the first move at the centre, the centre is no longer a valid
    move and the corner is. *)
Lemma is_valid_move_contract_witness :
  reachable (run [op_execute_move (at_ 1 1)] (fresh 3)) /\
  (exists b,
     is_valid_move (at_ 1 1) (run [op_execute_move (at_ 1 1)] (fresh 3))
     = (Ok b, run [op_execute_move (at_ 1 1)] (fresh 3)) /\ b <> true) /\
  (exists b,
     is_valid_move (at_ 0 0) (run [op_execute_move (at_ 1 1)] (fresh 3))
     = (Ok b, run [op_execute_move (at_ 1 1)] (fresh 3)) /\ b = true).
Proof.
  assert (reachable (run [op_execute_move (at_ 1 1)] (fresh 3))) as Hreach.
  { apply reachable_run, reachable_fresh. lia. }
  split; [exact Hreach|]. split.
  - destruct (is_valid_move_contract _ (at_ 1 1) Hreach) as (b & Hb & Hiff).
    exists b. split; [exact Hb|]. intros Htrue. apply Hiff in Htrue.
    destruct Htrue as (_ & _ & Hcell). discriminate Hcell.
  - destruct (is_valid_move_contract _ (at_ 0 0) Hreach) as (b & Hb & Hiff).
    exists b. split; [exact Hb|]. apply Hiff.
    split; [reflexivity|]. split; [|reflexivity].
    change (in_bounds 3 (at_ 0 0)). unfold in_bounds. simpl. lia.
Defined.

(** ** Rejected moves *)

(** C4. In every reachable state, a move on a finished game, at a
    coordinate outside the grid or at an occupied cell makes [execute_move]
    return false and [MoveExecutor.attempt_move] return [accepted = false],
    and whenever either of them reports a rejection the whole state (board,
    log, current player, status, winner) is what it was before. *)
Theorem rejected_move_changes_nothing s c :
  reachable s ->
  (status s <> IN_PROGRESS \/ ~ in_bounds (size_of s) c \/
   cell_at (matrix_of s) (GridCoordinate.row c) (GridCoordinate.col c)
   <> Ok NONE ->
   execute_move c s = (Ok false, s) /\
   exists msg, MoveExecutor.attempt_move c s = (Ok (false, msg), s)) /\
  (forall s', execute_move c s = (Ok false, s') -> s' = s) /\
  (forall msg s', MoveExecutor.attempt_move c s = (Ok (false, msg), s') -> s' = s).
Proof.
  intros Hs. apply reachable_invariant in Hs as (Hcoh & _).
  pose proof (execute_move_unfold c s) as Hexec.
  pose proof (attempt_move_unfold c s) as Hatt.
  rewrite is_valid_move_coherent in Hexec, Hatt by done. simpl in Hexec, Hatt.
  split_and!.
  - intros Hrej.
    assert (~ (status s = IN_PROGRESS /\ in_bounds (size_of s) c /\
               cell_at (matrix_of s) (GridCoordinate.row c)
                 (GridCoordinate.col c) = Ok NONE)) as Hno by tauto.
    rewrite (bool_decide_false _ Hno) in Hexec, Hatt.
    split; [done|]. rewrite Hatt. case_bool_decide; by eexists.
  - intros s' Hs'. clear Hatt. rewrite Hs' in Hexec.
    case_bool_decide; [|by simplify_eq].
    by repeat case_match; simplify_eq.
  - intros msg s' Hs'. rewrite Hs', Hexec in Hatt. clear Hexec Hs'.
    case_bool_decide; [by simplify_eq|].
    case_bool_decide; [|by simplify_eq].
    by repeat case_match; simplify_eq.
Qed.

(** Scenario D: the second move at the centre is rejected as occupied; and a
    move outside the grid is rejected too. *)
Lemma rejected_move_changes_nothing_witness :
  reachable (run [op_execute_move (at_ 1 1)] (fresh 3)) /\
  execute_move (at_ 1 1) (run [op_execute_move (at_ 1 1)] (fresh 3))
  = (Ok false, run [op_execute_move (at_ 1 1)] (fresh 3)) /\
  (exists msg,
     MoveExecutor.attempt_move (at_ 3 0) (run [op_execute_move (at_ 1 1)] (fresh 3))
     = (Ok (false, msg), run [op_execute_move (at_ 1 1)] (fresh 3))).
Proof.
  assert (reachable (run [op_execute_move (at_ 1 1)] (fresh 3))) as Hreach.
  { apply reachable_run, reachable_fresh. lia. }
  split; [exact Hreach|]. split.
  - destruct (rejected_move_changes_nothing _ (at_ 1 1) Hreach) as [Hrej _].
    apply Hrej. right. right. discriminate.
  - destruct (rejected_move_changes_nothing _ (at_ 3 0) Hreach) as [Hrej _].
    apply Hrej. right. left. change (~ in_bounds 3 (at_ 3 0)).
    unfold in_bounds. simpl. lia.
Defined.

(** ** Starting a new game *)

(** C10. [GameService.start_new_game] resets the game in every reachable
    state and returns the fresh state; [can_restart] answers true exactly in
    a terminal status, and its answer plays no part: while the status is
    [IN_PROGRESS] it answers false and [start_new_game] still discards the
    game. *)
Theorem start_new_game_unconditional s :
  reachable s ->
  GameService.can_restart s = (Ok (bool_decide (status s <> IN_PROGRESS)), s) /\
  (status s = IN_PROGRESS -> GameService.can_restart s = (Ok false, s)) /\
  exists s',
    GameService.start_new_game s = (Ok s', s') /\
    s' = (reset_to_initial_state s).2 /\
    all_empty (matrix_of s') /\
    move_history s' = [] /\
    current_player s' = X /\
    status s' = IN_PROGRESS /\
    winner s' = None.
Proof.
  intros _. split_and!.
  - done.
  - intros Hst. rewrite can_restart_unfold. by rewrite bool_decide_false by congruence.
  - exists (reset_state s). split_and!; try done. apply all_empty_empty.
Qed.

(** After one move the game is in progress, [can_restart] says no, and
    [start_new_game] wipes the move all the same. *)
Lemma start_new_game_unconditional_witness :
  reachable (run [op_execute_move (at_ 1 1)] (fresh 3)) /\
  length (move_history (run [op_execute_move (at_ 1 1)] (fresh 3))) = 1%nat /\
  (GameService.can_restart (run [op_execute_move (at_ 1 1)] (fresh 3))).1
  = Ok false /\
  exists s',
    GameService.start_new_game (run [op_execute_move (at_ 1 1)] (fresh 3))
    = (Ok s', s') /\
    move_history s' = [] /\ all_empty (matrix_of s').
Proof.
  assert (reachable (run [op_execute_move (at_ 1 1)] (fresh 3))) as Hreach.
  { apply reachable_run, reachable_fresh. lia. }
  destruct (start_new_game_unconditional _ Hreach) as (_ & Hno & s' & Hnew & _ & Hempty & Hlog & _).
  split_and!.
  - exact Hreach.
  - reflexivity.
  - rewrite Hno; reflexivity.
  - exists s'. by split_and!.
Defined.

(** ** Turn alternation *)

(** C5. Whatever operations are performed on a new game of any accepted
    size, the players of the accepted moves since the last reset are
    [X, O, X, ...]; an accepted move is made in status [IN_PROGRESS] by the
    current player, whose mark it writes on the board and in the log; it
    hands the turn to the other player when the game goes on and leaves the
    current player alone when it ends the game; and from a terminal status
    no sequence of operations without a reset changes the state, so the
    current player stays frozen. *)
Theorem turn_alternation :
  (forall n s0 ops, new_game n = Ok s0 -> alternates_from_X (movers ops s0 [])) /\
  (forall s c s',
     reachable s -> execute_move c s = (Ok true, s') ->
     status s = IN_PROGRESS /\
     last (move_history s') = Some (Move.mk c (current_player s)) /\
     cell_at (matrix_of s') (GridCoordinate.row c) (GridCoordinate.col c)
     = Ok (current_player s) /\
     (status s' = IN_PROGRESS -> current_player s' = other (current_player s)) /\
     (status s' <> IN_PROGRESS -> current_player s' = current_player s)) /\
  (forall s ops,
     status s <> IN_PROGRESS ->
     forallb (fun o => negb (is_reset o)) ops = true ->
     run ops s = s).
Proof.
  split_and!.
  - intros n s0 ops [_ ->]%new_game_fresh. by apply movers_alternate.
  - intros s c s' Hs Hexec.
    pose proof (execute_move_turn c s) as Hturn. rewrite Hexec in Hturn.
    destruct Hturn as (Hst & Hnext & Hstay).
    apply reachable_invariant in Hs as (Hcoh & _).
    rewrite execute_move_unfold, is_valid_move_coherent in Hexec by done.
    simpl in Hexec. case_bool_decide as Hvalid; [|done].
    destruct Hvalid as (_ & Hin & Hnone). destruct Hcoh as (_ & _ & _ & _ & Hsq).
    destruct (place_move_spec (size_of s) (board s) c (current_player s))
      as (b' & Hplace & _ & Hcell & _); [done..|].
    rewrite Hplace in Hexec. simpl in Hexec.
    split_and!; try done.
    + by repeat case_match; simplify_eq; simpl; rewrite last_snoc.
    + by repeat case_match; simplify_eq.
  - intros s ops. apply run_terminal.
Qed.

(** Scenario A, a reset and scenario B in a row: the movers after the reset
    alternate from [X]; the fifth move of scenario A ends the game without
    passing the turn; and further moves leave the finished game alone. *)
Lemma turn_alternation_witness :
  alternates_from_X
    (movers (scenario_A ++ [op_reset_to_initial_state] ++ scenario_B) (fresh 3) []) /\
  current_player (run scenario_A (fresh 3)) = X /\
  run [op_execute_move (at_ 2 2); op_attempt_move (at_ 2 0)]
      (run scenario_A (fresh 3))
  = run scenario_A (fresh 3).
Proof.
  destruct turn_alternation as (Halt & Hmove & Hfrozen). split_and!.
  - apply (Halt 3). reflexivity.
  - destruct (Hmove (run (take 4 scenario_A) (fresh 3)) (at_ 0 2)
                (run scenario_A (fresh 3))) as (_ & _ & _ & _ & Hstay).
    + apply reachable_run, reachable_fresh. lia.
    + vm_compute. reflexivity.
    + rewrite Hstay; [vm_compute; reflexivity|]. vm_compute. discriminate.
  - apply Hfrozen; [vm_compute; discriminate|reflexivity].
Defined.

(** ** Winner detection *)

(** C1, as amended.  On a three by three board the checker returns; when
    it returns a player, that player is not [NONE] and holds a complete row,
    column or main diagonal; it returns none exactly when no player holds
    one; it returns [p] whenever [p] is the only player who does; and in
    every case the player it returns is the owner of the first complete line
    in the order of the scan, which is the order of [lines 3]: the rows from
    the top, the columns from the left, the main diagonal, the
    anti-diagonal. *)
Theorem check_for_winner_3x3 w b :
  GridSize.size (WinChecker.grid_size w) = 3 -> is_square 3 b ->
  exists r,
    WinChecker.check_for_winner w b = Ok r /\
    (forall p, r = Some p -> complete_line 3 b p) /\
    (r = None <-> forall p, ~ complete_line 3 b p) /\
    (forall p, complete_line 3 b p ->
       (forall q, complete_line 3 b q -> q = p) -> r = Some p) /\
    (forall p, r = Some p <->
       exists (i : nat) l,
         lines 3 !! i = Some l /\ p <> NONE /\ owns b p l /\
         forall (j : nat) l' q,
           (j < i)%nat -> lines 3 !! j = Some l' -> q <> NONE -> ~ owns b q l').
Proof.
  intros Hw Hsq.
  destruct (check_for_winner_sound3 w b Hw Hsq) as (r & Hr & Hsome & Hnone).
  exists r. split_and!; try done.
  - split; [done|]. intros Hno. destruct r as [p|]; [|done].
    by destruct (Hno p (Hsome p eq_refl)).
  - intros p Hp Honly. destruct r as [q|].
    + f_equal. by apply Honly, Hsome.
    + by destruct (Hnone eq_refl p).
  - intros p. pose proof (check_for_winner_scan3 w b Hw Hsq) as Hscan.
    assert (r = first_owner b (lines 3)) as Hfirst by congruence.
    rewrite Hfirst. apply first_owner_Some.
    rewrite lines_3_scan_order. by repeat constructor.
Qed.

(** A full row of [X] above a full row of [O]: both players hold a line,
    and the top row, which is scanned first, decides for [X]. *)
Lemma check_for_winner_3x3_witness :
  GridSize.size (WinChecker.grid_size checker3) = 3 /\
  is_square 3 (board3 X X X O O O NONE NONE NONE) /\
  complete_line 3 (board3 X X X O O O NONE NONE NONE) O /\
  exists r,
    WinChecker.check_for_winner checker3 (board3 X X X O O O NONE NONE NONE)
    = Ok r /\
    r = Some X /\
    (forall p, r = Some p -> complete_line 3 (board3 X X X O O O NONE NONE NONE) p).
Proof.
  split; [reflexivity|]. split; [by_decision|]. split; [by_decision|].
  destruct (check_for_winner_3x3 checker3 (board3 X X X O O O NONE NONE NONE))
    as (r & Hr & Hsome & _ & _ & Hscan).
  - reflexivity.
  - by_decision.
  - exists r. split; [exact Hr|]. split; [|exact Hsome].
    apply Hscan. exists 0%nat, [(0, 0); (0, 1); (0, 2)].
    split; [reflexivity|]. split; [discriminate|]. split; [by_decision|].
    intros j l' q Hj. lia.
Defined.

(** C1 fails as stated in two ways.  On the three by three board with a
    full row of [X] above a full row of [O], some row has all of its cells
    equal to [O], yet the checker returns [X], the owner of the first line
    it scans.  On a four by four board with [X X X] at the start of the top
    row and the fourth cell empty, the checker returns [X] although no row,
    column or diagonal of four cells is complete. *)
Lemma check_for_winner_counterexample :
  (is_square 3 (board3 X X X O O O NONE NONE NONE) /\
   complete_line 3 (board3 X X X O O O NONE NONE NONE) O /\
   WinChecker.check_for_winner checker3 (board3 X X X O O O NONE NONE NONE)
   = Ok (Some X)) /\
  (is_square 4 board4 /\
   WinChecker.check_for_winner checker4 board4 = Ok (Some X) /\
   ~ complete_line 4 board4 X).
Proof.
  split; split_and!.
  - by_decision.
  - by_decision.
  - vm_compute. reflexivity.
  - by_decision.
  - vm_compute. reflexivity.
  - by_decision.
Qed.

(** ** Runtime errors *)

(** C2 fails on the code: the grid sizes 1 and 2 are accepted at
    construction, and on such a game the first move, at the in-bounds
    coordinate [(0, 0)], passes validation, is placed and logged, and then
    [check_for_winner] raises [IndexError] when it reads column 1 or 2. *)
Theorem execute_move_raises_on_small_grids :
  (new_game 1 = Ok (fresh 1) /\ in_bounds 1 (at_ 0 0) /\
   is_valid_move (at_ 0 0) (fresh 1) = (Ok true, fresh 1) /\
   (execute_move (at_ 0 0) (fresh 1)).1 = Raise IndexError /\
   (MoveExecutor.attempt_move (at_ 0 0) (fresh 1)).1 = Raise IndexError /\
   matrix_of (execute_move (at_ 0 0) (fresh 1)).2 = [[X]]) /\
  (new_game 2 = Ok (fresh 2) /\ in_bounds 2 (at_ 0 0) /\
   is_valid_move (at_ 0 0) (fresh 2) = (Ok true, fresh 2) /\
   (execute_move (at_ 0 0) (fresh 2)).1 = Raise IndexError /\
   (MoveExecutor.attempt_move (at_ 0 0) (fresh 2)).1 = Raise IndexError /\
   matrix_of (execute_move (at_ 0 0) (fresh 2)).2 = [[X; NONE]; [NONE; NONE]]).
Proof. unfold in_bounds. simpl. split_and!; (reflexivity || lia). Qed.

(** From side three on no move raises: in every reachable state of such a
    game both ways of moving return. *)
Lemma execute_move_returns_from_size_3 s c :
  reachable s -> 3 <= size_of s ->
  is_ok (execute_move c s).1 /\ is_ok (MoveExecutor.attempt_move c s).1.
Proof.
  intros Hs Hn. apply reachable_invariant in Hs as (Hcoh & _).
  assert (is_ok (execute_move c s).1) as Hexec.
  { rewrite execute_move_unfold, is_valid_move_coherent by done. simpl.
    case_bool_decide as Hvalid; [|done].
    destruct Hvalid as (_ & Hin & Hnone).
    destruct Hcoh as (Hb & Hv & Hw & _ & Hsq).
    destruct (place_move_spec (size_of s) (board s) c (current_player s))
      as (b' & -> & Hsq' & _); [done..|].
    simpl. unfold size_of in *.
    pose proof (check_for_winner_ok (win_checker s) b') as Hok.
    rewrite Hw in Hok. specialize (Hok Hn Hsq').
    destruct (WinChecker.check_for_winner _ _) as [[p|]|]; try done.
    rewrite is_board_full_square by (by rewrite Hv).
    by case_bool_decide. }
  split; [done|]. rewrite attempt_move_unfold, is_valid_move_coherent by done.
  simpl. case_bool_decide; [done|]. case_bool_decide; [|done].
  destruct (execute_move c s) as [[[]|] s']; try done.
Qed.

(** ** Ties *)

(** On the three by three grid, the default one and the one the service
    builds, C3 holds.  In every reachable state of such a game, status [TIE]
    implies that no cell is [NONE] and that no
    player holds a complete line; and a valid move there is accepted, and if
    it leaves a complete line on the board (also when it fills the last
    empty cell) that line belongs to the mover and the game ends with the
    mover's WINS status and the mover as winner, never with [TIE]. *)
Theorem tie_excludes_complete_line_3x3 s :
  reachable s -> size_of s = 3 ->
  (status s = TIE ->
     no_empty_cell (matrix_of s) /\ forall p, ~ complete_line 3 (matrix_of s) p) /\
  (forall c,
     status s = IN_PROGRESS -> in_bounds 3 c ->
     cell_at (matrix_of s) (GridCoordinate.row c) (GridCoordinate.col c) = Ok NONE ->
     exists s',
       execute_move c s = (Ok true, s') /\
       cell_at (matrix_of s') (GridCoordinate.row c) (GridCoordinate.col c)
       = Ok (current_player s) /\
       forall p, complete_line 3 (matrix_of s') p ->
         p = current_player s /\ status s' = wins_status p /\
         winner s' = Some p /\ status s' <> TIE).
Proof.
  intros Hs Hn. apply reachable_invariant in Hs as (Hcoh & Hcur & _ & Htie & Hprog).
  pose proof Hcoh as (Hb & Hv & Hw & _ & Hsq). rewrite Hn in Hsq.
  assert (GridSize.size (WinChecker.grid_size (win_checker s)) = 3) as Hw3.
  { by rewrite Hw. }
  split.
  - intros Hst. destruct (Htie Hst) as [Hfull Hchk]. split; [done|].
    destruct (check_for_winner_sound3 _ _ Hw3 Hsq) as (r & Hr & _ & Hnone).
    apply Hnone. congruence.
  - intros c Hst Hin Hnone.
    assert (forall q, ~ complete_line 3 (matrix_of s) q) as Hnoline.
    { destruct (check_for_winner_sound3 _ _ Hw3 Hsq) as (r & Hr & Hsome & Hno).
      destruct r as [q|]; [|by apply Hno]. by destruct (Hprog Hst q). }
    rewrite execute_move_unfold, is_valid_move_coherent by done. simpl.
    rewrite Hn, bool_decide_true by done.
    destruct (place_move_spec 3 (board s) c (current_player s))
      as (b' & -> & Hsq' & Hcell & Hframe & _); [done..|].
    simpl.
    assert (forall p, complete_line 3 b' p -> p = current_player s) as Hmover.
    { intros p. by apply (complete_line_after_move 3 (matrix_of s) b'
                            (GridCoordinate.row c) (GridCoordinate.col c)). }
    destruct (check_for_winner_sound3 _ _ Hw3 Hsq') as (r & -> & Hsome & Hno).
    destruct r as [q|].
    + eexists. split; [done|]. split; [done|]. intros p Hp. simpl.
      pose proof (Hmover q (Hsome q eq_refl)) as Hq.
      pose proof (Hmover p Hp) as ->. subst q.
      by destruct (current_player s).
    + rewrite is_board_full_square
        by (rewrite Hv; unfold size_of in Hn; by rewrite Hn).
      case_bool_decide; eexists; (split; [done|]); (split; [done|]);
        intros p Hp; by destruct (Hno eq_refl p).
Qed.

(** Scenario B ends in a tie on a full board without a line; and after
    [eight_moves] the move of [X] at [(2, 2)] fills the last empty cell and
    completes the main diagonal: the game is won by [X], not tied. *)
Lemma tie_excludes_complete_line_3x3_witness :
  (status (run scenario_B (fresh 3)) = TIE /\
   no_empty_cell (matrix_of (run scenario_B (fresh 3))) /\
   forall p, ~ complete_line 3 (matrix_of (run scenario_B (fresh 3))) p) /\
  exists s',
    execute_move (at_ 2 2) (run eight_moves (fresh 3)) = (Ok true, s') /\
    no_empty_cell (matrix_of s') /\
    complete_line 3 (matrix_of s') X /\
    status s' = X_WINS /\ winner s' = Some X.
Proof.
  split.
  - destruct (tie_excludes_complete_line_3x3 (run scenario_B (fresh 3)))
      as [Htie _].
    + apply reachable_run, reachable_fresh. lia.
    + reflexivity.
    + split; [reflexivity|]. apply Htie. reflexivity.
  - destruct (tie_excludes_complete_line_3x3 (run eight_moves (fresh 3)))
      as [_ Hmove].
    + apply reachable_run, reachable_fresh. lia.
    + reflexivity.
    + destruct (Hmove (at_ 2 2)) as (s' & Hexec & Hcell & Hline).
      * reflexivity.
      * unfold in_bounds. simpl. lia.
      * reflexivity.
      * exists s'. split; [exact Hexec|].
        assert (s' = (execute_move (at_ 2 2) (run eight_moves (fresh 3))).2)
          as -> by (by rewrite Hexec).
        assert (complete_line 3
                  (matrix_of (execute_move (at_ 2 2) (run eight_moves (fresh 3))).2)
                  X) as HX by (by_decision).
        destruct (Hline X HX) as (_ & Hst & Hwin & _).
        split_and!; [by_decision|exact HX|exact Hst|exact Hwin].
Defined.

(** C3 fails on the code.  On a four by four board, after
    [fifteen_moves] the game is in progress, no line is complete and only
    [(3, 0)] is empty; the move of [O] there fills the board and completes
    the anti-diagonal [(0, 3), (1, 2), (2, 1), (3, 0)], which the checker
    never reads, and the game is declared a tie without a winner. *)
Theorem tie_declared_with_complete_line_4x4 :
  reachable (run fifteen_moves (fresh 4)) /\
  size_of (run fifteen_moves (fresh 4)) = 4 /\
  status (run fifteen_moves (fresh 4)) = IN_PROGRESS /\
  current_player (run fifteen_moves (fresh 4)) = O /\
  (forall p, ~ complete_line 4 (matrix_of (run fifteen_moves (fresh 4))) p) /\
  (execute_move (at_ 3 0) (run fifteen_moves (fresh 4))).1 = Ok true /\
  no_empty_cell (matrix_of (execute_move (at_ 3 0) (run fifteen_moves (fresh 4))).2) /\
  complete_line 4
    (matrix_of (execute_move (at_ 3 0) (run fifteen_moves (fresh 4))).2) O /\
  status (execute_move (at_ 3 0) (run fifteen_moves (fresh 4))).2 = TIE /\
  winner (execute_move (at_ 3 0) (run fifteen_moves (fresh 4))).2 = None.
Proof.
  split_and!.
  - apply reachable_run, reachable_fresh. lia.
  - vm_compute. reflexivity.
  - vm_compute. reflexivity.
  - vm_compute. reflexivity.
  - by_decision.
  - vm_compute. reflexivity.
  - by_decision.
  - by_decision.
  - vm_compute. reflexivity.
  - vm_compute. reflexivity.
Qed.

(** * Further properties of the code *)

(** ** The paths through [execute_move] *)

Lemma execute_move_result c s :
  coherent s -> move_result c s (execute_move c s).1 (execute_move c s).2.
Proof.
  intros Hcoh. rewrite execute_move_unfold, is_valid_move_coherent by done.
  cbn [fst snd]. case_bool_decide as Hvalid; [|by constructor].
  pose proof Hvalid as (Hst & Hin & Hnone).
  destruct Hcoh as (Hb & Hv & Hw & _ & Hsq).
  destruct (place_move_spec (size_of s) (board s) c (current_player s))
    as (b' & Hplace & Hsq' & _); [done..|].
  rewrite Hplace. cbn [GameBoard.board].
  destruct (WinChecker.check_for_winner (win_checker s) b') as [[p|]|e] eqn:Hchk.
  - by eapply move_won.
  - rewrite is_board_full_square by (unfold size_of in Hsq'; by rewrite Hv).
    case_bool_decide as Hfull.
    + by eapply move_tied.
    + by eapply (move_continued c s (GameBoard.mk (GameBoard.grid_size (board s)) b')).
  - by eapply move_raised.
Qed.

Lemma perform_cases o s :
  perform o s = s \/ perform o s = reset_state s \/
  exists c, perform o s = (execute_move c s).2.
Proof.
  destruct o; unfold perform.
  - right; right. by eexists.
  - right; right. eexists. apply attempt_move_state.
  - right; left. by rewrite reset_to_initial_state_unfold.
  - right; left. by rewrite start_new_game_unfold.
  - left. by rewrite is_valid_move_unfold.
  - left. done.
  - left. done.
Qed.

(** ** The checker on boards of any shape *)

Lemma winning_cells_true a b c :
  WinChecker.winning_cells a b c = Ok true ->
  exists p, p <> NONE /\ a = Ok p /\ b = Ok p /\ c = Ok p.
Proof.
  destruct a as [x|], b as [y|], c as [z|]; try done.
  unfold WinChecker.winning_cells, WinChecker._is_winning_line. unfold_monad.
  intros [= H]. apply andb_prop in H as [H Hz]. apply andb_prop in H as [Hxy Hyz].
  apply bool_decide_eq_true in Hxy, Hyz, Hz. subst. by exists z.
Qed.

Lemma winning_cells_false a b c p :
  WinChecker.winning_cells a b c = Ok false ->
  p <> NONE -> ~ (a = Ok p /\ b = Ok p /\ c = Ok p).
Proof.
  intros Hw Hp (-> & -> & ->). revert Hw.
  unfold WinChecker.winning_cells, WinChecker._is_winning_line. unfold_monad.
  by rewrite !bool_decide_true.
Qed.

Lemma owns_three b p r1 c1 r2 c2 r3 c3 :
  owns b p [(r1, c1); (r2, c2); (r3, c3)] <->
  cell_at b r1 c1 = Ok p /\ cell_at b r2 c2 = Ok p /\ cell_at b r3 c3 = Ok p.
Proof.
  unfold owns. rewrite !Forall_cons, Forall_nil. simpl. tauto.
Qed.

Lemma check_rows_scanned w b r :
  WinChecker._check_rows_for_winner w b = Ok r ->
  match r with
  | Some p =>
      p <> NONE /\
      exists i, i ∈ range (GridSize.size (WinChecker.grid_size w)) /\
                owns b p [(i, 0); (i, 1); (i, 2)]
  | None =>
      forall i p, i ∈ range (GridSize.size (WinChecker.grid_size w)) ->
                  p <> NONE -> ~ owns b p [(i, 0); (i, 1); (i, 2)]
  end.
Proof.
  unfold WinChecker._check_rows_for_winner. intros Hr. destruct r as [p|].
  - apply for_return_Some in Hr as (i & Hi & Hcond & Hval).
    apply winning_cells_true in Hcond as (q & Hq & H0 & H1 & H2).
    assert (q = p) as -> by congruence.
    split; [done|]. exists i. split; [done|]. by apply owns_three.
  - intros i p Hi Hp Hown%owns_three.
    eapply winning_cells_false; [|done..]. by eapply for_return_None in Hr.
Qed.

Lemma check_columns_scanned w b r :
  WinChecker._check_columns_for_winner w b = Ok r ->
  match r with
  | Some p =>
      p <> NONE /\
      exists i, i ∈ range (GridSize.size (WinChecker.grid_size w)) /\
                owns b p [(0, i); (1, i); (2, i)]
  | None =>
      forall i p, i ∈ range (GridSize.size (WinChecker.grid_size w)) ->
                  p <> NONE -> ~ owns b p [(0, i); (1, i); (2, i)]
  end.
Proof.
  unfold WinChecker._check_columns_for_winner. intros Hr. destruct r as [p|].
  - apply for_return_Some in Hr as (i & Hi & Hcond & Hval).
    apply winning_cells_true in Hcond as (q & Hq & H0 & H1 & H2).
    assert (q = p) as -> by congruence.
    split; [done|]. exists i. split; [done|]. by apply owns_three.
  - intros i p Hi Hp Hown%owns_three.
    eapply winning_cells_false; [|done..]. by eapply for_return_None in Hr.
Qed.

Lemma check_diagonals_scanned w b r :
  WinChecker._check_diagonals_for_winner w b = Ok r ->
  match r with
  | Some p =>
      p <> NONE /\
      (owns b p [(0, 0); (1, 1); (2, 2)] \/ owns b p [(0, 2); (1, 1); (2, 0)])
  | None =>
      forall p, p <> NONE ->
        ~ owns b p [(0, 0); (1, 1); (2, 2)] /\ ~ owns b p [(0, 2); (1, 1); (2, 0)]
  end.
Proof.
  unfold WinChecker._check_diagonals_for_winner. unfold_monad.
  destruct (WinChecker.winning_cells (cell_at b 0 0) _ _) as [[]|] eqn:Hd1; [| |done].
  { apply winning_cells_true in Hd1 as (q & Hq & H0 & H1 & H2).
    rewrite H0. intros [= <-]. split; [done|]. left. by apply owns_three. }
  destruct (WinChecker.winning_cells (cell_at b 0 2) _ _) as [[]|] eqn:Hd2; [| |done].
  { apply winning_cells_true in Hd2 as (q & Hq & H0 & H1 & H2).
    rewrite H0. intros [= <-]. split; [done|]. right. by apply owns_three. }
  intros [= <-] p Hp. split; intros Hown%owns_three.
  - by eapply winning_cells_false in Hd1.
  - by eapply winning_cells_false in Hd2.
Qed.

Lemma elem_of_scanned_lines n l :
  l ∈ scanned_lines n <->
  (exists i, i ∈ range n /\ l = [(i, 0); (i, 1); (i, 2)]) \/
  (exists i, i ∈ range n /\ l = [(0, i); (1, i); (2, i)]) \/
  l = [(0, 0); (1, 1); (2, 2)] \/ l = [(0, 2); (1, 1); (2, 0)].
Proof.
  unfold scanned_lines. rewrite !elem_of_app, !list_elem_of_fmap.
  rewrite elem_of_cons, list_elem_of_singleton. split.
  - intros [(i & -> & Hi)|[(i & -> & Hi)|[->| ->]]]; eauto 6.
  - intros [(i & Hi & ->)|[(i & Hi & ->)|[->| ->]]]; eauto 8.
Qed.

Lemma check_for_winner_not_NONE w b p :
  WinChecker.check_for_winner w b = Ok (Some p) -> p <> NONE.
Proof.
  unfold WinChecker.check_for_winner. unfold_monad.
  destruct (WinChecker._check_rows_for_winner w b) as [[q|]|] eqn:Hrows; [| |done].
  { intros [= <-]. by destruct (check_rows_scanned _ _ _ Hrows). }
  destruct (WinChecker._check_columns_for_winner w b) as [[q|]|] eqn:Hcols; [| |done].
  { intros [= <-]. by destruct (check_columns_scanned _ _ _ Hcols). }
  intros Hdiag. by destruct (check_diagonals_scanned _ _ _ Hdiag).
Qed.

(** X1.  On a board of any shape and for any grid size, whenever the
    checker returns, its answer is decided by the three-cell lines it reads
    at the indices 0, 1 and 2: a returned player is never [NONE] and holds
    one of them, and none is returned only when no player holds any. *)
Theorem check_for_winner_reads_three_cells w b r :
  WinChecker.check_for_winner w b = Ok r ->
  match r with
  | Some p =>
      p <> NONE /\
      Exists (owns b p) (scanned_lines (GridSize.size (WinChecker.grid_size w)))
  | None =>
      forall p, p <> NONE ->
        ~ Exists (owns b p) (scanned_lines (GridSize.size (WinChecker.grid_size w)))
  end.
Proof.
  unfold WinChecker.check_for_winner. unfold_monad.
  destruct (WinChecker._check_rows_for_winner w b) as [rows|] eqn:Hrows; [|done].
  apply check_rows_scanned in Hrows. destruct rows as [p|].
  { intros [= <-]. destruct Hrows as (Hp & i & Hi & Hown). split; [done|].
    apply Exists_exists. eexists. split; [|done].
    apply elem_of_scanned_lines. eauto. }
  destruct (WinChecker._check_columns_for_winner w b) as [cols|] eqn:Hcols; [|done].
  apply check_columns_scanned in Hcols. destruct cols as [p|].
  { intros [= <-]. destruct Hcols as (Hp & i & Hi & Hown). split; [done|].
    apply Exists_exists. eexists. split; [|done].
    apply elem_of_scanned_lines. eauto. }
  intros Hdiag%check_diagonals_scanned. destruct r as [p|].
  - destruct Hdiag as (Hp & [Hown|Hown]); (split; [done|]);
      apply Exists_exists; eexists; (split; [|done]);
      apply elem_of_scanned_lines; eauto.
  - intros p Hp (l & Hl & Hown)%Exists_exists.
    apply elem_of_scanned_lines in Hl
      as [(i & Hi & ->)|[(i & Hi & ->)|[->| ->]]].
    + by eapply Hrows.
    + by eapply Hcols.
    + by destruct (Hdiag p Hp).
    + by destruct (Hdiag p Hp).
Qed.

(** On the four by four board of scenario A the answer [X] comes from the
    first three cells of the top row. *)
Lemma check_for_winner_reads_three_cells_witness :
  WinChecker.check_for_winner checker4 board4 = Ok (Some X) /\
  Exists (owns board4 X) (scanned_lines 4).
Proof.
  assert (WinChecker.check_for_winner checker4 board4 = Ok (Some X)) as Hchk
    by (vm_compute; reflexivity).
  split; [exact Hchk|].
  exact (proj2 (check_for_winner_reads_three_cells checker4 board4 (Some X) Hchk)).
Defined.


(** ** Marks and the log *)

Lemma marks_all_empty p b : all_empty b -> p <> NONE -> marks p b = 0%nat.
Proof.
  unfold all_empty, marks. intros Hb Hp. induction Hb as [|l b Hl _ IH]; [done|].
  simpl. rewrite IH.
  assert (filter (fun q => q = p) l = []) as ->; [|done].
  induction Hl as [|q l -> _ IHl]; [done|].
  rewrite filter_cons_False by (intros ?; by subst). done.
Qed.

Lemma marks_insert_row (l : list Player) j p q :
  l !! j = Some NONE -> q <> NONE ->
  length (filter (fun x => x = q) (<[j:=p]> l))
  = (length (filter (fun x => x = q) l) + if decide (p = q) then 1 else 0)%nat.
Proof.
  revert j. induction l as [|x l IH]; intros [|j] Hj Hq; simplify_eq/=.
  - rewrite (filter_cons_False _ NONE) by (intros ?; by subst).
    destruct (decide (p = q)) as [->|Hne].
    + rewrite filter_cons_True by done. simpl. lia.
    + rewrite filter_cons_False by done. lia.
  - destruct (decide (x = q)).
    + rewrite !filter_cons_True by done. simpl. by rewrite IH.
    + rewrite !filter_cons_False by done. by rewrite IH.
Qed.

Lemma marks_insert (b : matrix) i l l' q k :
  b !! i = Some l ->
  length (filter (fun x => x = q) l')
  = (length (filter (fun x => x = q) l) + k)%nat ->
  marks q (<[i:=l']> b) = (marks q b + k)%nat.
Proof.
  unfold marks. revert i. induction b as [|r b IH]; intros [|i] Hi Hl; simplify_eq/=.
  - lia.
  - rewrite (IH i) by done. lia.
Qed.

Lemma logged_snoc p h m :
  logged p (h ++ [m])
  = (logged p h + if decide (Move.player m = p) then 1 else 0)%nat.
Proof.
  unfold logged. rewrite filter_app, length_app. f_equal.
  destruct (decide (Move.player m = p)).
  - by rewrite filter_cons_True.
  - by rewrite filter_cons_False.
Qed.

Lemma place_move_insert n (gb : GameBoard.t) c p :
  is_square n (GameBoard.board gb) -> in_bounds n c ->
  cell_at (GameBoard.board gb) (GridCoordinate.row c) (GridCoordinate.col c) = Ok NONE ->
  exists l,
    GameBoard.board gb !! Z.to_nat (GridCoordinate.row c) = Some l /\
    l !! Z.to_nat (GridCoordinate.col c) = Some NONE /\
    GameBoard.place_move gb c p
    = Ok (GameBoard.mk (GameBoard.grid_size gb)
            (<[Z.to_nat (GridCoordinate.row c) :=
                 <[Z.to_nat (GridCoordinate.col c) := p]> l]> (GameBoard.board gb))).
Proof.
  destruct gb as [g b]. simpl. intros Hsq Hin Hnone.
  destruct (place_move_square n g b c p Hsq Hin) as (l & Hl & Hplace).
  exists l. split; [done|]. split; [|done]. destruct Hin as [Hr Hc].
  rewrite cell_at_nonneg in Hnone by lia. rewrite Hl in Hnone. simpl in Hnone.
  by destruct (l !! Z.to_nat (GridCoordinate.col c)); simplify_eq/=.
Qed.

Lemma replay_snoc g h m :
  replay g (h ++ [m])
  = (b ← replay g h; GameBoard.place_move b (Move.coordinate m) (Move.player m)).
Proof. unfold replay. by rewrite foldl_app. Qed.

Lemma invariant_log_fresh n : invariant_log (fresh n).
Proof.
  split_and!; try done.
  intros p Hp. unfold matrix_of; simpl.
  by rewrite marks_all_empty by (done || apply all_empty_empty).
Qed.

Lemma invariant_log_reset s : coherent s -> invariant_log (reset_state s).
Proof.
  intros (Hb & _). split_and!; try done.
  - unfold replay; simpl. unfold GameBoard.reset_board. by rewrite Hb.
  - intros p Hp. unfold matrix_of; simpl.
    by rewrite marks_all_empty by (done || apply all_empty_empty).
Qed.

Lemma invariant_log_placed c b s :
  invariant s -> invariant_log s -> valid_move c s ->
  GameBoard.place_move (board s) c (current_player s) = Ok b ->
  replay (grid_size s) (move_history (placed c b s)) = Ok b /\
  (forall p, p <> NONE ->
     logged p (move_history (placed c b s)) = marks p (GameBoard.board b)) /\
  logged NONE (move_history (placed c b s)) = 0%nat.
Proof.
  intros ((Hb & _ & _ & _ & Hsq) & Hcur & _) (_ & Hreplay & Hmarks & Hnone & _)
    (Hst & Hin & Hcell) Hplace.
  destruct (place_move_insert (size_of s) (board s) c (current_player s))
    as (l & Hl & Hlc & Hplace'); [done..|].
  rewrite Hplace in Hplace'. injection Hplace' as ->.
  unfold placed. simpl. split_and!.
  - rewrite replay_snoc, Hreplay. unfold_monad. simpl. by rewrite Hplace, Hb.
  - intros p Hp. rewrite logged_snoc. simpl. rewrite Hmarks by done.
    symmetry. eapply marks_insert; [done|]. by apply marks_insert_row.
  - rewrite logged_snoc, Hnone. simpl. by rewrite decide_False.
Qed.

Lemma invariant_log_execute_move c s :
  invariant s -> invariant_log s -> invariant_log (execute_move c s).2.
Proof.
  intros Hinv Hlog. pose proof Hinv as (Hcoh & _).
  pose proof Hlog as (Hwin & _).
  destruct (execute_move_result c s Hcoh) as [Hno|b e Hv Hp Hchk|b p Hv Hp Hchk|b Hv Hp Hchk Hfull|b Hv Hp Hchk Hfull];
    [done|pose proof (invariant_log_placed c b s Hinv Hlog Hv Hp) as (Hreplay & Hmarks & Hnone)..].
  all: destruct Hv as (Hst & _); rewrite Hst in Hwin; simpl in Hwin.
  - split_and!; try done; simpl.
    + by rewrite Hst.
    + rewrite Hwin. by intros p [=].
  - apply check_for_winner_not_NONE in Hchk as Hne.
    split_and!; try done; simpl.
    + by destruct p.
    + by intros q [= <-].
  - split_and!; try done; simpl. rewrite Hwin. by intros p [=].
  - split_and!; try done; simpl.
    + by rewrite Hst.
    + rewrite Hwin. by intros p [=].
Qed.

Lemma reachable_invariant_log s : reachable s -> invariant_log s.
Proof.
  induction 1 as [n s Hnew|o s Hs IH].
  - apply new_game_fresh in Hnew as [_ ->]. apply invariant_log_fresh.
  - apply reachable_invariant in Hs as Hinv.
    destruct (perform_cases o s) as [->|[->|[c ->]]]; [done| |].
    + apply invariant_log_reset. by destruct Hinv.
    + by apply invariant_log_execute_move.
Qed.

(** X2.  In every reachable state the winner attribute and the status agree:
    the winner is [X] exactly in status [X_WINS], [O] exactly in [O_WINS],
    and none exactly in [IN_PROGRESS] and [TIE]; it is never [NONE]; and a
    winner is the player the checker finds on the board as it stands. *)
Theorem winner_status_coherence s :
  reachable s ->
  (winner s = Some X <-> status s = X_WINS) /\
  (winner s = Some O <-> status s = O_WINS) /\
  (winner s = None <-> status s = IN_PROGRESS \/ status s = TIE) /\
  winner s <> Some NONE /\
  (forall p, winner s = Some p ->
     WinChecker.check_for_winner (win_checker s) (matrix_of s) = Ok (Some p)).
Proof.
  intros Hs. apply reachable_invariant_log in Hs as (Hwin & _ & _ & _ & Hchk).
  split_and!; [..|exact Hchk]; rewrite Hwin; destruct (status s); simpl;
    try done;
    split; intros H;
    solve [done | discriminate H | by left | by right | destruct H; done].
Qed.

Lemma winner_status_coherence_witness :
  reachable (run scenario_A (fresh 3)) /\
  winner (run scenario_A (fresh 3)) = Some X /\
  status (run scenario_A (fresh 3)) = X_WINS.
Proof.
  assert (reachable (run scenario_A (fresh 3))) as Hreach.
  { apply reachable_run, reachable_fresh. lia. }
  split; [exact Hreach|].
  assert (winner (run scenario_A (fresh 3)) = Some X) as Hwin
    by (vm_compute; reflexivity).
  split; [exact Hwin|].
  destruct (winner_status_coherence _ Hreach) as (HX & _).
  apply HX, Hwin.
Defined.

(** X3.  In every reachable state the board is the replay of the move log:
    placing the logged moves in order on an empty board of the game's size
    succeeds and gives exactly the board. *)
Theorem board_is_replay_of_log s :
  reachable s ->
  replay (grid_size s) (move_history s) = Ok (board s).
Proof.
  intros Hs. by apply reachable_invariant_log in Hs as (_ & Hreplay & _).
Qed.

Lemma board_is_replay_of_log_witness :
  reachable (run scenario_B (fresh 3)) /\
  replay (GridSize.mk 3) (move_history (run scenario_B (fresh 3)))
  = Ok (GameBoard.mk (GridSize.mk 3) (board3 X O X O O X X X O)).
Proof.
  assert (reachable (run scenario_B (fresh 3))) as Hreach.
  { apply reachable_run, reachable_fresh. lia. }
  split; [exact Hreach|].
  exact (board_is_replay_of_log _ Hreach).
Defined.

(** X4.  In every reachable state each player has as many marks on the
    board as moves in the log, and every logged move is by [X] or [O]. *)
Theorem marks_match_log s :
  reachable s ->
  logged X (move_history s) = marks X (matrix_of s) /\
  logged O (move_history s) = marks O (matrix_of s) /\
  Forall (fun m => Move.player m <> NONE) (move_history s).
Proof.
  intros Hs. apply reachable_invariant_log in Hs as (_ & _ & Hmarks & Hnone & _).
  split_and!; [by apply Hmarks..|].
  unfold logged in Hnone. apply Forall_forall. intros m Hm Hp.
  assert (m ∈ filter (fun m => Move.player m = NONE) (move_history s)) as Hin
    by (by apply list_elem_of_filter).
  destruct (filter _ (move_history s)); [by apply elem_of_nil in Hin|done].
Qed.

Lemma marks_match_log_witness :
  reachable (run scenario_B (fresh 3)) /\
  marks X (matrix_of (run scenario_B (fresh 3))) = 5%nat /\
  logged X (move_history (run scenario_B (fresh 3))) = 5%nat.
Proof.
  assert (reachable (run scenario_B (fresh 3))) as Hreach.
  { apply reachable_run, reachable_fresh. lia. }
  split; [exact Hreach|].
  assert (marks X (matrix_of (run scenario_B (fresh 3))) = 5%nat) as Hm
    by (vm_compute; reflexivity).
  split; [exact Hm|].
  destruct (marks_match_log _ Hreach) as (HX & _). by rewrite HX.
Defined.

(** ** Nothing is erased *)

Lemma execute_move_keeps_marks c s :
  coherent s ->
  move_history s `prefix_of` move_history (execute_move c s).2 /\
  (length (move_history (execute_move c s).2) <= S (length (move_history s)))%nat /\
  forall r k p, 0 <= r -> 0 <= k -> p <> NONE ->
    cell_at (matrix_of s) r k = Ok p ->
    cell_at (matrix_of (execute_move c s).2) r k = Ok p.
Proof.
  intros Hcoh.
  assert (forall b, valid_move c s ->
            GameBoard.place_move (board s) c (current_player s) = Ok b ->
            forall r k p, 0 <= r -> 0 <= k -> p <> NONE ->
              cell_at (matrix_of s) r k = Ok p ->
              cell_at (GameBoard.board b) r k = Ok p) as Hframe.
  { intros b (_ & Hin & Hnone) Hplace r k p Hr Hk Hp Hcell.
    destruct Hcoh as (_ & _ & _ & _ & Hsq).
    destruct (place_move_spec (size_of s) (board s) c (current_player s))
      as (b' & Hplace' & _ & _ & Hsame & _); [done..|].
    rewrite Hplace in Hplace'. injection Hplace' as ->. simpl.
    rewrite Hsame; [done..|]. intros [= -> ->]. unfold matrix_of in *. congruence. }
  destruct (execute_move_result c s Hcoh)
    as [Hno|b e Hv Hp Hchk|b p Hv Hp Hchk|b Hv Hp Hchk Hfull|b Hv Hp Hchk Hfull].
  - split_and!; [done|lia|done].
  - split_and!; [by apply prefix_app_r|simpl; rewrite length_app; simpl; lia|].
    by apply Hframe.
  - split_and!; [by apply prefix_app_r|simpl; rewrite length_app; simpl; lia|].
    by apply Hframe.
  - split_and!; [by apply prefix_app_r|simpl; rewrite length_app; simpl; lia|].
    by apply Hframe.
  - split_and!; [by apply prefix_app_r|simpl; rewrite length_app; simpl; lia|].
    by apply Hframe.
Qed.

Lemma perform_keeps_marks o s :
  coherent s -> is_reset o = false ->
  move_history s `prefix_of` move_history (perform o s) /\
  (length (move_history (perform o s)) <= S (length (move_history s)))%nat /\
  forall r k p, 0 <= r -> 0 <= k -> p <> NONE ->
    cell_at (matrix_of s) r k = Ok p ->
    cell_at (matrix_of (perform o s)) r k = Ok p.
Proof.
  intros Hcoh Ho. destruct o; try done; unfold perform.
  - by apply execute_move_keeps_marks.
  - rewrite attempt_move_state. by apply execute_move_keeps_marks.
  - rewrite is_valid_move_unfold. simpl. split_and!; [done|lia|done].
  - simpl. split_and!; [done|lia|done].
  - simpl. split_and!; [done|lia|done].
Qed.

(** X5.  Between resets the move log is append-only: after any operations
    without a reset the earlier log is a prefix of the later one, and it has
    grown by at most one entry per operation. *)
Theorem log_is_append_only s ops :
  reachable s ->
  forallb (fun o => negb (is_reset o)) ops = true ->
  move_history s `prefix_of` move_history (run ops s) /\
  (length (move_history (run ops s)) <= length (move_history s) + length ops)%nat.
Proof.
  revert s. induction ops as [|o ops IH]; intros s Hs Hops.
  - simpl. split; [done|lia].
  - simpl in Hops. apply andb_prop in Hops as [Ho Hops].
    apply negb_true_iff in Ho.
    apply reachable_invariant in Hs as Hinv. destruct Hinv as (Hcoh & _).
    destruct (perform_keeps_marks o s Hcoh Ho) as (Hpre & Hlen & _).
    destruct (IH (perform o s)) as [Hpre' Hlen']; [by apply reachable_perform|done|].
    simpl. split; [by etrans|lia].
Qed.

(** The log after three moves of scenario A is a prefix of the log after a
    rejected move and the two remaining moves. *)
Lemma log_is_append_only_witness :
  reachable (run (take 3 scenario_A) (fresh 3)) /\
  move_history (run (take 3 scenario_A) (fresh 3))
    `prefix_of`
  move_history (run (op_execute_move (at_ 0 0) :: drop 3 scenario_A)
                  (run (take 3 scenario_A) (fresh 3))).
Proof.
  assert (reachable (run (take 3 scenario_A) (fresh 3))) as Hreach.
  { apply reachable_run, reachable_fresh. lia. }
  split; [exact Hreach|].
  apply log_is_append_only; [exact Hreach|vm_compute; reflexivity].
Defined.

(** X6.  Between resets a mark is never erased or overwritten: a cell that
    holds a player keeps that player through any operations without a
    reset. *)
Theorem marks_are_never_overwritten s ops r k p :
  reachable s ->
  forallb (fun o => negb (is_reset o)) ops = true ->
  0 <= r -> 0 <= k -> p <> NONE ->
  cell_at (matrix_of s) r k = Ok p ->
  cell_at (matrix_of (run ops s)) r k = Ok p.
Proof.
  intros Hs Hops Hr Hk Hp. revert s Hs Hops.
  induction ops as [|o ops IH]; intros s Hs Hops Hcell; [done|].
  simpl in Hops. apply andb_prop in Hops as [Ho Hops].
  apply negb_true_iff in Ho.
  apply reachable_invariant in Hs as Hinv. destruct Hinv as (Hcoh & _).
  destruct (perform_keeps_marks o s Hcoh Ho) as (_ & _ & Hkeep).
  simpl. apply IH; [by apply reachable_perform|done|by apply Hkeep].
Qed.

(** The centre taken by [X] on the first move is still [X] after the same
    cell is asked for again and three more moves are made. *)
Lemma marks_are_never_overwritten_witness :
  reachable (run [op_execute_move (at_ 1 1)] (fresh 3)) /\
  cell_at (matrix_of (run [op_execute_move (at_ 1 1)] (fresh 3))) 1 1 = Ok X /\
  cell_at
    (matrix_of
       (run [op_attempt_move (at_ 1 1); op_execute_move (at_ 0 0);
             op_execute_move (at_ 1 1); op_execute_move (at_ 2 2)]
          (run [op_execute_move (at_ 1 1)] (fresh 3)))) 1 1 = Ok X.
Proof.
  assert (reachable (run [op_execute_move (at_ 1 1)] (fresh 3))) as Hreach.
  { apply reachable_run, reachable_fresh. lia. }
  split; [exact Hreach|].
  assert (cell_at (matrix_of (run [op_execute_move (at_ 1 1)] (fresh 3))) 1 1
          = Ok X) as Hcell by (vm_compute; reflexivity).
  split; [exact Hcell|].
  apply marks_are_never_overwritten;
    [exact Hreach|reflexivity|lia|lia|discriminate|exact Hcell].
Defined.

(** ** Turns, on boards of side three or more *)

Lemma perform_grid_size o s :
  coherent s -> grid_size (perform o s) = grid_size s.
Proof.
  intros Hcoh. destruct (perform_cases o s) as [->|[->|[c ->]]]; [done..|].
  by destruct (execute_move_result c s Hcoh).
Qed.

Lemma not_full_empty g :
  1 <= GridSize.size g -> ~ no_empty_cell (GameBoard._create_empty_board g).
Proof.
  intros Hg Hfull. unfold no_empty_cell, GameBoard._create_empty_board in Hfull.
  assert (0 ∈ range (GridSize.size g)) as H0 by (apply elem_of_range; lia).
  rewrite Forall_fmap, Forall_forall in Hfull. specialize (Hfull 0 H0).
  simpl in Hfull. rewrite Forall_fmap, Forall_forall in Hfull.
  by specialize (Hfull 0 H0).
Qed.

Lemma invariant_turns_fresh n : 1 <= n -> invariant_turns (fresh n).
Proof.
  intros Hn. split; [by intros i p Hi|]. split; [|done].
  intros _. split; [done|]. by apply (not_full_empty (GridSize.mk n)).
Qed.

Lemma invariant_turns_reset s : coherent s -> invariant_turns (reset_state s).
Proof.
  intros (Hb & _ & _ & Hn & _). split; [by intros i p Hi|]. split; [|done].
  intros _. split; [done|]. unfold matrix_of; simpl.
  apply not_full_empty. rewrite Hb. unfold size_of in Hn. lia.
Qed.

Lemma invariant_turns_execute_move c s :
  invariant s -> 3 <= size_of s -> invariant_turns s ->
  invariant_turns (execute_move c s).2.
Proof.
  intros ((Hb & Hv & Hw & Hn & Hsq) & _) H3 (Halt & Hprog & Hterm).
  assert (coherent s) as Hcoh by done.
  assert (forall b, valid_move c s ->
            GameBoard.place_move (board s) c (current_player s) = Ok b ->
            alternates_from_X (map Move.player (move_history (placed c b s))) /\
            is_ok (WinChecker.check_for_winner (win_checker s) (GameBoard.board b)))
    as Hplaced.
  { intros b (Hst & Hin & Hnone) Hplace. split.
    - simpl. rewrite map_app. apply alternates_from_X_snoc; [done|].
      simpl. rewrite length_map. by apply Hprog.
    - destruct (place_move_spec (size_of s) (board s) c (current_player s))
        as (b' & Hplace' & Hsq' & _); [done..|].
      rewrite Hplace in Hplace'. injection Hplace' as ->. simpl.
      apply check_for_winner_ok; unfold size_of in *; by rewrite Hw. }
  destruct (execute_move_result c s Hcoh)
    as [Hno|b e Hv' Hp Hchk|b p Hv' Hp Hchk|b Hv' Hp Hchk Hfull|b Hv' Hp Hchk Hfull];
    [done|destruct (Hplaced b Hv' Hp) as [Halt' Hok]..].
  - by rewrite Hchk in Hok.
  - split_and!; [done| |].
    + simpl. by destruct (bool_decide (p = X)).
    + intros _. simpl. rewrite last_snoc. by eexists.
  - split_and!; [done|done|].
    intros _. simpl. rewrite last_snoc. by eexists.
  - destruct Hv' as (Hst & _). split_and!; [done| |by simpl].
    intros _. simpl. split; [|done].
    rewrite length_app, Nat.add_1_r, Nat.even_succ, <- Nat.negb_even.
    destruct (Hprog Hst) as [-> _]. unfold other.
    by destruct (Nat.even (length (move_history s))).
Qed.

Lemma reachable_invariant_turns s :
  reachable s -> 3 <= size_of s -> invariant_turns s.
Proof.
  induction 1 as [n s Hnew|o s Hs IH]; intros H3.
  - apply new_game_fresh in Hnew as [Hn ->]. apply invariant_turns_fresh. lia.
  - apply reachable_invariant in Hs as Hinv. pose proof Hinv as (Hcoh & _).
    unfold size_of in H3. rewrite perform_grid_size in H3 by done.
    specialize (IH H3).
    destruct (perform_cases o s) as [->|[->|[c ->]]]; [done| |].
    + by apply invariant_turns_reset.
    + by apply invariant_turns_execute_move.
Qed.

Lemma alternates_from_X_counts h :
  alternates_from_X (map Move.player h) ->
  logged X h = (logged O h + if Nat.even (length h) then 0 else 1)%nat.
Proof.
  induction h as [|m h IH] using rev_ind; [done|]. intros Halt.
  assert (alternates_from_X (map Move.player h)) as Hh.
  { intros i p Hi. apply Halt. rewrite map_app. by apply lookup_app_l_Some. }
  assert (Move.player m = if Nat.even (length h) then X else O) as Hm.
  { apply (Halt (length h)). rewrite map_app.
    rewrite lookup_app_r by (by rewrite length_map).
    by rewrite length_map, Nat.sub_diag. }
  rewrite !logged_snoc, length_app, Nat.add_1_r, Nat.even_succ, <- Nat.negb_even.
  rewrite (IH Hh), Hm.
  destruct (Nat.even (length h)); simpl;
    repeat (case_decide; try done); lia.
Qed.

(** X7.  On a board of side three or more, in every reachable state the
    logged moves are by [X, O, X, ...] in turn, [X] has as many marks on the
    board as [O] or one more, and while the game is in progress it is [X]'s
    turn exactly when the marks are level. *)
Theorem marks_are_balanced s :
  reachable s -> 3 <= size_of s ->
  alternates_from_X (map Move.player (move_history s)) /\
  (marks X (matrix_of s) = marks O (matrix_of s) \/
   marks X (matrix_of s) = S (marks O (matrix_of s))) /\
  (status s = IN_PROGRESS ->
   (current_player s = X <-> marks X (matrix_of s) = marks O (matrix_of s))).
Proof.
  intros Hs H3.
  destruct (reachable_invariant_turns s Hs H3) as (Halt & Hprog & _).
  apply reachable_invariant_log in Hs as (_ & _ & Hmarks & _).
  pose proof (alternates_from_X_counts _ Halt) as Hcount.
  rewrite !Hmarks in Hcount by done.
  split; [done|]. split.
  - destruct (Nat.even (length (move_history s))); lia.
  - intros Hst. destruct (Hprog Hst) as [-> _].
    destruct (Nat.even (length (move_history s))); split; (done || lia).
Qed.

Lemma marks_are_balanced_witness :
  reachable (run (take 3 scenario_B) (fresh 3)) /\
  3 <= size_of (run (take 3 scenario_B) (fresh 3)) /\
  marks X (matrix_of (run (take 3 scenario_B) (fresh 3)))
  = S (marks O (matrix_of (run (take 3 scenario_B) (fresh 3)))) /\
  current_player (run (take 3 scenario_B) (fresh 3)) <> X.
Proof.
  assert (reachable (run (take 3 scenario_B) (fresh 3))) as Hreach.
  { apply reachable_run, reachable_fresh. lia. }
  assert (3 <= size_of (run (take 3 scenario_B) (fresh 3))) as H3
    by (vm_compute; discriminate).
  assert (marks X (matrix_of (run (take 3 scenario_B) (fresh 3)))
          = S (marks O (matrix_of (run (take 3 scenario_B) (fresh 3))))) as Hm
    by (vm_compute; reflexivity).
  split; [exact Hreach|]. split; [exact H3|]. split; [exact Hm|].
  destruct (marks_are_balanced _ Hreach H3) as (_ & _ & Hturn).
  intros HX. apply Hturn in HX; [|vm_compute; reflexivity].
  rewrite Hm in HX. lia.
Defined.

(** ** The end of a three by three game *)

Lemma no_line_on_empty_3 p :
  ~ complete_line 3 (GameBoard._create_empty_board (GridSize.mk 3)) p.
Proof. revert p. by_decision. Qed.

(** Every complete line on the board belongs to the declared winner. *)
Lemma reachable_lines_belong_to_winner s :
  reachable s -> size_of s = 3 ->
  forall p, complete_line 3 (matrix_of s) p -> winner s = Some p.
Proof.
  induction 1 as [n s Hnew|o s Hs IH]; intros H3 p Hline.
  - apply new_game_fresh in Hnew as [Hn ->]. unfold size_of in H3. simpl in H3.
    subst n. by apply no_line_on_empty_3 in Hline.
  - apply reachable_invariant in Hs as Hinv.
    pose proof Hinv as (Hcoh & _ & _ & _ & Hprog).
    pose proof Hcoh as (Hb & Hv & Hw & _ & Hsq).
    unfold size_of in H3. rewrite perform_grid_size in H3 by done.
    fold (size_of s) in H3. specialize (IH H3). revert Hline.
    destruct (perform_cases o s) as [->|[->|[c ->]]]; [by apply IH| |].
    { unfold matrix_of, reset_state, GameBoard.reset_board; simpl.
      rewrite Hb. unfold size_of in H3. destruct (grid_size s) as [n].
      simpl in H3. subst n. intros Hline. by apply no_line_on_empty_3 in Hline. }
    assert (GridSize.size (WinChecker.grid_size (win_checker s)) = 3) as Hw3
      by (by rewrite Hw).
    rewrite H3 in Hsq.
    destruct (execute_move_result c s Hcoh)
      as [Hno|b e Hv' Hp Hchk|b q Hv' Hp Hchk|b Hv' Hp Hchk Hfull|b Hv' Hp Hchk Hfull];
      [by apply IH|..]; intros Hline; unfold matrix_of in Hline; simpl in Hline.
    all: pose proof Hv' as (Hst & Hin & Hnone).
    all: destruct (place_move_spec (size_of s) (board s) c (current_player s))
           as (b' & Hplace' & Hsq' & Hcell & Hframe & _); [by rewrite H3|done..|].
    all: rewrite Hp in Hplace'; injection Hplace' as ->; simpl in *.
    all: rewrite H3 in Hsq'.
    all: destruct (check_for_winner_sound3 _ _ Hw3 Hsq') as (r & Hr & Hsome & Hno).
    all: rewrite Hchk in Hr; simplify_eq.
    + assert (forall q', ~ complete_line 3 (matrix_of s) q') as Hnoline.
      { destruct (check_for_winner_sound3 _ _ Hw3 Hsq) as (r & Hr & Hsome' & Hno').
        destruct r as [q'|]; [|by apply Hno']. by destruct (Hprog Hst q'). }
      f_equal.
      transitivity (current_player s).
      * eapply (complete_line_after_move 3 (matrix_of s)); [done..|].
        by apply Hsome.
      * symmetry. by eapply (complete_line_after_move 3 (matrix_of s)).
    + by destruct (Hno eq_refl p).
    + by destruct (Hno eq_refl p).
Qed.

(** X8.  On the three by three grid, in every reachable state the game is
    over exactly when some player holds a complete line or the board is
    full; the winner is the one player who holds a complete line, so two
    players never hold one at the same time; and the status is [TIE] exactly
    when the board is full without a line. *)
Theorem game_over_iff_line_or_full_board s :
  reachable s -> size_of s = 3 ->
  (status s <> IN_PROGRESS <->
     (exists p, complete_line 3 (matrix_of s) p) \/ no_empty_cell (matrix_of s)) /\
  (forall p, winner s = Some p <-> complete_line 3 (matrix_of s) p) /\
  (status s = TIE <->
     no_empty_cell (matrix_of s) /\ forall p, ~ complete_line 3 (matrix_of s) p).
Proof.
  intros Hs H3.
  pose proof (reachable_lines_belong_to_winner s Hs H3) as Hlines.
  destruct (reachable_invariant_turns s Hs) as (_ & Hprog' & _); [lia|].
  pose proof (reachable_invariant_log s Hs) as (Hwin & _ & _ & _ & Hchk).
  apply reachable_invariant in Hs as (Hcoh & _ & _ & Htie & Hprog).
  destruct Hcoh as (_ & _ & Hw & _ & Hsq). rewrite H3 in Hsq.
  assert (GridSize.size (WinChecker.grid_size (win_checker s)) = 3) as Hw3
    by (by rewrite Hw).
  destruct (check_for_winner_sound3 _ _ Hw3 Hsq) as (r & Hr & Hsome & Hno).
  assert (forall p, winner s = Some p -> complete_line 3 (matrix_of s) p) as Hwinline.
  { intros p Hp. apply Hsome. specialize (Hchk p Hp). congruence. }
  split_and!.
  - split.
    + intros Hst. destruct (status s) eqn:Hstatus; [done|left..|right].
      * exists X. by apply Hwinline.
      * exists O. by apply Hwinline.
      * by apply Htie.
    + intros [[p Hp]|Hfull] Hst.
      * apply Hlines in Hp. rewrite Hwin, Hst in Hp. done.
      * by destruct (Hprog' Hst).
  - intros p. split; [apply Hwinline|apply Hlines].
  - split.
    + intros Hst. split; [by apply Htie|]. intros p Hp%Hlines.
      rewrite Hwin, Hst in Hp. done.
    + intros [Hfull Hnoline]. destruct (status s) eqn:Hstatus; [|..|done].
      * by destruct (Hprog' eq_refl).
      * destruct (Hnoline X). by apply Hwinline.
      * destruct (Hnoline O). by apply Hwinline.
Qed.

Lemma game_over_iff_line_or_full_board_witness :
  reachable (run scenario_A (fresh 3)) /\
  size_of (run scenario_A (fresh 3)) = 3 /\
  complete_line 3 (matrix_of (run scenario_A (fresh 3))) X /\
  status (run scenario_A (fresh 3)) <> IN_PROGRESS /\
  ~ complete_line 3 (matrix_of (run scenario_A (fresh 3))) O.
Proof.
  assert (reachable (run scenario_A (fresh 3))) as Hreach.
  { apply reachable_run, reachable_fresh. lia. }
  assert (size_of (run scenario_A (fresh 3)) = 3) as H3 by (vm_compute; reflexivity).
  assert (complete_line 3 (matrix_of (run scenario_A (fresh 3))) X) as HX
    by by_decision.
  destruct (game_over_iff_line_or_full_board _ Hreach H3) as (Hover & Hwin & _).
  split_and!; [exact Hreach|exact H3|exact HX| |].
  - apply Hover. left. by exists X.
  - intros HO. apply Hwin in HX, HO. rewrite HX in HO. discriminate HO.
Defined.

(** ** Reading cells *)

(** X9.  [get_cell] is safe in every reachable state and for every
    coordinate: it returns without raising or changing the state, the
    content of the cell for a coordinate within the grid and [NONE] for any
    other; and it answers [NONE] wherever [is_valid_move] answers true. *)
Theorem get_cell_is_defensive s c :
  reachable s ->
  exists p,
    get_cell c s = (Ok p, s) /\
    (in_bounds (size_of s) c ->
     cell_at (matrix_of s) (GridCoordinate.row c) (GridCoordinate.col c) = Ok p) /\
    (~ in_bounds (size_of s) c -> p = NONE) /\
    ((is_valid_move c s).1 = Ok true -> p = NONE).
Proof.
  intros Hs. apply reachable_invariant in Hs as (Hcoh & _).
  pose proof Hcoh as (Hb & _ & _ & _ & Hsq).
  rewrite is_valid_move_coherent by done.
  unfold get_cell, eval, GameBoard.get_cell_player, GameBoard._is_position_valid,
    GridSize.is_valid_coordinate, GridCoordinate.is_valid_for_grid.
  rewrite Hb. fold (size_of s). fold (matrix_of s).
  destruct (decide (in_bounds (size_of s) c)) as [Hin|Hout].
  - pose proof Hin as [Hr Hc].
    destruct (cell_at_square _ _ _ _ Hsq Hr Hc) as [p Hp].
    exists p. rewrite Hp.
    destruct (Z.leb_spec 0 (GridCoordinate.row c)); [|lia].
    destruct (Z.ltb_spec (GridCoordinate.row c) (size_of s)); [|lia].
    destruct (Z.leb_spec 0 (GridCoordinate.col c)); [|lia].
    destruct (Z.ltb_spec (GridCoordinate.col c) (size_of s)); [|lia].
    simpl. split_and!; [done|done|done|].
    intros [= Hv%bool_decide_eq_true]. destruct Hv as (_ & _ & Hnone). congruence.
  - exists NONE.
    assert (((0 <=? GridCoordinate.row c) && (GridCoordinate.row c <? size_of s))
            && ((0 <=? GridCoordinate.col c) && (GridCoordinate.col c <? size_of s))
            = false) as ->.
    { apply not_true_iff_false. intros H. apply Hout.
      apply andb_prop in H as [H1 H2].
      apply andb_prop in H1 as [?%Z.leb_le ?%Z.ltb_lt].
      apply andb_prop in H2 as [?%Z.leb_le ?%Z.ltb_lt]. by split. }
    split_and!; done.
Qed.

Lemma get_cell_is_defensive_witness :
  reachable (run [op_execute_move (at_ 1 1)] (fresh 3)) /\
  (exists p, get_cell (at_ 1 1) (run [op_execute_move (at_ 1 1)] (fresh 3))
             = (Ok p, run [op_execute_move (at_ 1 1)] (fresh 3)) /\ p = X) /\
  (exists p, get_cell (at_ 7 0) (run [op_execute_move (at_ 1 1)] (fresh 3))
             = (Ok p, run [op_execute_move (at_ 1 1)] (fresh 3)) /\ p = NONE).
Proof.
  assert (reachable (run [op_execute_move (at_ 1 1)] (fresh 3))) as Hreach.
  { apply reachable_run, reachable_fresh. lia. }
  split; [exact Hreach|]. split.
  - destruct (get_cell_is_defensive _ (at_ 1 1) Hreach) as (p & Hget & Hin & _).
    exists p. split; [exact Hget|].
    assert (Ok X = Ok p) as [= <-]; [|reflexivity].
    rewrite <- Hin; [vm_compute; reflexivity|].
    change (in_bounds 3 (at_ 1 1)). unfold in_bounds. simpl. lia.
  - destruct (get_cell_is_defensive _ (at_ 7 0) Hreach) as (p & Hget & _ & Hout & _).
    exists p. split; [exact Hget|]. apply Hout.
    change (~ in_bounds 3 (at_ 7 0)). unfold in_bounds. simpl. lia.
Defined.

(** X10.  Reading back a move: after an accepted move at [c], [get_cell c]
    returns the player who moved, and [get_cell] at every other coordinate
    returns what it returned before. *)
Theorem get_cell_after_move s c s' :
  reachable s -> execute_move c s = (Ok true, s') ->
  (get_cell c s').1 = Ok (current_player s) /\
  forall c', c' <> c -> (get_cell c' s').1 = (get_cell c' s).1.
Proof.
  intros Hs Hexec. apply reachable_invariant in Hs as (Hcoh & _).
  pose proof (execute_move_result c s Hcoh) as Hres. rewrite Hexec in Hres.
  simpl in Hres.
  assert (exists b, valid_move c s /\
            GameBoard.place_move (board s) c (current_player s) = Ok b /\
            board s' = b) as (b & (Hst & Hin & Hnone) & Hplace & Hboard).
  { inversion Hres; subst; eauto. }
  destruct Hcoh as (Hb & _ & _ & _ & Hsq).
  destruct (place_move_spec (size_of s) (board s) c (current_player s))
    as (b' & Hplace' & _ & Hcell & Hframe & _); [done..|].
  assert (board s' = GameBoard.mk (GameBoard.grid_size (board s)) b') as Hboard'
    by congruence.
  unfold get_cell, eval, GameBoard.get_cell_player, GameBoard._is_position_valid,
    GridSize.is_valid_coordinate. cbn [fst]. rewrite Hboard'.
  cbn [GameBoard.grid_size GameBoard.board].
  split.
  - rewrite Hb. unfold GridCoordinate.is_valid_for_grid.
    destruct Hin as [Hr Hc]. unfold size_of in Hr, Hc.
    destruct (Z.leb_spec 0 (GridCoordinate.row c)); [|lia].
    destruct (Z.ltb_spec (GridCoordinate.row c) (GridSize.size (grid_size s))); [|lia].
    destruct (Z.leb_spec 0 (GridCoordinate.col c)); [|lia].
    destruct (Z.ltb_spec (GridCoordinate.col c) (GridSize.size (grid_size s))); [|lia].
    done.
  - intros c' Hne. unfold GridCoordinate.is_valid_for_grid.
    destruct (0 <=? GridCoordinate.row c') eqn:Hr; [|done].
    destruct (GridCoordinate.row c' <? _) eqn:Hr'; [|done].
    destruct (0 <=? GridCoordinate.col c') eqn:Hc; [|done].
    destruct (GridCoordinate.col c' <? _) eqn:Hc'; [|done].
    simpl. apply Z.leb_le in Hr, Hc. apply Hframe; [done..|].
    intros [= Hrow Hcol]. apply Hne. destruct c, c'. simpl in *. by subst.
Qed.

Lemma get_cell_after_move_witness :
  reachable (fresh 3) /\
  execute_move (at_ 1 1) (fresh 3)
  = (Ok true, run [op_execute_move (at_ 1 1)] (fresh 3)) /\
  (get_cell (at_ 1 1) (run [op_execute_move (at_ 1 1)] (fresh 3))).1 = Ok X.
Proof.
  assert (reachable (fresh 3)) as Hreach by (apply reachable_fresh; lia).
  assert (execute_move (at_ 1 1) (fresh 3)
          = (Ok true, run [op_execute_move (at_ 1 1)] (fresh 3))) as Hexec
    by (vm_compute; reflexivity).
  split; [exact Hreach|]. split; [exact Hexec|].
  exact (proj1 (get_cell_after_move _ _ _ Hreach Hexec)).
Defined.

(** ** Counting cells *)

Lemma row_partition (l : list Player) :
  (length (filter (fun p => p <> NONE) l) + length (filter (fun p => p = NONE) l)
   = length l)%nat.
Proof.
  induction l as [|p l IH]; [done|]. destruct (decide (p = NONE)) as [->|Hp].
  - rewrite filter_cons_False by (intros H; by apply H).
    rewrite filter_cons_True by done. simpl. lia.
  - rewrite filter_cons_True by done.
    rewrite (filter_cons_False (fun p => p = NONE)) by done. simpl. lia.
Qed.

Lemma board_partition (b : matrix) :
  (occupied b + marks NONE b = length (concat b))%nat.
Proof.
  unfold occupied, marks. induction b as [|l b IH]; [done|].
  simpl. rewrite length_app. pose proof (row_partition l). lia.
Qed.

Lemma length_concat_square n (b : matrix) :
  is_square n b -> Z.of_nat (length (concat b)) = Z.of_nat (Z.to_nat n) * Z.of_nat (Z.to_nat n).
Proof.
  intros [Hlen Hrows].
  assert (length (concat b) = (length b * Z.to_nat n)%nat) as ->.
  { clear Hlen. induction Hrows as [|l b Hl _ IH]; [done|].
    simpl. rewrite length_app, IH, Hl. lia. }
  rewrite Hlen. lia.
Qed.

Lemma no_empty_cell_marks (b : matrix) :
  no_empty_cell b <-> marks NONE b = 0%nat.
Proof.
  unfold no_empty_cell, marks. induction b as [|l b IH].
  - by split.
  - rewrite Forall_cons. simpl. rewrite IH.
    assert (Forall (fun p => p <> NONE) l
            <-> length (filter (fun q => q = NONE) l) = 0%nat) as ->; [|lia].
    induction l as [|p l IHl]; [by split|].
    rewrite Forall_cons, IHl. destruct (decide (p = NONE)) as [->|Hp].
    + rewrite filter_cons_True by done. simpl. split; [by intros [? _]|lia].
    + rewrite filter_cons_False by done. tauto.
Qed.

(** X11.  In every reachable state the moves made and the empty cells add
    up to the cells of the grid, [size * size]: the board neither grows nor
    shrinks, and a game never holds more moves than the grid has cells. *)
Theorem moves_and_empty_cells_fill_the_grid s :
  reachable s ->
  Z.of_nat (length (concat (matrix_of s))) = GridSize.get_total_cells (grid_size s) /\
  Z.of_nat (length (move_history s) + marks NONE (matrix_of s))
  = GridSize.get_total_cells (grid_size s) /\
  Z.of_nat (length (move_history s)) <= GridSize.get_total_cells (grid_size s).
Proof.
  intros Hs. apply reachable_invariant in Hs as ((_ & _ & _ & Hn & Hsq) & _ & Hlog & _).
  pose proof (length_concat_square _ _ Hsq) as Hcells.
  pose proof (board_partition (matrix_of s)) as Hpart.
  unfold GridSize.get_total_cells. fold (size_of s).
  rewrite !Z2Nat.id in Hcells by lia. rewrite Hlog. lia.
Qed.

Lemma moves_and_empty_cells_fill_the_grid_witness :
  reachable (run scenario_A (fresh 3)) /\
  Z.of_nat (5 + marks NONE (matrix_of (run scenario_A (fresh 3)))) = 9.
Proof.
  assert (reachable (run scenario_A (fresh 3))) as Hreach.
  { apply reachable_run, reachable_fresh. lia. }
  split; [exact Hreach|].
  exact (proj1 (proj2 (moves_and_empty_cells_fill_the_grid _ Hreach))).
Defined.

(** X12.  In every reachable state [is_board_full] returns without
    raising, and it returns true exactly when no cell is [NONE], which is
    exactly when the log holds [size * size] moves. *)
Theorem is_board_full_iff_all_moves_made s :
  reachable s ->
  exists r,
    BoardValidator.is_board_full (validator s) (matrix_of s) = Ok r /\
    (r = true <-> no_empty_cell (matrix_of s)) /\
    (r = true <->
     Z.of_nat (length (move_history s)) = GridSize.get_total_cells (grid_size s)).
Proof.
  intros Hs. apply reachable_invariant in Hs as ((_ & Hv & _ & Hn & Hsq) & _ & Hlog & _).
  exists (bool_decide (no_empty_cell (matrix_of s))). split_and!.
  - apply is_board_full_square. unfold size_of in Hsq. by rewrite Hv.
  - apply bool_decide_eq_true.
  - rewrite bool_decide_eq_true, no_empty_cell_marks.
    pose proof (length_concat_square _ _ Hsq) as Hcells.
    pose proof (board_partition (matrix_of s)) as Hpart.
    unfold GridSize.get_total_cells. fold (size_of s).
    rewrite !Z2Nat.id in Hcells by lia. rewrite Hlog. lia.
Qed.

Lemma is_board_full_iff_all_moves_made_witness :
  reachable (run scenario_B (fresh 3)) /\
  BoardValidator.is_board_full (validator (run scenario_B (fresh 3)))
    (matrix_of (run scenario_B (fresh 3))) = Ok true.
Proof.
  assert (reachable (run scenario_B (fresh 3))) as Hreach.
  { apply reachable_run, reachable_fresh. lia. }
  split; [exact Hreach|].
  destruct (is_board_full_iff_all_moves_made _ Hreach) as (r & Hr & _ & Hmoves).
  rewrite Hr. f_equal. apply Hmoves. vm_compute. reflexivity.
Defined.

(** ** The answers of the move executor *)

(** X13.  On a board of side three or more, in every reachable state
    [attempt_move] has exactly three outcomes: on a finished game it refuses
    with "Game is already finished"; on a game in progress it refuses an
    invalid move with "Invalid move: cell is occupied or out of bounds";
    and it accepts a valid move, leaves the state [execute_move] leaves, and
    names the player who moves next or says that the game ended.  In the
    two refusals the state is unchanged, and "Failed to make move" is never
    answered. *)
Theorem attempt_move_outcomes s c :
  reachable s -> 3 <= size_of s ->
  (status s <> IN_PROGRESS /\
   MoveExecutor.attempt_move c s = (Ok (false, "Game is already finished"), s)) \/
  (status s = IN_PROGRESS /\ ~ valid_move c s /\
   MoveExecutor.attempt_move c s
   = (Ok (false, "Invalid move: cell is occupied or out of bounds"), s)) \/
  (valid_move c s /\
   exists s',
     execute_move c s = (Ok true, s') /\
     MoveExecutor.attempt_move c s
     = (Ok (true,
            if bool_decide (status s' = IN_PROGRESS)
            then "Move successful: " +:+ Player_name (other (current_player s))
            else "Move successful: Game ended"), s')).
Proof.
  intros Hs H3.
  destruct (execute_move_returns_from_size_3 s c Hs H3) as [Hok _].
  apply reachable_invariant in Hs as (Hcoh & _).
  rewrite attempt_move_unfold, is_valid_move_coherent by done. cbn [fst].
  case_bool_decide as Hst; [by left|right].
  assert (status s = IN_PROGRESS) as Hst' by (by destruct (status s)).
  fold (valid_move c s). case_bool_decide as Hvalid; [right|by left].
  split; [done|].
  pose proof (execute_move_turn c s) as Hturn.
  pose proof (execute_move_result c s Hcoh) as Hres.
  destruct (execute_move c s) as [[[]|e] s'] eqn:Hexec; cbn [fst snd is_ok] in *;
    [| |done].
  - exists s'. split; [reflexivity|]. destruct Hturn as (_ & Hnext & _).
    case_bool_decide as Hst''; [|reflexivity]. by rewrite (Hnext Hst'').
  - inversion Hres as [Hno| | | |]. subst s'. by destruct Hno.
Qed.

(** Scenario D: the first move at the centre is accepted and names [O] as
    the next player. *)
Lemma attempt_move_outcomes_witness :
  reachable (fresh 3) /\ 3 <= size_of (fresh 3) /\
  MoveExecutor.attempt_move (at_ 1 1) (fresh 3)
  = (Ok (true, "Move successful: O"), run [op_execute_move (at_ 1 1)] (fresh 3)).
Proof.
  assert (reachable (fresh 3)) as Hreach by (apply reachable_fresh; lia).
  assert (3 <= size_of (fresh 3)) as H3 by (vm_compute; discriminate).
  split; [exact Hreach|]. split; [exact H3|].
  destruct (attempt_move_outcomes (fresh 3) (at_ 1 1) Hreach H3)
    as [[Hst _]|[(_ & Hno & _)|(_ & s' & Hexec & Hatt)]].
  - exfalso. apply Hst. reflexivity.
  - exfalso. apply Hno. split; [reflexivity|]. split; [|reflexivity].
    unfold in_bounds. simpl. lia.
  - rewrite Hatt.
    assert (s' = run [op_execute_move (at_ 1 1)] (fresh 3)) as ->.
    { change (s' = (execute_move (at_ 1 1) (fresh 3)).2). by rewrite Hexec. }
    vm_compute. reflexivity.
Defined.

(** ** Status messages *)

(** X14.  In every reachable state the status message tells the state
    apart: it names the current player exactly while the game is in
    progress, announces a win exactly in the matching WINS status, a tie
    exactly in status [TIE], and is never "Unknown game state"; asking for
    it changes nothing. *)
Theorem status_message_reflects_state s :
  reachable s ->
  exists msg,
    GameServiceStatus.get_status_message s = (Ok msg, s) /\
    (msg = "Current player: X" <-> status s = IN_PROGRESS /\ current_player s = X) /\
    (msg = "Current player: O" <-> status s = IN_PROGRESS /\ current_player s = O) /\
    (msg = "X Wins!" <-> status s = X_WINS) /\
    (msg = "O Wins!" <-> status s = O_WINS) /\
    (msg = "It's a Tie!" <-> status s = TIE) /\
    msg <> "Unknown game state".
Proof.
  intros Hs. apply reachable_invariant in Hs as (_ & Hcur & _).
  eexists. split; [reflexivity|].
  unfold StatusMessageGenerator.create_status_message,
    StatusMessageGenerator._is_game_in_progress,
    StatusMessageGenerator._create_current_player_message,
    StatusMessageGenerator._create_game_ended_message,
    StatusMessageGenerator._get_player_display_name.
  destruct (status s), (current_player s); try done; simpl;
    split_and!; try done; split; (done || by intros [? ?]).
Qed.

Lemma status_message_reflects_state_witness :
  reachable (run scenario_B (fresh 3)) /\
  GameServiceStatus.get_status_message (run scenario_B (fresh 3))
  = (Ok "It's a Tie!", run scenario_B (fresh 3)).
Proof.
  assert (reachable (run scenario_B (fresh 3))) as Hreach.
  { apply reachable_run, reachable_fresh. lia. }
  split; [exact Hreach|].
  destruct (status_message_reflects_state _ Hreach) as (msg & Hmsg & _ & _ & _ & _ & Htie & _).
  rewrite Hmsg. do 2 f_equal. apply Htie. vm_compute. reflexivity.
Defined.

(** ** Dimensions *)

(** X15.  For every [Dimensions] the constructor accepts,
    [get_center_point] builds its [ScreenPosition] without raising, at half
    the width and half the height rounded down, which lies inside the
    rectangle. *)
Theorem center_point_lies_inside w h d :
  Dimensions.__init__ w h = Ok d ->
  exists p,
    Dimensions.get_center_point d = Ok p /\
    ScreenPosition.x p = w / 2 /\ ScreenPosition.y p = h / 2 /\
    0 <= ScreenPosition.x p < w /\ 0 <= ScreenPosition.y p < h.
Proof.
  unfold Dimensions.__init__, Dimensions._validate_dimension_values.
  destruct (Z.leb_spec w 0); simpl; [done|].
  destruct (Z.leb_spec h 0); simpl; [done|]. intros [= <-].
  unfold Dimensions.get_center_point, ScreenPosition.__init__,
    ScreenPosition._validate_position_values. simpl.
  assert (0 <= w / 2 < w) by (split; [apply Z.div_pos; lia|apply Z.div_lt; lia]).
  assert (0 <= h / 2 < h) by (split; [apply Z.div_pos; lia|apply Z.div_lt; lia]).
  destruct (Z.ltb_spec (w / 2) 0); [lia|].
  destruct (Z.ltb_spec (h / 2) 0); [lia|]. simpl.
  eexists. split; [reflexivity|]. simpl. lia.
Qed.

Lemma center_point_lies_inside_witness :
  Dimensions.__init__ 800 600 = Ok (Dimensions.mk 800 600) /\
  exists p, Dimensions.get_center_point (Dimensions.mk 800 600) = Ok p /\
            ScreenPosition.x p = 400 /\ ScreenPosition.y p = 300.
Proof.
  split; [reflexivity|].
  destruct (center_point_lies_inside 800 600 (Dimensions.mk 800 600) eq_refl)
    as (p & Hp & Hx & Hy & _).
  exists p. split; [exact Hp|]. split; [exact Hx|exact Hy].
Defined.

(** ** The layout of the renderer *)

Lemma renderer_init w h d :
  Dimensions.__init__ w h = Ok d ->
  0 < w /\ 0 < h /\
  GameRenderer.__init__ (Some d)
  = Returns (GameRenderer.mk d (GridSize.mk 3) (Z.min w h / 3)
               ((w - 3 * (Z.min w h / 3)) / 2) ((h - 3 * (Z.min w h / 3)) / 2)).
Proof.
  unfold Dimensions.__init__, Dimensions._validate_dimension_values.
  destruct (Z.leb_spec w 0); simpl; [done|].
  destruct (Z.leb_spec h 0); simpl; [done|]. intros [= <-].
  split; [done|]. split; [done|]. reflexivity.
Qed.

(** X16.  For every [Dimensions] the constructor accepts, the renderer is
    built without raising on a three by three grid, with cells of a third of
    the smaller side, rounded down; the grid lies inside the window, is
    centred to the pixel, and its cells have a positive side exactly when
    the smaller side is at least three pixels. *)
Theorem renderer_layout_fits_the_window w h d :
  Dimensions.__init__ w h = Ok d ->
  exists r,
    GameRenderer.__init__ (Some d) = Returns r /\
    GameRenderer.dimensions r = d /\
    GameRenderer.grid_size r = GridSize.mk 3 /\
    GameRenderer.cell_size r = Z.min w h / 3 /\
    (0 < GameRenderer.cell_size r <-> 3 <= Z.min w h) /\
    0 <= GameRenderer.grid_offset_x r /\ 0 <= GameRenderer.grid_offset_y r /\
    GameRenderer.grid_offset_x r + 3 * GameRenderer.cell_size r <= w /\
    GameRenderer.grid_offset_y r + 3 * GameRenderer.cell_size r <= h /\
    w - 3 * GameRenderer.cell_size r - 1 <= 2 * GameRenderer.grid_offset_x r
      <= w - 3 * GameRenderer.cell_size r /\
    h - 3 * GameRenderer.cell_size r - 1 <= 2 * GameRenderer.grid_offset_y r
      <= h - 3 * GameRenderer.cell_size r.
Proof.
  intros (Hw & Hh & Hinit)%renderer_init. eexists. split; [exact Hinit|].
  simpl. set (m := Z.min w h). set (cell := m / 3).
  assert (3 * cell <= m < 3 * cell + 3) as Hcell.
  { unfold cell. pose proof (Z.div_mod m 3). pose proof (Z.mod_pos_bound m 3). lia. }
  assert (forall a, a - 1 <= 2 * (a / 2) <= a) as Hhalf.
  { intros a. pose proof (Z.div_mod a 2). pose proof (Z.mod_pos_bound a 2). lia. }
  pose proof (Hhalf (w - 3 * cell)). pose proof (Hhalf (h - 3 * cell)).
  assert (m <= w /\ m <= h) as [? ?] by (unfold m; lia).
  split_and!; try done; lia.
Qed.

(** The windows of the tests: 600 by 600 and 800 by 600. *)
Lemma renderer_layout_fits_the_window_witness :
  Dimensions.__init__ 800 600 = Ok (Dimensions.mk 800 600) /\
  exists r,
    GameRenderer.__init__ (Some (Dimensions.mk 800 600)) = Returns r /\
    GameRenderer.cell_size r = 200 /\ GameRenderer.grid_offset_x r = 100 /\
    GameRenderer.grid_offset_y r = 0.
Proof.
  split; [reflexivity|].
  destruct (renderer_layout_fits_the_window 800 600 (Dimensions.mk 800 600) eq_refl)
    as (r & Hr & _).
  exists r. split; [exact Hr|].
  assert (Returns r
          = Returns (GameRenderer.mk (Dimensions.mk 800 600) (GridSize.mk 3) 200 100 0))
    as [= ->]; [|by split_and!].
  rewrite <- Hr. vm_compute. reflexivity.
Defined.

(** ** Clicks *)

Lemma div_in_cell a cell k :
  0 < cell -> k * cell <= a < (k + 1) * cell -> a / cell = k.
Proof.
  intros Hcell Ha. symmetry. apply (Z.div_unique_pos a cell k (a - k * cell)); lia.
Qed.

Lemma div_lt_cells a cell n : 0 < cell -> a / cell < n <-> a < n * cell.
Proof.
  intros Hcell. split; intros H.
  - pose proof (Z.div_mod a cell). pose proof (Z.mod_pos_bound a cell). nia.
  - apply Z.div_lt_upper_bound; lia.
Qed.

(** X17.  From the drawing back to the cell: with cells of positive side,
    every pixel of the square the renderer draws cell [(row, col)] in,
    from the corner [draw_x] and [draw_o] start at up to the next cell, is
    converted back to [GridCoordinate(row, col)]. *)
Theorem click_in_a_cell_maps_to_the_cell r c x y :
  0 < GameRenderer.cell_size r ->
  0 <= GridCoordinate.row c -> 0 <= GridCoordinate.col c ->
  GameRenderer.grid_offset_x r + GridCoordinate.col c * GameRenderer.cell_size r <= x
    < GameRenderer.grid_offset_x r + (GridCoordinate.col c + 1) * GameRenderer.cell_size r ->
  GameRenderer.grid_offset_y r + GridCoordinate.row c * GameRenderer.cell_size r <= y
    < GameRenderer.grid_offset_y r + (GridCoordinate.row c + 1) * GameRenderer.cell_size r ->
  GameRenderer.screen_to_grid_coordinates r (ScreenPosition.mk x y) = Returns c.
Proof.
  intros Hcell Hrow Hcol Hx Hy. unfold GameRenderer.screen_to_grid_coordinates, floordiv.
  rewrite bool_decide_false by lia. simpl.
  rewrite (div_in_cell (x - GameRenderer.grid_offset_x r) _ (GridCoordinate.col c))
    by lia.
  rewrite (div_in_cell (y - GameRenderer.grid_offset_y r) _ (GridCoordinate.row c))
    by lia.
  unfold GridCoordinate.__init__, GridCoordinate._validate_coordinate_values.
  destruct (Z.ltb_spec (GridCoordinate.row c) 0); [lia|].
  destruct (Z.ltb_spec (GridCoordinate.col c) 0); [lia|].
  simpl. by destruct c.
Qed.

(** The centre of the middle cell of the 600 by 600 window. *)
Lemma click_in_a_cell_maps_to_the_cell_witness :
  GameRenderer.screen_to_grid_coordinates
    (GameRenderer.mk (Dimensions.mk 600 600) (GridSize.mk 3) 200 0 0)
    (ScreenPosition.mk 300 300)
  = Returns (at_ 1 1).
Proof.
  apply click_in_a_cell_maps_to_the_cell; simpl; lia.
Defined.

Lemma screen_to_grid_beyond_origin r p :
  0 < GameRenderer.cell_size r ->
  GameRenderer.grid_offset_x r <= ScreenPosition.x p ->
  GameRenderer.grid_offset_y r <= ScreenPosition.y p ->
  GameRenderer.screen_to_grid_coordinates r p
  = Returns (GridCoordinate.mk
      ((ScreenPosition.y p - GameRenderer.grid_offset_y r) / GameRenderer.cell_size r)
      ((ScreenPosition.x p - GameRenderer.grid_offset_x r) / GameRenderer.cell_size r)).
Proof.
  intros Hcell Hx Hy.
  unfold GameRenderer.screen_to_grid_coordinates, floordiv.
  set (cell := GameRenderer.cell_size r) in *.
  set (dx := ScreenPosition.x p - GameRenderer.grid_offset_x r).
  set (dy := ScreenPosition.y p - GameRenderer.grid_offset_y r).
  rewrite bool_decide_false by lia. simpl.
  unfold GridCoordinate.__init__, GridCoordinate._validate_coordinate_values.
  assert (0 <= dx / cell) by (apply Z.div_pos; lia).
  assert (0 <= dy / cell) by (apply Z.div_pos; lia).
  destruct (Z.ltb_spec (dy / cell) 0); [lia|].
  destruct (Z.ltb_spec (dx / cell) 0); [lia|]. done.
Qed.

Lemma is_click_in_grid_beyond_origin r p :
  0 < GameRenderer.cell_size r ->
  GameRenderer.grid_offset_x r <= ScreenPosition.x p ->
  GameRenderer.grid_offset_y r <= ScreenPosition.y p ->
  GameRenderer.is_click_in_grid r p
  = Returns (bool_decide
      (ScreenPosition.x p < GameRenderer.grid_offset_x r
         + GridSize.size (GameRenderer.grid_size r) * GameRenderer.cell_size r /\
       ScreenPosition.y p < GameRenderer.grid_offset_y r
         + GridSize.size (GameRenderer.grid_size r) * GameRenderer.cell_size r)).
Proof.
  intros Hcell Hx Hy. unfold GameRenderer.is_click_in_grid.
  rewrite screen_to_grid_beyond_origin by done. simpl. f_equal.
  set (cell := GameRenderer.cell_size r) in *. set (n := GridSize.size _).
  set (dx := ScreenPosition.x p - GameRenderer.grid_offset_x r).
  set (dy := ScreenPosition.y p - GameRenderer.grid_offset_y r).
  assert (0 <= dx / cell) by (apply Z.div_pos; lia).
  assert (0 <= dy / cell) by (apply Z.div_pos; lia).
  unfold GridSize.is_valid_coordinate, GridCoordinate.is_valid_for_grid. simpl.
  fold n.
  pose proof (div_lt_cells dx cell n Hcell) as Hdx.
  pose proof (div_lt_cells dy cell n Hcell) as Hdy.
  destruct (Z.leb_spec 0 (dy / cell)); [|lia].
  destruct (Z.leb_spec 0 (dx / cell)); [|lia]. simpl.
  destruct (Z.ltb_spec (dy / cell) n), (Z.ltb_spec (dx / cell) n); simpl;
    symmetry; (apply bool_decide_eq_true || apply bool_decide_eq_false); lia.
Qed.

Lemma is_click_in_grid_before_origin r p :
  0 < GameRenderer.cell_size r ->
  ScreenPosition.x p < GameRenderer.grid_offset_x r \/
  ScreenPosition.y p < GameRenderer.grid_offset_y r ->
  exists msg, GameRenderer.is_click_in_grid r p = Throws (Core (ValueError msg)).
Proof.
  unfold GameRenderer.is_click_in_grid, GameRenderer.screen_to_grid_coordinates,
    floordiv.
  set (cell := GameRenderer.cell_size r).
  set (dx := ScreenPosition.x p - GameRenderer.grid_offset_x r).
  set (dy := ScreenPosition.y p - GameRenderer.grid_offset_y r).
  intros Hcell Hout. rewrite bool_decide_false by lia. simpl.
  unfold GridCoordinate.__init__, GridCoordinate._validate_coordinate_values.
  assert ((dy / cell <? 0) || (dx / cell <? 0) = true) as ->; [|by eexists].
  apply orb_true_iff. destruct Hout.
  - right. apply Z.ltb_lt, Z.div_lt_upper_bound; lia.
  - left. apply Z.ltb_lt, Z.div_lt_upper_bound; lia.
Qed.

(** X18.  What [is_click_in_grid] does with a click.  With cells of side
    zero it raises [ZeroDivisionError].  With cells of positive side, a
    click left of or above the grid raises the [ValueError] of
    [GridCoordinate] instead of returning false; any other click returns
    true exactly when it lies inside the square of the grid. *)
Theorem is_click_in_grid_behaviour r p :
  (GameRenderer.cell_size r = 0 ->
   GameRenderer.is_click_in_grid r p = Throws ZeroDivisionError) /\
  (0 < GameRenderer.cell_size r ->
   ScreenPosition.x p < GameRenderer.grid_offset_x r \/
   ScreenPosition.y p < GameRenderer.grid_offset_y r ->
   exists msg, GameRenderer.is_click_in_grid r p = Throws (Core (ValueError msg))) /\
  (0 < GameRenderer.cell_size r ->
   GameRenderer.grid_offset_x r <= ScreenPosition.x p ->
   GameRenderer.grid_offset_y r <= ScreenPosition.y p ->
   GameRenderer.is_click_in_grid r p
   = Returns (bool_decide
       (ScreenPosition.x p < GameRenderer.grid_offset_x r
          + GridSize.size (GameRenderer.grid_size r) * GameRenderer.cell_size r /\
        ScreenPosition.y p < GameRenderer.grid_offset_y r
          + GridSize.size (GameRenderer.grid_size r) * GameRenderer.cell_size r))).
Proof.
  split_and!.
  - intros Hcell.
    unfold GameRenderer.is_click_in_grid, GameRenderer.screen_to_grid_coordinates,
      floordiv.
    rewrite Hcell. by rewrite bool_decide_true.
  - apply is_click_in_grid_before_origin.
  - apply is_click_in_grid_beyond_origin.
Qed.

(** In the 800 by 600 window the grid starts at x = 100: a click at
    (50, 300) raises, a click at (750, 300) is outside, a click at
    (150, 300) is inside. *)
Lemma is_click_in_grid_behaviour_witness :
  (exists msg,
     GameRenderer.is_click_in_grid
       (GameRenderer.mk (Dimensions.mk 800 600) (GridSize.mk 3) 200 100 0)
       (ScreenPosition.mk 50 300) = Throws (Core (ValueError msg))) /\
  GameRenderer.is_click_in_grid
    (GameRenderer.mk (Dimensions.mk 800 600) (GridSize.mk 3) 200 100 0)
    (ScreenPosition.mk 750 300) = Returns false /\
  GameRenderer.is_click_in_grid
    (GameRenderer.mk (Dimensions.mk 800 600) (GridSize.mk 3) 200 100 0)
    (ScreenPosition.mk 150 300) = Returns true.
Proof.
  split_and!.
  - apply is_click_in_grid_behaviour; simpl; lia.
  - destruct (is_click_in_grid_behaviour
                (GameRenderer.mk (Dimensions.mk 800 600) (GridSize.mk 3) 200 100 0)
                (ScreenPosition.mk 750 300)) as (_ & _ & Hin).
    rewrite Hin by (simpl; lia). f_equal.
  - destruct (is_click_in_grid_behaviour
                (GameRenderer.mk (Dimensions.mk 800 600) (GridSize.mk 3) 200 100 0)
                (ScreenPosition.mk 150 300)) as (_ & _ & Hin).
    rewrite Hin by (simpl; lia). f_equal.
Defined.

(** ** The handlers of the controller *)

Section handlers.
Import GameController.

Lemma bind_apply {A B} (m : GameController.M A) (k : A -> GameController.M B) ctl :
  (m ≫= k) ctl =
    match m ctl with
    | (Returns a, ctl') => k a ctl'
    | (Throws e, ctl') => (Throws e, ctl')
    end.
Proof. done. Qed.

Lemma respects_view_ret {A} (a : A) : respects_view (mret a : GameController.M A).
Proof. by intros c1 c2 Hv. Qed.

Lemma respects_view_bind {A B} (m : GameController.M A) (k : A -> GameController.M B) :
  respects_view m -> (forall a, respects_view (k a)) -> respects_view (m ≫= k).
Proof.
  intros Hm Hk c1 c2 Hv. rewrite !bind_apply.
  destruct (Hm c1 c2 Hv) as [Hr Hv'].
  destruct (m c1) as [[a|e] c1'], (m c2) as [[a'|e'] c2']; simpl in *;
    try discriminate; injection Hr as ->; [|done].
  by apply Hk.
Qed.

Lemma respects_view_service {A} (m : GameState.M A) : respects_view (service m).
Proof.
  intros c1 c2 Hv. unfold view in Hv. injection Hv as Hr Hg.
  unfold service. rewrite Hg, Hr.
  by destruct (m (game_state c2)).
Qed.

Lemma respects_view_ask {A} (f : GameRenderer.t -> outcome A) : respects_view (ask f).
Proof.
  intros c1 c2 Hv. pose proof Hv as Hv'. unfold view in Hv'.
  injection Hv' as Hr Hg. unfold ask. simpl. by rewrite Hr.
Qed.

Lemma respects_view_const {A} (x : outcome A) :
  respects_view (fun s : GameController.t => (x, s)).
Proof. by intros c1 c2 Hv. Qed.

Lemma respects_view_set_running b : respects_view (set_running b).
Proof. by intros c1 c2 Hv. Qed.

Lemma keeps_running_ret {A} (a : A) : keeps_running (mret a : GameController.M A).
Proof. by intros ctl. Qed.

Lemma keeps_running_bind {A B} (m : GameController.M A) (k : A -> GameController.M B) :
  keeps_running m -> (forall a, keeps_running (k a)) -> keeps_running (m ≫= k).
Proof.
  intros Hm Hk ctl. rewrite bind_apply. specialize (Hm ctl).
  destruct (m ctl) as [[a|e] ctl']; simpl in *; [|done].
  by rewrite Hk.
Qed.

Lemma keeps_running_service {A} (m : GameState.M A) : keeps_running (service m).
Proof. intros ctl. unfold service. by destruct (m (game_state ctl)). Qed.

Lemma keeps_running_ask {A} (f : GameRenderer.t -> outcome A) : keeps_running (ask f).
Proof. by intros ctl. Qed.

Lemma keeps_running_const {A} (x : outcome A) :
  keeps_running (fun s : GameController.t => (x, s)).
Proof. by intros ctl. Qed.

Lemma handle_restart_respects_view : respects_view _handle_restart.
Proof.
  apply respects_view_bind; [apply respects_view_service|]. intros [].
  - apply respects_view_bind; [apply respects_view_service|].
    intros ?. apply respects_view_ret.
  - apply respects_view_ret.
Qed.

Lemma handle_restart_keeps_running : keeps_running _handle_restart.
Proof.
  apply keeps_running_bind; [apply keeps_running_service|]. intros [].
  - apply keeps_running_bind; [apply keeps_running_service|].
    intros ?. apply keeps_running_ret.
  - apply keeps_running_ret.
Qed.

Lemma handle_mouse_click_respects_view p : respects_view (_handle_mouse_click p).
Proof.
  apply respects_view_bind; [apply respects_view_ask|]. intros [];
    [|apply respects_view_ret].
  apply respects_view_bind; [apply respects_view_ask|]. intros c.
  apply respects_view_bind; [apply respects_view_service|]. intros [[] msg];
    [|apply respects_view_ret].
  apply respects_view_bind; [apply respects_view_service|]. intros [];
    [|apply respects_view_ret].
  apply respects_view_bind; [apply respects_view_service|]. intros ?.
  apply respects_view_ret.
Qed.

Lemma handle_mouse_click_keeps_running p : keeps_running (_handle_mouse_click p).
Proof.
  apply keeps_running_bind; [apply keeps_running_ask|]. intros [];
    [|apply keeps_running_ret].
  apply keeps_running_bind; [apply keeps_running_ask|]. intros c.
  apply keeps_running_bind; [apply keeps_running_service|]. intros [[] msg];
    [|apply keeps_running_ret].
  apply keeps_running_bind; [apply keeps_running_service|]. intros [];
    [|apply keeps_running_ret].
  apply keeps_running_bind; [apply keeps_running_service|]. intros ?.
  apply keeps_running_ret.
Qed.

Lemma handle_event_respects_view e : respects_view (_handle_event e).
Proof.
  unfold _handle_event. repeat case_bool_decide.
  - apply respects_view_set_running.
  - apply handle_restart_respects_view.
  - apply respects_view_bind; [apply respects_view_const|].
    intros p. apply handle_mouse_click_respects_view.
  - apply respects_view_ret.
Qed.

Lemma handle_event_keeps_running e :
  is_quit e = false -> keeps_running (_handle_event e).
Proof.
  unfold is_quit, _handle_event. intros ->. repeat case_bool_decide.
  - apply handle_restart_keeps_running.
  - apply keeps_running_bind; [apply keeps_running_const|].
    intros p. apply handle_mouse_click_keeps_running.
  - apply keeps_running_ret.
Qed.

Lemma handle_events_respects_view evs : respects_view (_handle_events evs).
Proof.
  induction evs as [|e evs IH]; [apply respects_view_ret|].
  apply respects_view_bind; [apply handle_event_respects_view|done].
Qed.

Lemma handle_event_quit e ctl :
  is_quit e = true ->
  _handle_event e ctl = (Returns tt, mk false (renderer ctl) (game_state ctl)).
Proof. unfold is_quit, _handle_event. by intros ->. Qed.

Lemma handle_mouse_click_beyond_origin ctl p :
  reachable (game_state ctl) -> 3 <= size_of (game_state ctl) ->
  0 < GameRenderer.cell_size (renderer ctl) ->
  GameRenderer.grid_offset_x (renderer ctl) <= ScreenPosition.x p ->
  GameRenderer.grid_offset_y (renderer ctl) <= ScreenPosition.y p ->
  _handle_mouse_click p ctl
  = (Returns tt,
     mk (running ctl) (renderer ctl)
       (if bool_decide
             (ScreenPosition.x p < GameRenderer.grid_offset_x (renderer ctl)
                + GridSize.size (GameRenderer.grid_size (renderer ctl))
                  * GameRenderer.cell_size (renderer ctl) /\
              ScreenPosition.y p < GameRenderer.grid_offset_y (renderer ctl)
                + GridSize.size (GameRenderer.grid_size (renderer ctl))
                  * GameRenderer.cell_size (renderer ctl))
        then (execute_move
                (GridCoordinate.mk
                   ((ScreenPosition.y p - GameRenderer.grid_offset_y (renderer ctl))
                    / GameRenderer.cell_size (renderer ctl))
                   ((ScreenPosition.x p - GameRenderer.grid_offset_x (renderer ctl))
                    / GameRenderer.cell_size (renderer ctl)))
                (game_state ctl)).2
        else game_state ctl)).
Proof.
  intros Hs Hn Hcell Hx Hy. destruct ctl as [run r g]. simpl in *.
  unfold _handle_mouse_click. rewrite bind_apply. unfold ask at 1. simpl.
  rewrite is_click_in_grid_beyond_origin by done.
  case_bool_decide as Hin; simpl; [|done].
  rewrite bind_apply. unfold ask at 1. simpl.
  rewrite screen_to_grid_beyond_origin by done.
  set (c := GridCoordinate.mk _ _).
  rewrite bind_apply. unfold service at 1. simpl.
  unfold GameService.make_move.
  destruct (execute_move_returns_from_size_3 g c Hs Hn) as [_ Hok].
  rewrite <- (attempt_move_state c g).
  destruct (MoveExecutor.attempt_move c g) as [[[ok msg]|e] g'] eqn:Hmove;
    [|done]. simpl.
  destruct ok; [|done].
  rewrite bind_apply. unfold service at 1, GameService.is_game_over, gets. simpl.
  by case_bool_decide.
Qed.

Lemma handle_restart_unfold ctl :
  _handle_restart ctl
  = (Returns tt,
     if bool_decide (status (game_state ctl) = IN_PROGRESS) then ctl
     else mk (running ctl) (renderer ctl) (reset_state (game_state ctl))).
Proof.
  destruct ctl as [run r g]. unfold _handle_restart.
  rewrite bind_apply. unfold service at 1. rewrite can_restart_unfold. simpl.
  destruct (decide (status g = IN_PROGRESS)) as [Hst|Hst].
  - rewrite (bool_decide_true _ Hst), bool_decide_false by tauto. done.
  - rewrite (bool_decide_false _ Hst), bool_decide_true by done.
    rewrite bind_apply. unfold service. by rewrite start_new_game_unfold.
Qed.

Lemma handle_mouse_click_before_origin ctl p :
  0 < GameRenderer.cell_size (renderer ctl) ->
  ScreenPosition.x p < GameRenderer.grid_offset_x (renderer ctl) \/
  ScreenPosition.y p < GameRenderer.grid_offset_y (renderer ctl) ->
  exists msg, _handle_mouse_click p ctl = (Throws (Core (ValueError msg)), ctl).
Proof.
  intros Hcell Hout.
  destruct (is_click_in_grid_before_origin (renderer ctl) p Hcell Hout) as [msg Hmsg].
  exists msg. unfold _handle_mouse_click. rewrite bind_apply. unfold ask at 1.
  by rewrite Hmsg.
Qed.

Lemma reset_state_fresh s : coherent s -> reset_state s = fresh (size_of s).
Proof.
  intros (Hb & Hv & Hw & _ & _).
  destruct s as [[n] [gb b] [gv] [gw] p st w h]. simpl in *.
  by subst.
Qed.

Lemma execute_move_reachable c s : reachable s -> reachable (execute_move c s).2.
Proof. apply (reachable_perform (op_execute_move c)). Qed.

Lemma execute_move_size c s :
  reachable s -> size_of (execute_move c s).2 = size_of s.
Proof.
  intros Hs. apply reachable_invariant in Hs as [Hcoh _].
  unfold size_of. f_equal. apply (perform_grid_size (op_execute_move c) s Hcoh).
Qed.

Lemma handle_event_returns ctl e :
  reachable (game_state ctl) -> 3 <= size_of (game_state ctl) ->
  0 < GameRenderer.cell_size (renderer ctl) ->
  well_formed (renderer ctl) e ->
  exists ctl',
    _handle_event e ctl = (Returns tt, ctl') /\
    renderer ctl' = renderer ctl /\
    reachable (game_state ctl') /\
    size_of (game_state ctl') = size_of (game_state ctl).
Proof.
  intros Hs Hn Hcell Hwf. unfold _handle_event.
  case_bool_decide as Hq; [by eexists|].
  case_bool_decide as Hr.
  { rewrite handle_restart_unfold. eexists. split; [done|].
    case_bool_decide; [done|]. simpl. split_and!; [done| |done].
    apply (reachable_perform op_start_new_game _ Hs). }
  case_bool_decide as Hc; [|by eexists].
  destruct (Hwf Hc) as (p & Hp & Hx & Hy).
  rewrite bind_apply. unfold dict_getitem. rewrite Hp.
  rewrite handle_mouse_click_beyond_origin by done.
  eexists. split; [done|]. simpl.
  case_bool_decide; [|done].
  split_and!; [done|by apply execute_move_reachable|by apply execute_move_size].
Qed.

End handlers.

Lemma handle_events_returns evs ctl :
  reachable (GameController.game_state ctl) ->
  3 <= size_of (GameController.game_state ctl) ->
  0 < GameRenderer.cell_size (GameController.renderer ctl) ->
  Forall (well_formed (GameController.renderer ctl)) evs ->
  exists ctl',
    GameController._handle_events evs ctl = (Returns tt, ctl') /\
    GameController.renderer ctl' = GameController.renderer ctl /\
    reachable (GameController.game_state ctl') /\
    size_of (GameController.game_state ctl') = size_of (GameController.game_state ctl).
Proof.
  intros Hs Hn Hcell Hwf. revert ctl Hs Hn Hcell Hwf.
  induction evs as [|e evs IH]; intros ctl Hs Hn Hcell Hwf; [by eexists|].
  apply Forall_cons in Hwf as [He Hwf].
  destruct (handle_event_returns ctl e Hs Hn Hcell He) as (ctl1 & H1 & Hr1 & Hs1 & Hn1).
  destruct (IH ctl1) as (ctl' & H' & Hr' & Hs' & Hn'); [done|lia|by rewrite Hr1..|].
  exists ctl'. cbn [GameController._handle_events].
  rewrite bind_apply, H1. split_and!; [done|congruence|done|congruence].
Qed.

(** ** What the controller does with the input *)

(** X19.  A mouse click, with cells of positive side and a game on a board
    of side three or more.  A click at or beyond the origin of the grid
    never raises: inside the grid it makes the move at the cell under the
    mouse, row [(y - offset_y) // cell] and column [(x - offset_x) // cell],
    and leaves the game as [execute_move] does; outside it changes nothing.
    A click left of or above the grid raises the [ValueError] of
    [GridCoordinate] out of the handler. *)
Theorem mouse_click_plays_the_cell_under_the_mouse ctl p :
  reachable (GameController.game_state ctl) ->
  3 <= size_of (GameController.game_state ctl) ->
  0 < GameRenderer.cell_size (GameController.renderer ctl) ->
  let r := GameController.renderer ctl in
  let g := GameController.game_state ctl in
  let c := GridCoordinate.mk
             ((ScreenPosition.y p - GameRenderer.grid_offset_y r)
              / GameRenderer.cell_size r)
             ((ScreenPosition.x p - GameRenderer.grid_offset_x r)
              / GameRenderer.cell_size r) in
  (GameRenderer.grid_offset_x r <= ScreenPosition.x p ->
   GameRenderer.grid_offset_y r <= ScreenPosition.y p ->
   GameController._handle_mouse_click p ctl
   = (Returns tt,
      GameController.mk (GameController.running ctl) r
        (if bool_decide
              (ScreenPosition.x p < GameRenderer.grid_offset_x r
                 + GridSize.size (GameRenderer.grid_size r) * GameRenderer.cell_size r /\
               ScreenPosition.y p < GameRenderer.grid_offset_y r
                 + GridSize.size (GameRenderer.grid_size r) * GameRenderer.cell_size r)
         then (execute_move c g).2 else g))) /\
  (ScreenPosition.x p < GameRenderer.grid_offset_x r \/
   ScreenPosition.y p < GameRenderer.grid_offset_y r ->
   exists msg,
     GameController._handle_mouse_click p ctl = (Throws (Core (ValueError msg)), ctl)).
Proof.
  intros Hs Hn Hcell r g c. split.
  - intros Hx Hy. by apply handle_mouse_click_beyond_origin.
  - by apply handle_mouse_click_before_origin.
Qed.

(** In the 800 by 600 window, whose grid starts at x = 100, a click at
    (350, 250) on a new game puts an X in the centre, and a click at
    (50, 250) raises. *)
Lemma mouse_click_plays_the_cell_under_the_mouse_witness :
  (exists g,
     GameController._handle_mouse_click (ScreenPosition.mk 350 250)
       (GameController.mk true
          (GameRenderer.mk (Dimensions.mk 800 600) (GridSize.mk 3) 200 100 0)
          (fresh 3))
     = (Returns tt,
        GameController.mk true
          (GameRenderer.mk (Dimensions.mk 800 600) (GridSize.mk 3) 200 100 0) g) /\
     matrix_of g = board3 NONE NONE NONE NONE X NONE NONE NONE NONE) /\
  (exists msg,
     GameController._handle_mouse_click (ScreenPosition.mk 50 250)
       (GameController.mk true
          (GameRenderer.mk (Dimensions.mk 800 600) (GridSize.mk 3) 200 100 0)
          (fresh 3))
     = (Throws (Core (ValueError msg)),
        GameController.mk true
          (GameRenderer.mk (Dimensions.mk 800 600) (GridSize.mk 3) 200 100 0)
          (fresh 3))).
Proof.
  assert (reachable (fresh 3)) as Hs by (apply reachable_fresh; lia).
  destruct (mouse_click_plays_the_cell_under_the_mouse
              (GameController.mk true
                 (GameRenderer.mk (Dimensions.mk 800 600) (GridSize.mk 3) 200 100 0)
                 (fresh 3))
              (ScreenPosition.mk 350 250) Hs) as [Hin _];
    [vm_compute; discriminate|simpl; lia|].
  destruct (mouse_click_plays_the_cell_under_the_mouse
              (GameController.mk true
                 (GameRenderer.mk (Dimensions.mk 800 600) (GridSize.mk 3) 200 100 0)
                 (fresh 3))
              (ScreenPosition.mk 50 250) Hs) as [_ Hout];
    [vm_compute; discriminate|simpl; lia|].
  split.
  - eexists. split; [apply Hin; simpl; lia|]. vm_compute. reflexivity.
  - apply Hout. simpl. lia.
Defined.

(** X20.  The R key.  On a reachable game the restart event never raises;
    it leaves a game in progress untouched, and replaces a finished game by
    the state of a newly constructed game of the same side.  The [running]
    flag and the renderer are kept. *)
Theorem restart_event_restarts_only_a_finished_game ctl e :
  reachable (GameController.game_state ctl) ->
  InputData.event_type e = RESTART ->
  GameController._handle_event e ctl
  = (Returns tt,
     if bool_decide (status (GameController.game_state ctl) = IN_PROGRESS) then ctl
     else GameController.mk (GameController.running ctl) (GameController.renderer ctl)
            (fresh (size_of (GameController.game_state ctl)))) /\
  new_game (size_of (GameController.game_state ctl))
  = Ok (fresh (size_of (GameController.game_state ctl))).
Proof.
  intros Hs He. apply reachable_invariant in Hs as [Hcoh _]. split.
  - unfold GameController._handle_event. rewrite He.
    rewrite bool_decide_false by done. rewrite bool_decide_true by done.
    rewrite handle_restart_unfold. by rewrite reset_state_fresh.
  - apply new_game_fresh. split; [|done]. by destruct Hcoh as (_ & _ & _ & Hn & _).
Qed.

(** After scenario A, which X has won, the R key gives a new game. *)
Lemma restart_event_restarts_only_a_finished_game_witness :
  GameController._handle_event (InputData.__init__ RESTART None)
    (GameController.mk true renderer600 (run scenario_A (fresh 3)))
  = (Returns tt, GameController.mk true renderer600 (fresh 3)).
Proof.
  assert (reachable (run scenario_A (fresh 3))) as Hs.
  { apply reachable_run, reachable_fresh. lia. }
  destruct (restart_event_restarts_only_a_finished_game
              (GameController.mk true renderer600 (run scenario_A (fresh 3)))
              (InputData.__init__ RESTART None) Hs eq_refl) as [-> _].
  vm_compute. reflexivity.
Defined.

(** X21.  A QUIT event only clears the [running] flag: the events that
    follow it in the same batch are still handled.  The batch returns or
    raises, and leaves the game and the renderer, exactly as the batch
    without its QUIT events does; when it returns, the flag is cleared if
    and only if the batch held a QUIT event or the flag was clear before. *)
Theorem quit_does_not_end_the_batch evs ctl :
  (GameController._handle_events evs ctl).1
  = (GameController._handle_events (filter (fun e => is_quit e = false) evs) ctl).1 /\
  view (GameController._handle_events evs ctl).2
  = view (GameController._handle_events
            (filter (fun e => is_quit e = false) evs) ctl).2 /\
  ((GameController._handle_events evs ctl).1 = Returns tt ->
   GameController.running (GameController._handle_events evs ctl).2
   = GameController.running ctl && forallb (fun e => negb (is_quit e)) evs).
Proof.
  revert ctl. induction evs as [|e evs IH]; intros ctl.
  { simpl. by rewrite andb_true_r. }
  destruct (is_quit e) eqn:Hq.
  - rewrite filter_cons_False by (by rewrite Hq).
    cbn [GameController._handle_events forallb]. rewrite Hq.
    rewrite bind_apply, (handle_event_quit e ctl Hq).
    set (ctl0 := GameController.mk false _ _).
    destruct (handle_events_respects_view evs ctl0 ctl eq_refl) as [Hr Hv].
    destruct (IH ctl) as (IH1 & IH2 & _), (IH ctl0) as (_ & _ & IH3).
    split_and!.
    + by rewrite Hr.
    + by rewrite Hv.
    + intros Hret. rewrite (IH3 Hret). simpl. by rewrite andb_false_r.
  - rewrite filter_cons_True by done.
    cbn [GameController._handle_events forallb]. rewrite Hq.
    rewrite !bind_apply.
    pose proof (handle_event_keeps_running e Hq ctl) as Hrun.
    destruct (GameController._handle_event e ctl) as [[[]|err] ctl1]; [|done].
    simpl in Hrun. destruct (IH ctl1) as (IH1 & IH2 & IH3).
    split_and!; [done..|]. intros Hret. by rewrite (IH3 Hret), Hrun.
Qed.

(** A click in the centre, the window closed, and a click in a corner: both
    moves are made, and the flag is clear. *)
Lemma quit_does_not_end_the_batch_witness :
  exists ctl',
    GameController._handle_events [click 300 300; InputData.__init__ QUIT None;
                                   click 100 100]
      (GameController.mk true renderer600 (fresh 3))
    = (Returns tt, ctl') /\
    GameController.running ctl' = false /\
    matrix_of (GameController.game_state ctl')
    = board3 O NONE NONE NONE X NONE NONE NONE NONE.
Proof.
  destruct (quit_does_not_end_the_batch
              [click 300 300; InputData.__init__ QUIT None; click 100 100]
              (GameController.mk true renderer600 (fresh 3))) as (_ & _ & Hrun).
  eexists. split; [vm_compute; reflexivity|]. split.
  - apply Hrun. vm_compute. reflexivity.
  - vm_compute. reflexivity.
Defined.

(** X22.  Resetting a reachable game gives the very state of a newly
    constructed game of the same side: nothing of the finished game is
    left in any attribute. *)
Theorem reset_gives_a_new_game s :
  reachable s ->
  exists s',
    new_game (size_of s) = Ok s' /\
    reset_to_initial_state s = (Ok tt, s') /\
    GameService.start_new_game s = (Ok s', s').
Proof.
  intros Hs. apply reachable_invariant in Hs as [Hcoh _].
  exists (fresh (size_of s)). split_and!.
  - apply new_game_fresh. split; [|done]. by destruct Hcoh as (_ & _ & _ & Hn & _).
  - by rewrite reset_to_initial_state_unfold, reset_state_fresh.
  - by rewrite start_new_game_unfold, reset_state_fresh.
Qed.

(** Resetting the tied game of scenario B. *)
Lemma reset_gives_a_new_game_witness :
  status (run scenario_B (fresh 3)) = TIE /\
  exists s',
    new_game 3 = Ok s' /\
    reset_to_initial_state (run scenario_B (fresh 3)) = (Ok tt, s') /\
    GameService.start_new_game (run scenario_B (fresh 3)) = (Ok s', s').
Proof.
  split; [vm_compute; reflexivity|].
  destruct (reset_gives_a_new_game (run scenario_B (fresh 3)))
    as (s' & Hnew & Hreset & Hstart).
  { apply reachable_run, reachable_fresh. lia. }
  exists s'. split_and!; [|done..].
  rewrite <- Hnew. vm_compute. reflexivity.
Defined.

(** ** Rendering *)

Lemma draw_symbol_app r screen c p :
  GameRenderer.draw_symbol r screen c p
  = screen ++ GameRenderer.draw_symbol r [] c p.
Proof.
  unfold GameRenderer.draw_symbol, GameRenderer.draw_x, GameRenderer.draw_o.
  repeat case_bool_decide; simpl; by rewrite ?app_nil_r.
Qed.

Lemma length_draw_symbol r c p :
  length (GameRenderer.draw_symbol r [] c p)
  = match p with X => 2%nat | O => 1%nat | NONE => 0%nat end.
Proof. by destruct p. Qed.

Lemma foldl_indexed {A} (step : outcome (list drawing) -> Z -> outcome (list drawing))
    (F : nat -> A -> list drawing) (l : list A) n screen :
  n = Z.of_nat (length l) ->
  (forall j x scr, l !! j = Some x ->
     step (Returns scr) (Z.of_nat j) = Returns (scr ++ F j x)) ->
  foldl step (Returns screen) (range n)
  = Returns (screen ++ concat (imap F l)).
Proof.
  intros ->. unfold range. rewrite Nat2Z.id. revert screen.
  induction l as [|x l IH] using rev_ind; intros screen Hstep.
  { simpl. by rewrite app_nil_r. }
  rewrite length_app, Nat.add_1_r, seq_S, map_app, foldl_app. simpl.
  rewrite IH.
  - rewrite (Hstep (length l) x) by (by rewrite lookup_app_r, Nat.sub_diag by done).
    rewrite imap_app, concat_app. simpl.
    by rewrite Nat.add_0_r, app_nil_r, app_assoc.
  - intros j y scr Hj. apply Hstep. by apply lookup_app_l_Some.
Qed.

Lemma render_symbols_square r g screen :
  coherent g ->
  GameController._render_symbols r g screen
  = Returns (screen ++ board_symbols r (matrix_of g)).
Proof.
  intros (Hb & _ & _ & Hn & [Hlen Hrows]).
  unfold GameController._render_symbols, board_symbols.
  fold (size_of g).
  apply (foldl_indexed _ _ (matrix_of g)); [lia|].
  intros i row scr Hrow.
  pose proof (Forall_lookup_1 _ _ _ _ Hrows Hrow) as Hrowlen. simpl in Hrowlen.
  apply (foldl_indexed _ _ row); [lia|].
  intros j p scr' Hp. simpl.
  unfold GridCoordinate.__init__, GridCoordinate._validate_coordinate_values.
  destruct (Z.ltb_spec (Z.of_nat i) 0); [lia|].
  destruct (Z.ltb_spec (Z.of_nat j) 0); [lia|]. simpl.
  unfold get_cell, eval, GameBoard.get_cell_player, GameBoard._is_position_valid,
    GridSize.is_valid_coordinate, GridCoordinate.is_valid_for_grid.
  rewrite Hb. fold (size_of g). simpl.
  apply lookup_lt_Some in Hrow as Hi. apply lookup_lt_Some in Hp as Hj.
  destruct (Z.leb_spec 0 (Z.of_nat i)); [|lia].
  destruct (Z.ltb_spec (Z.of_nat i) (size_of g)); [|lia].
  destruct (Z.leb_spec 0 (Z.of_nat j)); [|lia].
  destruct (Z.ltb_spec (Z.of_nat j) (size_of g)); [|lia]. simpl.
  fold (matrix_of g). rewrite cell_at_nonneg by lia.
  rewrite !Nat2Z.id, Hrow. simpl. rewrite Hp. simpl.
  rewrite (draw_symbol_app r scr').
  destruct (decide (p = NONE)) as [->|Hsome]; [|by rewrite bool_decide_true].
  rewrite bool_decide_false by (intros Hne; by apply Hne).
  change (GameRenderer.draw_symbol r [] _ NONE) with (@nil drawing).
  by rewrite app_nil_r.
Qed.

Lemma length_concat_imap {A B} (G : nat -> A -> list B) (w : A -> nat) (l : list A) :
  (forall i x, length (G i x) = w x) ->
  length (concat (imap G l)) = sum_list (map w l).
Proof.
  revert G. induction l as [|x l IH]; intros G HG; [done|].
  rewrite imap_cons. simpl. rewrite length_app, HG. f_equal.
  apply IH. intros i y. apply HG.
Qed.

Lemma length_row_symbols (l : list Player) :
  sum_list (map (fun p => match p with X => 2 | O => 1 | NONE => 0 end)%nat l)
  = (2 * length (filter (fun q => q = X) l) + length (filter (fun q => q = O) l))%nat.
Proof.
  induction l as [|p l IH]; [done|].
  rewrite map_cons, !filter_cons. change (sum_list (?x :: ?l)) with (x + sum_list l)%nat.
  rewrite IH. destruct p; repeat case_decide; try done; simpl; lia.
Qed.

Lemma length_board_symbols r (b : matrix) :
  length (board_symbols r b) = (2 * marks X b + marks O b)%nat.
Proof.
  unfold board_symbols.
  rewrite (length_concat_imap _
             (fun row => (2 * length (filter (fun q => q = X) row)
                          + length (filter (fun q => q = O) row))%nat)).
  - unfold marks. induction b as [|row b IH]; [done|]. simpl in *. lia.
  - intros i row.
    rewrite (length_concat_imap _
               (fun p => match p with X => 2 | O => 1 | NONE => 0 end)%nat).
    + apply length_row_symbols.
    + intros j p. apply length_draw_symbol.
Qed.

Lemma bind_returns {A B} (m : GameController.M A) (k : A -> GameController.M B)
    ctl a ctl' :
  m ctl = (Returns a, ctl') -> (m ≫= k) ctl = k a ctl'.
Proof. intros Hm. by rewrite bind_apply, Hm. Qed.

Lemma get_status_color_unfold ctl :
  GameController._get_status_color ctl
  = (Returns match status (GameController.game_state ctl) with
             | X_WINS => GameRenderer.RED
             | O_WINS => GameRenderer.BLUE
             | TIE => GameRenderer.WHITE
             | IN_PROGRESS => GameRenderer.GREEN
             end, ctl).
Proof.
  destruct ctl as [run r g]. unfold GameController._get_status_color.
  erewrite bind_returns; [|reflexivity]. simpl. by destruct (status g).
Qed.

Lemma draw_grid_app r screen :
  GameRenderer.draw_grid r screen = screen ++ GameRenderer.draw_grid r [].
Proof. done. Qed.

Lemma render_unfold ctl screen :
  coherent (GameController.game_state ctl) ->
  GameController._render screen ctl
  = (Returns
       (screen
        ++ [Fill GameRenderer.BLACK]
        ++ GameRenderer.draw_grid (GameController.renderer ctl) []
        ++ board_symbols (GameController.renderer ctl)
             (matrix_of (GameController.game_state ctl))
        ++ [Text 36
              (StatusMessageGenerator.create_status_message
                 (status (GameController.game_state ctl))
                 (current_player (GameController.game_state ctl)))
              match status (GameController.game_state ctl) with
              | X_WINS => GameRenderer.RED
              | O_WINS => GameRenderer.BLUE
              | TIE => GameRenderer.WHITE
              | IN_PROGRESS => GameRenderer.GREEN
              end
              (Dimensions.width (GameRenderer.dimensions (GameController.renderer ctl))
               / 2, 50);
            Text 24
              (if bool_decide (status (GameController.game_state ctl) = IN_PROGRESS)
               then "Click to place symbol - Press ESC to exit"
               else "Press R to restart or ESC to exit")
              GameRenderer.WHITE
              (Dimensions.width (GameRenderer.dimensions (GameController.renderer ctl))
               / 2,
               Dimensions.height (GameRenderer.dimensions (GameController.renderer ctl))
               - 30)]),
     ctl).
Proof.
  intros Hcoh. destruct ctl as [run r0 g0]. simpl in *.
  unfold GameController._render.
  erewrite bind_returns; [|reflexivity].
  erewrite bind_returns;
    [|cbn [GameController.game_state]; rewrite render_symbols_square by done;
      reflexivity].
  erewrite bind_returns; [|reflexivity].
  erewrite bind_returns; [|apply get_status_color_unfold].
  erewrite bind_returns; [|reflexivity].
  cbn [GameController.game_state].
  unfold GameRenderer.draw_instructions, GameRenderer.draw_status_message,
    GameRenderer.clear_screen.
  rewrite (draw_grid_app r0 (screen ++ _)). rewrite <- !app_assoc.
  cbn [GameController.renderer]. unfold mret, GameController.M_ret.
  destruct (status g0); reflexivity.
Qed.

(** X23.  A frame.  On a reachable game of any side [_render] never raises
    and changes nothing in the controller.  On top of what the screen held
    it draws, in this order: the black background, the grid, one symbol for
    every mark of the board and nothing for an empty cell, the status
    message in the colour of the status, and the instructions that fit the
    status.  The symbols are two strokes for each X and one circle for each
    O, so as many drawings as twice the moves of X plus the moves of O. *)
Theorem render_draws_the_game ctl screen :
  reachable (GameController.game_state ctl) ->
  let r := GameController.renderer ctl in
  let g := GameController.game_state ctl in
  GameController._render screen ctl
  = (Returns
       (screen
        ++ [Fill GameRenderer.BLACK]
        ++ GameRenderer.draw_grid r []
        ++ board_symbols r (matrix_of g)
        ++ [Text 36
              (StatusMessageGenerator.create_status_message
                 (status g) (current_player g))
              match status g with
              | X_WINS => GameRenderer.RED
              | O_WINS => GameRenderer.BLUE
              | TIE => GameRenderer.WHITE
              | IN_PROGRESS => GameRenderer.GREEN
              end
              (Dimensions.width (GameRenderer.dimensions r) / 2, 50);
            Text 24
              (if bool_decide (status g = IN_PROGRESS)
               then "Click to place symbol - Press ESC to exit"
               else "Press R to restart or ESC to exit")
              GameRenderer.WHITE
              (Dimensions.width (GameRenderer.dimensions r) / 2,
               Dimensions.height (GameRenderer.dimensions r) - 30)]),
     ctl) /\
  length (board_symbols r (matrix_of g))
  = (2 * logged X (move_history g) + logged O (move_history g))%nat.
Proof.
  intros Hs r g. pose proof (reachable_invariant _ Hs) as [Hcoh _].
  apply reachable_invariant_log in Hs as (_ & _ & Hmarks & _).
  split; [by apply render_unfold|].
  by rewrite length_board_symbols, !Hmarks.
Qed.

(** The frame after the first move of a game: two strokes. *)
Lemma render_draws_the_game_witness :
  reachable (run [op_attempt_move (at_ 1 1)] (fresh 3)) /\
  length (board_symbols renderer600
            (matrix_of (run [op_attempt_move (at_ 1 1)] (fresh 3)))) = 2%nat /\
  exists frame,
    GameController._render []
      (GameController.mk true renderer600 (run [op_attempt_move (at_ 1 1)] (fresh 3)))
    = (Returns frame,
       GameController.mk true renderer600 (run [op_attempt_move (at_ 1 1)] (fresh 3))) /\
    length frame = 10%nat.
Proof.
  assert (reachable (run [op_attempt_move (at_ 1 1)] (fresh 3))) as Hs.
  { apply reachable_run, reachable_fresh. lia. }
  split; [exact Hs|].
  destruct (render_draws_the_game
              (GameController.mk true renderer600
                 (run [op_attempt_move (at_ 1 1)] (fresh 3))) [] Hs) as [Hframe Hlen].
  split.
  - etrans; [exact Hlen|]. vm_compute. reflexivity.
  - eexists. split; [exact Hframe|]. vm_compute. reflexivity.
Defined.

(** ** Analytics *)

Lemma logged_partition h :
  length h = (logged X h + logged O h + logged NONE h)%nat.
Proof.
  unfold logged. induction h as [|m h IH]; [done|].
  destruct (Move.player m) eqn:Hp.
  - rewrite (filter_cons_True (fun m => Move.player m = NONE)) by done.
    rewrite !filter_cons_False by congruence. simpl. lia.
  - rewrite (filter_cons_True (fun m => Move.player m = X)) by done.
    rewrite !filter_cons_False by congruence. simpl. lia.
  - rewrite (filter_cons_True (fun m => Move.player m = O)) by done.
    rewrite !filter_cons_False by congruence. simpl. lia.
Qed.

Lemma add_move_metrics_counts (h : list Move.t) (metrics : gmap string Z) a b :
  metrics !! "x_moves" = Some a -> metrics !! "o_moves" = Some b ->
  exists metrics',
    foldl (fun acc move =>
             metrics ← acc;
             if bool_decide (Move.player move = X)
             then GameAnalyticsService.increment metrics "x_moves"
             else GameAnalyticsService.increment metrics "o_moves")
          (Returns metrics) h
    = Returns metrics' /\
    metrics' !! "x_moves" = Some (a + Z.of_nat (logged X h)) /\
    metrics' !! "o_moves" = Some (b + Z.of_nat (length h - logged X h)) /\
    (forall k, k <> "x_moves" -> k <> "o_moves" -> metrics' !! k = metrics !! k).
Proof.
  revert metrics a b. induction h as [|m h IH]; intros metrics a b Ha Hb.
  { exists metrics. simpl. rewrite !Z.add_0_r. done. }
  cbn [foldl]. unfold logged. simpl.
  destruct (decide (Move.player m = X)) as [Hp|Hp].
  - rewrite (bool_decide_true _ Hp).
    unfold GameAnalyticsService.increment, dict_getitem. rewrite Ha. simpl.
    destruct (IH (<["x_moves" := a + 1]> metrics) (a + 1) b) as (m' & Hm' & Hx & Ho & Hk).
    { by rewrite lookup_insert_eq. }
    { by rewrite lookup_insert_ne. }
    exists m'. rewrite filter_cons_True by done. split_and!; [done| | |].
    + rewrite Hx. unfold logged. f_equal. simpl. lia.
    + rewrite Ho. unfold logged. f_equal.
    + intros k Hkx Hko. rewrite Hk by done. by rewrite lookup_insert_ne.
  - rewrite (bool_decide_false _ Hp).
    unfold GameAnalyticsService.increment, dict_getitem. rewrite Hb. simpl.
    destruct (IH (<["o_moves" := b + 1]> metrics) a (b + 1)) as (m' & Hm' & Hx & Ho & Hk).
    { by rewrite lookup_insert_ne. }
    { by rewrite lookup_insert_eq. }
    exists m'. rewrite filter_cons_False by done. split_and!; [done| | |].
    + rewrite Hx. done.
    + rewrite Ho. unfold logged.
      pose proof (length_filter (fun m => Move.player m = X) h).
      f_equal. simpl length. lia.
    + intros k Hkx Hko. rewrite Hk by done. by rewrite lookup_insert_ne.
Qed.

(** X24.  The metrics of a reachable game.  [calculate_game_metrics] never
    raises; [total_moves] and [game_duration] are the length of the log,
    [x_moves] and [o_moves] the numbers of X and of O on the board, which
    add up to [total_moves].  [empty_squares] is nine minus the moves: the
    number of empty cells on a board of side three, and never that number
    on a board of any other side. *)
Theorem game_metrics_of_a_reachable_game s :
  reachable s ->
  exists metrics,
    GameAnalyticsService.calculate_game_metrics s = Returns metrics /\
    metrics !! "total_moves" = Some (Z.of_nat (length (move_history s))) /\
    metrics !! "game_duration" = Some (Z.of_nat (length (move_history s))) /\
    metrics !! "x_moves" = Some (Z.of_nat (marks X (matrix_of s))) /\
    metrics !! "o_moves" = Some (Z.of_nat (marks O (matrix_of s))) /\
    Z.of_nat (marks X (matrix_of s)) + Z.of_nat (marks O (matrix_of s))
    = Z.of_nat (length (move_history s)) /\
    metrics !! "empty_squares" = Some (9 - Z.of_nat (length (move_history s))) /\
    (metrics !! "empty_squares" = Some (Z.of_nat (marks NONE (matrix_of s)))
     <-> size_of s = 3).
Proof.
  intros Hs. pose proof (reachable_invariant _ Hs) as ((_ & _ & _ & Hn & Hsq) & _ & Hlog & _).
  pose proof (reachable_invariant_log _ Hs) as (_ & _ & Hmarks & Hnone & _).
  pose proof (logged_partition (move_history s)) as Hpart.
  pose proof (length_concat_square _ _ Hsq) as Hcells.
  pose proof (board_partition (matrix_of s)) as Hboard.
  rewrite !Z2Nat.id in Hcells by lia.
  unfold GameAnalyticsService.calculate_game_metrics,
    GameAnalyticsService._add_move_metrics.
  destruct (add_move_metrics_counts (move_history s)
              (GameAnalyticsService._create_base_metrics s) 0 0)
    as (m' & -> & Hx & Ho & Hk); [done..|].
  assert (m' !! "total_moves" = Some (Z.of_nat (length (move_history s)))) as Ht.
  { rewrite Hk by done. unfold GameAnalyticsService._create_base_metrics.
    rewrite !lookup_insert_ne by done. by rewrite lookup_insert_eq. }
  rewrite <- !Hmarks by done.
  simpl. unfold GameAnalyticsService._add_player_metrics, dict_getitem.
  rewrite lookup_insert_ne by done. rewrite Ht. simpl.
  eexists. split; [done|].
  split_and!.
  - by rewrite !lookup_insert_ne.
  - rewrite lookup_insert_ne by done. by rewrite lookup_insert_eq.
  - rewrite !lookup_insert_ne by done. rewrite Hx. f_equal; lia.
  - rewrite !lookup_insert_ne by done. rewrite Ho. f_equal; lia.
  - lia.
  - by rewrite lookup_insert_eq.
  - rewrite lookup_insert_eq. split.
    + intros [= Hempty]. nia.
    + intros H3. f_equal. rewrite H3 in Hcells. lia.
Qed.

(** The metrics after scenario A, which X won with five moves made. *)
Lemma game_metrics_of_a_reachable_game_witness :
  exists metrics,
    GameAnalyticsService.calculate_game_metrics (run scenario_A (fresh 3))
    = Returns metrics /\
    metrics !! "x_moves" = Some 3 /\
    metrics !! "o_moves" = Some 2 /\
    metrics !! "empty_squares" = Some 4.
Proof.
  destruct (game_metrics_of_a_reachable_game (run scenario_A (fresh 3)))
    as (metrics & Hm & _ & _ & Hx & Ho & _ & He & _).
  { apply reachable_run, reachable_fresh. lia. }
  exists metrics. split_and!.
  - exact Hm.
  - rewrite Hx. vm_compute. reflexivity.
  - rewrite Ho. vm_compute. reflexivity.
  - rewrite He. vm_compute. reflexivity.
Defined.

(** ** Where the symbols are drawn *)

(** X25.  A symbol never leaves its cell: with cells of side zero or more,
    the two strokes of an X and the circle of an O drawn for a coordinate
    lie in the square of that cell; and the cell of a coordinate of the grid
    lies in the square of the grid. *)
Theorem symbols_stay_inside_their_cell r c p :
  0 <= GameRenderer.cell_size r ->
  let cell := GameRenderer.cell_size r in
  let x := GameRenderer.grid_offset_x r + GridCoordinate.col c * cell in
  let y := GameRenderer.grid_offset_y r + GridCoordinate.row c * cell in
  let n := GridSize.size (GameRenderer.grid_size r) in
  Forall (lies_within x y (x + cell) (y + cell)) (GameRenderer.draw_symbol r [] c p) /\
  (in_bounds n c ->
   GameRenderer.grid_offset_x r <= x /\ x + cell <= GameRenderer.grid_offset_x r + n * cell /\
   GameRenderer.grid_offset_y r <= y /\ y + cell <= GameRenderer.grid_offset_y r + n * cell).
Proof.
  intros Hcell cell x y n. split.
  - destruct p; simpl; repeat constructor; fold cell; fold x; fold y;
      try (Z.div_mod_to_equations; lia).
  - intros [Hrow Hcol]. subst x y. nia.
Qed.

(** The O of the centre cell of the 600 by 600 window. *)
Lemma symbols_stay_inside_their_cell_witness :
  Forall (lies_within 200 200 400 400)
    (GameRenderer.draw_symbol renderer600 [] (at_ 1 1) O).
Proof.
  apply (symbols_stay_inside_their_cell renderer600 (at_ 1 1) O). simpl. lia.
Defined.

(** ** The input handler and the main loop *)

Lemma process_events_snoc queue event :
  InputHandler.process_events (queue ++ [event])
  = input_events ← InputHandler.process_events queue;
    match event with
    | PG_QUIT => Ok (input_events ++ [InputData.__init__ QUIT None])
    | KEYDOWN key =>
        match key with
        | K_ESCAPE => Ok (input_events ++ [InputData.__init__ QUIT None])
        | K_r => Ok (input_events ++ [InputData.__init__ RESTART None])
        | K_other _ => Ok input_events
        end
    | MOUSEBUTTONDOWN button pos =>
        if bool_decide (button = 1)
        then
          position ← ScreenPosition.__init__ pos.1 pos.2;
          Ok (input_events
              ++ [InputData.__init__ MOUSE_CLICK (Some {["position" := position]})])
        else Ok input_events
    | PG_OTHER => Ok input_events
    end.
Proof. unfold InputHandler.process_events. by rewrite foldl_app. Qed.

Lemma existsb_snoc {A} (f : A -> bool) l x :
  existsb f (l ++ [x]) = existsb f l || f x.
Proof. rewrite existsb_app. simpl. by rewrite orb_false_r. Qed.

Lemma process_events_ok r queue :
  Forall (click_in_window r) queue ->
  exists input_events,
    InputHandler.process_events queue = Ok input_events /\
    Forall (well_formed r) input_events /\
    Forall (fun e => InputData.event_type e <> UNKNOWN) input_events /\
    existsb is_quit input_events = existsb quits queue.
Proof.
  induction queue as [|event queue IH] using rev_ind; intros Hq.
  { exists []. by split_and!. }
  apply Forall_app in Hq as [Hq Hevent]. apply Forall_inv in Hevent.
  destruct (IH Hq) as (evs & Hevs & Hwf & Hknown & Hquit).
  rewrite process_events_snoc, Hevs. simpl. rewrite existsb_snoc, <- Hquit.
  assert (forall e b, well_formed r e -> InputData.event_type e <> UNKNOWN ->
            is_quit e = b ->
            Forall (well_formed r) (evs ++ [e]) /\
            Forall (fun e => InputData.event_type e <> UNKNOWN) (evs ++ [e]) /\
            existsb is_quit (evs ++ [e]) = existsb is_quit evs || b) as Hsnoc.
  { intros e b He Hne <-. rewrite !Forall_app, !Forall_singleton, existsb_snoc. done. }
  destruct event as [|[| |code]|button [x y]|]; simpl.
  - eexists. split; [done|]. by apply Hsnoc.
  - eexists. split; [done|]. by apply Hsnoc.
  - eexists. split; [done|]. by apply Hsnoc.
  - exists evs. by rewrite orb_false_r.
  - case_bool_decide as Hb; [|exists evs; by rewrite orb_false_r].
    subst button. simpl in Hevent. destruct Hevent as (Hx & Hy & Hox & Hoy).
    unfold ScreenPosition.__init__, ScreenPosition._validate_position_values. simpl.
    destruct (Z.ltb_spec x 0); [lia|]. destruct (Z.ltb_spec y 0); [lia|]. simpl.
    eexists. split; [done|]. apply Hsnoc; [|done..].
    intros _. eexists. split; [apply lookup_singleton_eq|done].
  - exists evs. by rewrite orb_false_r.
Qed.

Lemma handle_events_running evs ctl ctl' :
  GameController._handle_events evs ctl = (Returns tt, ctl') ->
  GameController.running ctl'
  = GameController.running ctl && negb (existsb is_quit evs).
Proof.
  revert ctl. induction evs as [|e evs IH]; intros ctl Hret.
  { injection Hret as <-. simpl. by rewrite andb_true_r. }
  cbn [GameController._handle_events] in Hret. rewrite bind_apply in Hret.
  simpl. destruct (is_quit e) eqn:Hq.
  - rewrite (handle_event_quit e ctl Hq) in Hret.
    rewrite (IH _ Hret). simpl. by rewrite andb_false_r.
  - pose proof (handle_event_keeps_running e Hq ctl) as Hrun.
    destruct (GameController._handle_event e ctl) as [[[]|err] ctl1]; [|done].
    simpl in Hrun. by rewrite (IH _ Hret), Hrun.
Qed.

Lemma frame_returns queue screen ctl :
  reachable (GameController.game_state ctl) ->
  3 <= size_of (GameController.game_state ctl) ->
  0 < GameRenderer.cell_size (GameController.renderer ctl) ->
  Forall (click_in_window (GameController.renderer ctl)) queue ->
  exists screen' ctl',
    (GameController._handle_input queue;;
     GameController._update;;
     GameController._render screen) ctl = (Returns screen', ctl') /\
    GameController.renderer ctl' = GameController.renderer ctl /\
    reachable (GameController.game_state ctl') /\
    size_of (GameController.game_state ctl') = size_of (GameController.game_state ctl) /\
    GameController.running ctl'
    = GameController.running ctl && negb (existsb quits queue).
Proof.
  intros Hs Hn Hcell Hq.
  destruct (process_events_ok _ _ Hq) as (evs & Hevs & Hwf & _ & Hquit).
  destruct (handle_events_returns evs ctl Hs Hn Hcell Hwf)
    as (ctl' & Hret & Hr & Hs' & Hn').
  pose proof (handle_events_running _ _ _ Hret) as Hrun.
  pose proof (reachable_invariant _ Hs') as [Hcoh _].
  eexists _, ctl'. split; [|by rewrite <- Hquit].
  erewrite bind_returns;
    [|unfold GameController._handle_input; erewrite bind_returns;
      [exact Hret|by rewrite Hevs]].
  erewrite bind_returns; [|reflexivity].
  by apply render_unfold.
Qed.

Lemma run_cons queue frames screen ctl screen1 ctl1 :
  GameController.running ctl = true ->
  (GameController._handle_input queue;;
   GameController._update;;
   GameController._render screen) ctl = (Returns screen1, ctl1) ->
  GameController.run (queue :: frames) screen ctl
  = GameController.run frames screen1 ctl1.
Proof.
  intros Hrun Hframe. cbn [GameController.run]. rewrite Hrun.
  rewrite bind_apply in Hframe. rewrite bind_apply.
  destruct (GameController._handle_input queue ctl) as [[[]|e] ctl0]; [|done].
  rewrite bind_apply in Hframe. rewrite bind_apply.
  destruct (GameController._update ctl0) as [[[]|e] ctl00]; [|done].
  by rewrite bind_apply, Hframe.
Qed.

Lemma run_stopped frames screen ctl :
  GameController.running ctl = false ->
  GameController.run frames screen ctl
  = (Throws (AttributeError "get_statistics"), ctl).
Proof. intros Hrun. destruct frames; simpl; by rewrite Hrun. Qed.

Lemma run_without_quit frames screen ctl :
  GameController.running ctl = true ->
  reachable (GameController.game_state ctl) ->
  3 <= size_of (GameController.game_state ctl) ->
  0 < GameRenderer.cell_size (GameController.renderer ctl) ->
  Forall (Forall (click_in_window (GameController.renderer ctl))) frames ->
  Forall (fun queue => existsb quits queue = false) frames ->
  exists screen' ctl',
    GameController.run frames screen ctl = (Returns screen', ctl') /\
    GameController.running ctl' = true /\
    GameController.renderer ctl' = GameController.renderer ctl /\
    reachable (GameController.game_state ctl') /\
    size_of (GameController.game_state ctl') = size_of (GameController.game_state ctl).
Proof.
  revert screen ctl. induction frames as [|queue frames IH];
    intros screen ctl Hrun Hs Hn Hcell Hq Hno.
  { exists screen, ctl. simpl. by rewrite Hrun. }
  apply Forall_cons in Hq as [Hq Hqs]. apply Forall_cons in Hno as [Hno Hnos].
  destruct (frame_returns queue screen ctl Hs Hn Hcell Hq)
    as (screen1 & ctl1 & Hframe & Hr1 & Hs1 & Hn1 & Hrun1).
  rewrite Hrun, Hno in Hrun1. simpl in Hrun1.
  destruct (IH screen1 ctl1) as (screen' & ctl' & Hret & Hrun' & Hr' & Hs' & Hn');
    [done|done|lia|by rewrite Hr1..|done|].
  exists screen', ctl'. split_and!; [|done|congruence|done|congruence].
  by rewrite (run_cons _ _ _ _ _ _ Hrun Hframe).
Qed.

Lemma run_until_quit before queue after screen ctl :
  GameController.running ctl = true ->
  reachable (GameController.game_state ctl) ->
  3 <= size_of (GameController.game_state ctl) ->
  0 < GameRenderer.cell_size (GameController.renderer ctl) ->
  Forall (Forall (click_in_window (GameController.renderer ctl))) before ->
  Forall (click_in_window (GameController.renderer ctl)) queue ->
  Forall (fun queue => existsb quits queue = false) before ->
  existsb quits queue = true ->
  exists ctl',
    GameController.run (before ++ queue :: after) screen ctl
    = (Throws (AttributeError "get_statistics"), ctl') /\
    GameController.running ctl' = false /\
    reachable (GameController.game_state ctl').
Proof.
  revert screen ctl. induction before as [|first before IH];
    intros screen ctl Hrun Hs Hn Hcell Hbefore Hqueue Hno Hquit.
  - destruct (frame_returns queue screen ctl Hs Hn Hcell Hqueue)
      as (screen1 & ctl1 & Hframe & Hr1 & Hs1 & Hn1 & Hrun1).
    rewrite Hrun, Hquit in Hrun1. simpl in Hrun1.
    exists ctl1. split_and!; [|done..]. simpl app.
    by rewrite (run_cons _ _ _ _ _ _ Hrun Hframe), run_stopped.
  - apply Forall_cons in Hbefore as [Hfirst Hbefore].
    apply Forall_cons in Hno as [Hno Hnos].
    destruct (frame_returns first screen ctl Hs Hn Hcell Hfirst)
      as (screen1 & ctl1 & Hframe & Hr1 & Hs1 & Hn1 & Hrun1).
    rewrite Hrun, Hno in Hrun1. simpl in Hrun1.
    destruct (IH screen1 ctl1) as (ctl' & Hret & Hrun' & Hs');
      [done|done|lia|by rewrite Hr1..|done|done|].
    exists ctl'. split_and!; [|done..].
    rewrite <- app_comm_cons. by rewrite (run_cons _ _ _ _ _ _ Hrun Hframe).
Qed.

(** X26.  No input makes the controller raise.  The game is reachable, on
    a board of side three or more, the cells have a positive side, and every
    left click is reported at a position of the window that is not left of
    or above the grid.  Then [_handle_input] returns; the game it leaves is
    reachable, on a board of the same side; the renderer is unchanged; and
    the [running] flag is cleared exactly when the queue held a window-close
    event or a press of escape. *)
Theorem handle_input_never_raises queue ctl :
  reachable (GameController.game_state ctl) ->
  3 <= size_of (GameController.game_state ctl) ->
  0 < GameRenderer.cell_size (GameController.renderer ctl) ->
  Forall (click_in_window (GameController.renderer ctl)) queue ->
  exists ctl',
    GameController._handle_input queue ctl = (Returns tt, ctl') /\
    GameController.renderer ctl' = GameController.renderer ctl /\
    reachable (GameController.game_state ctl') /\
    size_of (GameController.game_state ctl') = size_of (GameController.game_state ctl) /\
    GameController.running ctl'
    = GameController.running ctl && negb (existsb quits queue).
Proof.
  intros Hs Hn Hcell Hq.
  destruct (process_events_ok _ _ Hq) as (evs & Hevs & Hwf & _ & Hquit).
  destruct (handle_events_returns evs ctl Hs Hn Hcell Hwf)
    as (ctl' & Hret & Hr & Hs' & Hn').
  pose proof (handle_events_running _ _ _ Hret) as Hrun.
  exists ctl'. split_and!; [|done..|by rewrite <- Hquit].
  unfold GameController._handle_input.
  erewrite bind_returns; [exact Hret|by rewrite Hevs].
Qed.

(** The controller of the default window, and a queue of four events. *)
Lemma handle_input_never_raises_witness :
  GameController.__init__ None
  = Returns (GameController.mk true renderer600 (fresh 3)) /\
  exists ctl',
    GameController._handle_input
      [MOUSEBUTTONDOWN 1 (300, 300); KEYDOWN K_r; PG_QUIT; MOUSEBUTTONDOWN 1 (599, 0)]
      (GameController.mk true renderer600 (fresh 3))
    = (Returns tt, ctl') /\
    GameController.running ctl' = false /\
    matrix_of (GameController.game_state ctl')
    = board3 NONE NONE O NONE X NONE NONE NONE NONE.
Proof.
  split; [vm_compute; reflexivity|].
  destruct (handle_input_never_raises
              [MOUSEBUTTONDOWN 1 (300, 300); KEYDOWN K_r; PG_QUIT;
               MOUSEBUTTONDOWN 1 (599, 0)]
              (GameController.mk true renderer600 (fresh 3)))
    as (ctl' & Hret & _ & _ & _ & Hrun).
  - apply reachable_fresh. lia.
  - vm_compute. discriminate.
  - simpl. lia.
  - repeat constructor; simpl; lia.
  - exists ctl'. split; [exact Hret|]. split; [exact Hrun|].
    assert (ctl' = (GameController._handle_input
                      [MOUSEBUTTONDOWN 1 (300, 300); KEYDOWN K_r; PG_QUIT;
                       MOUSEBUTTONDOWN 1 (599, 0)]
                      (GameController.mk true renderer600 (fresh 3))).2) as ->
      by (by rewrite Hret).
    vm_compute. reflexivity.
Defined.



(** X28.  The main loop.  The controller is running, on a reachable game of
    side three or more, with cells of positive side, and every left click
    is reported at a position of the window that is not left of or above
    the grid.  As long as no queue holds a window-close event or a press of
    escape, the loop goes on without raising and the flag stays set.  The
    first queue that holds one ends the loop, whatever queues would follow:
    the flag is cleared, the game is still a reachable one, and [_cleanup]
    raises [AttributeError], because [GameAnalyticsService] has no
    [get_statistics].  So the loop never ends without an exception. *)
Theorem run_ends_with_an_attribute_error before queue after screen ctl :
  GameController.running ctl = true ->
  reachable (GameController.game_state ctl) ->
  3 <= size_of (GameController.game_state ctl) ->
  0 < GameRenderer.cell_size (GameController.renderer ctl) ->
  Forall (Forall (click_in_window (GameController.renderer ctl))) (before ++ [queue]) ->
  Forall (fun queue => existsb quits queue = false) before ->
  (exists screen' ctl',
     GameController.run before screen ctl = (Returns screen', ctl') /\
     GameController.running ctl' = true) /\
  (existsb quits queue = true ->
   exists ctl',
     GameController.run (before ++ queue :: after) screen ctl
     = (Throws (AttributeError "get_statistics"), ctl') /\
     GameController.running ctl' = false /\
     reachable (GameController.game_state ctl')).
Proof.
  intros Hrun Hs Hn Hcell Hq Hno.
  apply Forall_app in Hq as [Hbefore Hqueue]. apply Forall_inv in Hqueue.
  split.
  - destruct (run_without_quit before screen ctl) as (screen' & ctl' & Hret & Hrun' & _);
      [done..|]. by exists screen', ctl'.
  - intros Hquit. by apply run_until_quit.
Qed.

(** One move, then escape: the loop ends with the exception. *)
Lemma run_ends_with_an_attribute_error_witness :
  exists ctl',
    GameController.run
      ([[MOUSEBUTTONDOWN 1 (300, 300)]] ++ [KEYDOWN K_ESCAPE] :: [[PG_OTHER]]) []
      (GameController.mk true renderer600 (fresh 3))
    = (Throws (AttributeError "get_statistics"), ctl') /\
    GameController.running ctl' = false /\
    reachable (GameController.game_state ctl').
Proof.
  destruct (run_ends_with_an_attribute_error
              [[MOUSEBUTTONDOWN 1 (300, 300)]] [KEYDOWN K_ESCAPE] [[PG_OTHER]] []
              (GameController.mk true renderer600 (fresh 3))) as [_ Hquit].
  - reflexivity.
  - apply reachable_fresh. lia.
  - vm_compute. discriminate.
  - simpl. lia.
  - repeat constructor; simpl; lia.
  - repeat constructor.
  - apply Hquit. reflexivity.
Defined.


(** X29.  In every reachable state [analyze_winning_pattern] reports a
    winning pattern exactly when the game has a winner, and no pattern
    exactly when it has none, be the game tied or still in progress. *)
Theorem winning_pattern_iff_winner s :
  reachable s ->
  (GameAnalyticsService.analyze_winning_pattern s
   = "Three in a line (row, column, or diagonal)"
   <-> exists p, winner s = Some p) /\
  (GameAnalyticsService.analyze_winning_pattern s
   = "No winning pattern (game not won)" <-> winner s = None).
Proof.
  intros Hs.
  pose proof (reachable_invariant_log _ Hs) as (Hwin & _).
  unfold GameAnalyticsService.analyze_winning_pattern. rewrite Hwin.
  destruct (status s); simpl; (split; split); try done; try (by eexists);
    by intros [? ?].
Qed.

(** After scenario A the analytics report a pattern; after the tie of
    scenario B they report none. *)
Lemma winning_pattern_iff_winner_witness :
  GameAnalyticsService.analyze_winning_pattern (run scenario_A (fresh 3))
  = "Three in a line (row, column, or diagonal)" /\
  GameAnalyticsService.analyze_winning_pattern (run scenario_B (fresh 3))
  = "No winning pattern (game not won)".
Proof.
  split.
  - apply (winning_pattern_iff_winner (run scenario_A (fresh 3))).
    + apply reachable_run, reachable_fresh. lia.
    + exists X. vm_compute. reflexivity.
  - apply (winning_pattern_iff_winner (run scenario_B (fresh 3))).
    + apply reachable_run, reachable_fresh. lia.
    + vm_compute. reflexivity.
Defined.
